(** * ADIS16470 RoboRIO driver: a shallow embedding of ADIS16470_IMU.cpp

    The driver is embedded function by function.  C++ integers are [Z] with
    their wrap-around written out, [double] is Rocq's primitive binary64
    [float] (the same IEEE 754 arithmetic the compiled driver runs), the
    driver object is a record of its members, and the methods that touch
    the bus thread the object through a small state monad.  Code that can
    leave its loop late, or never, takes fuel and answers with an
    [outcome]. *)

From Stdlib Require Import String ZArith List Lia Bool Floats Uint63.
Import ListNotations.

Local Open Scope Z_scope.

(** ** Machine integers *)

(** Conversion to an unsigned integer of [w] bits. *)
Definition wrap (w : Z) (x : Z) : Z := x mod 2 ^ w.

(** Conversion to a two's complement integer of [w] bits. *)
Definition swrap (w : Z) (x : Z) : Z :=
  let m := x mod 2 ^ w in
  if m <? 2 ^ (w - 1) then m else m - 2 ^ w.

Definition uint8_t : Z -> Z := wrap 8.
Definition uint16_t : Z -> Z := wrap 16.
Definition uint32_t : Z -> Z := wrap 32.
Definition int16_t : Z -> Z := swrap 16.
Definition int32_t : Z -> Z := swrap 32.

(** [idx buf k] is [buf[k]]: the arrays of the driver are lists of machine
    words, and a pointer [&buf[off]] is the pair of the array and the
    offset. *)
Definition idx (buf : list Z) (k : Z) : Z := nth (Z.to_nat k) buf 0.

(** [ToInt]: four [uint32_t] words, shifted and or-ed as [uint32_t], then
    converted to [int32_t]. *)
Definition ToInt (buf : list Z) (off : Z) : Z :=
  int32_t
    (Z.lor (Z.lor (Z.lor (uint32_t (Z.shiftl (idx buf off) 24))
                         (uint32_t (Z.shiftl (idx buf (off + 1)) 16)))
                  (uint32_t (Z.shiftl (idx buf (off + 2)) 8)))
           (idx buf (off + 3))).

(** [BuffToShort]: the first word is converted to [int16_t], promoted to
    [int] and shifted; the or with the second word ([uint32_t]) is
    unsigned; the result is converted to [int16_t]. *)
Definition BuffToShort (buf : list Z) (off : Z) : Z :=
  int16_t (Z.lor (uint32_t (Z.shiftl (int16_t (idx buf off)) 8)) (idx buf (off + 1))).

(** [ToUShort]: two bytes, the first one the high byte. *)
Definition ToUShort (buf : list Z) : Z :=
  uint16_t (Z.lor (Z.shiftl (uint16_t (idx buf 0)) 8) (idx buf 1)).

(** [BuffToUShort]: as [BuffToShort], the first word converted to
    [uint16_t] and the result too. *)
Definition BuffToUShort (buf : list Z) (off : Z) : Z :=
  uint16_t (Z.lor (uint32_t (Z.shiftl (uint16_t (idx buf off)) 8)) (idx buf (off + 1))).

(** [ToShort]: [ToUShort]'s join, converted to [int16_t]. *)
Definition ToShort (buf : list Z) : Z :=
  int16_t (Z.lor (Z.shiftl (uint16_t (idx buf 0)) 8) (idx buf 1)).

(** The big-endian bytes of a 16-bit and of a 32-bit two's complement
    integer, as the device sends them. *)
Definition bytes_of_int16 (v : Z) : list Z :=
  [(v mod 2 ^ 16) / 2 ^ 8; v mod 2 ^ 8].

Definition bytes_of_int32 (v : Z) : list Z :=
  [(v mod 2 ^ 32) / 2 ^ 24; (v mod 2 ^ 24) / 2 ^ 16; (v mod 2 ^ 16) / 2 ^ 8; v mod 2 ^ 8].

(** ** Doubles *)

(** Conversion of a signed integer to [double]; exact below 2^53. *)
Definition double_of_int (z : Z) : float :=
  if z <? 0 then PrimFloat.opp (PrimFloat.of_uint63 (Uint63.of_Z (- z)))
  else PrimFloat.of_uint63 (Uint63.of_Z z).

(** Conversion of a [uint32_t] to [double]. *)
Definition double_of_uint32 (z : Z) : float :=
  PrimFloat.of_uint63 (Uint63.of_Z z).

(** [M_PI] of <cmath>, 3.14159265358979323846 rounded to binary64. *)
Definition M_PI : float := 0x1.921fb54442d18p+1%float.

(** C++ writes [>] and [>=]; the primitive comparisons are [<] and [<=]. *)
Definition gtb (x y : float) : bool := PrimFloat.ltb y x.
Definition geb (x y : float) : bool := PrimFloat.leb y x.

Notation "x >? y" := (gtb x y) (at level 70, no associativity) : float_scope.
Notation "x >=? y" := (geb x y) (at level 70, no associativity) : float_scope.

(** *** The value of a double

    The properties of the complementary filter are about the numbers the
    doubles stand for.  The smallest positive double is [2^-1074], so every
    finite double is a whole number of units of [2^-1074]: [F2Z] gives that
    whole number (and 0 for an infinity or a NaN, which [finite] tells
    apart). *)
Definition SF2Z (x : spec_float) : Z :=
  match x with
  | S754_finite s m e => cond_Zopp s (Zpos m) * 2 ^ (e + 1074)
  | _ => 0
  end.

Definition F2Z (x : float) : Z := SF2Z (Prim2SF x).

Definition SFfinite (x : spec_float) : bool :=
  match x with
  | S754_finite _ _ _ | S754_zero _ => true
  | _ => false
  end.

Definition finite (x : float) : bool := SFfinite (Prim2SF x).

(** [M / 2^k] rounded to the nearest whole number, a tie to the even one. *)
Definition rne (M k : Z) : Z :=
  let q := M / 2 ^ k in
  match 2 * (M mod 2 ^ k) ?= 2 ^ k with
  | Lt => q
  | Eq => if Z.even q then q else q + 1
  | Gt => q + 1
  end.

(** What binary64 keeps of an exact result of [V] units: its 53 leading
    bits, rounded to nearest, ties to even. *)
Definition round53 (V : Z) : Z :=
  let k := Z.max (Z.log2 (Z.abs V) + 1 - 53) 0 in
  Z.sgn V * (rne (Z.abs V) k * 2 ^ k).

(** [shr] and [fexp] of the Standard Library's model of binary64, in closed
    form. *)
Definition shr_spec (M : Z) (n : nat) : shr_record :=
  match n with
  | O => {| shr_m := M; shr_r := false; shr_s := false |}
  | S n' => {| shr_m := M / 2 ^ Z.of_nat n;
               shr_r := Z.odd (M / 2 ^ Z.of_nat n');
               shr_s := negb (M mod 2 ^ Z.of_nat n' =? 0) |}
  end.

Definition fexp64 (x : Z) : Z := Z.max (x - 53) (-1074).

(** ** Outcomes of code that may not return *)

Inductive outcome (A : Type) : Type :=
| Ret (a : A)       (* the code returned [a] *)
| OutOfFuel         (* a loop was still running when the fuel ended *)
| OutOfBounds.      (* an access outside an array: no defined behaviour *)

Arguments Ret {A} a.
Arguments OutOfFuel {A}.
Arguments OutOfBounds {A}.

Definition obind {A B : Type} (m : outcome A) (k : A -> outcome B) : outcome B :=
  match m with
  | Ret a => k a
  | OutOfFuel => OutOfFuel
  | OutOfBounds => OutOfBounds
  end.

Notation "'do' x <- m ;; k" := (obind m (fun x => k))
  (at level 10, x pattern, m at level 60, k at level 200).

(** ** Complementary filter helpers *)

Local Open Scope float_scope.

(** [FormatFastConverge]: at most one shift of 2 pi. *)
Definition FormatFastConverge (compAngle accAngle : float) : float :=
  if compAngle >? accAngle + M_PI then compAngle - 2.0 * M_PI
  else if accAngle >? compAngle + M_PI then compAngle + 2.0 * M_PI
  else compAngle.

(** The first loop of [FormatRange0to2PI]:
    [while (compAngle >= 2 * M_PI) compAngle = compAngle - 2.0 * M_PI]. *)
Fixpoint range_down (fuel : nat) (compAngle : float) : outcome float :=
  if compAngle >=? 2 * M_PI then
    match fuel with
    | O => OutOfFuel
    | S fuel' => range_down fuel' (compAngle - 2.0 * M_PI)
    end
  else Ret compAngle.

(** The second loop:
    [while (compAngle < 0.0) compAngle = compAngle + 2.0 * M_PI]. *)
Fixpoint range_up (fuel : nat) (compAngle : float) : outcome float :=
  if compAngle <? 0.0 then
    match fuel with
    | O => OutOfFuel
    | S fuel' => range_up fuel' (compAngle + 2.0 * M_PI)
    end
  else Ret compAngle.

(** [FormatRange0to2PI]; [fuel] bounds the iterations of each loop. *)
Definition FormatRange0to2PI (fuel : nat) (compAngle : float) : outcome float :=
  do compAngle <- range_down fuel compAngle ;;
  range_up fuel compAngle.

(** [FormatAccelRange]. *)
Definition FormatAccelRange (accelAngle accelZ : float) : float :=
  if accelZ <? 0.0 then M_PI - accelAngle
  else if (accelZ >? 0.0) && (accelAngle <? 0.0) then 2.0 * M_PI + accelAngle
  else accelAngle.

(** [CompFilterProcess] reads the members [m_dt] and [m_alpha]; they are
    passed in here and taken from the object by the caller. *)
Definition CompFilterProcess (fuel : nat) (m_dt m_alpha : float)
    (compAngle accelAngle omega : float) : outcome float :=
  let compAngle := FormatFastConverge compAngle accelAngle in
  let gyroAngle := compAngle + omega * m_dt in
  let compAngle := m_alpha * gyroAngle + (1.0 - m_alpha) * accelAngle in
  FormatRange0to2PI fuel compAngle.

Local Close Scope float_scope.

(** ** What the header and the C library provide *)

(** ADIS16470_IMU.h is not part of the sources at hand: its scale factors
    and register addresses are parameters of the model. *)
Class Header : Type := {
  delta_angle_sf : float;
  rad_to_deg : float;
  deg_to_rad : float;
  grav : float;
  PROD_ID : Z;
  NULL_CNFG : Z;
  GLOB_CMD : Z
}.

(** [atan2f] and [sqrtf] of the C library, with the conversions of their
    [double] arguments to [float] and of their results back to [double]. *)
Class Libm : Type := {
  atan2f : float -> float -> float;
  sqrtf : float -> float
}.

Inductive IMUAxis : Type := kX | kY | kZ.

Definition IMUAxis_eqb (a b : IMUAxis) : bool :=
  match a, b with
  | kX, kX | kY, kY | kZ, kZ => true
  | _, _ => false
  end.

(** The three auto SPI packets of the header, by name. *)
Inductive AutoPacket : Type :=
  m_autospi_x_packet | m_autospi_y_packet | m_autospi_z_packet.

(** ** The bus *)

(** The calls the driver makes on its [SPI] object. *)
Inductive SpiCall : Type :=
| NewSPI
| DeleteSPI
| SetClockRate (hz : Z)
| SetMSBFirst
| SetSampleDataOnTrailingEdge
| SetClockActiveLow
| SetChipSelectActiveLow
| Write (data : list Z)
| Read (initiate : bool) (size : Z)
| InitAuto (bufferSize : Z)
| SetAutoTransmitData (packet : AutoPacket) (zeroSize : Z)
| ConfigureAutoStall (csToSclkTicks stallTicks pow2BytesPerRead : Z)
| StartAutoTrigger (rising falling : bool)
| ReadAutoReceivedData (numToRead : Z).

(** Modelled from the spec: the bus transport of the external interfaces
    ([write], [read], [pollBufferedWordCount], [drainBuffered]) as the
    simulated transport of the testable properties.  It keeps the log of
    the calls, stores the byte of every write whose address byte has the
    write bit set, remembers the address of a read request, serves the two
    bytes stored at that register (high byte first) and buffers the words
    streamed in auto mode. *)
Record SimBus : Type := {
  wire : list SpiCall;     (* every call so far, oldest first *)
  regs : Z -> Z;           (* the byte stored at each 7-bit address *)
  request : Z;             (* address byte of the last read request *)
  fifo : list Z            (* streamed words not drained yet *)
}.

Definition logged (c : SpiCall) (b : SimBus) : SimBus :=
  {| wire := wire b ++ [c]; regs := regs b; request := request b; fifo := fifo b |}.

Definition store_reg (a v : Z) (f : Z -> Z) : Z -> Z :=
  fun k => if k =? a then v else f k.

Definition spi_Write (data : list Z) (b : SimBus) : SimBus :=
  let b := logged (Write data) b in
  if Z.testbit (idx data 0) 7 then
    {| wire := wire b; regs := store_reg (Z.land (idx data 0) 0x7f) (idx data 1) (regs b);
       request := request b; fifo := fifo b |}
  else
    {| wire := wire b; regs := regs b; request := idx data 0; fifo := fifo b |}.

Definition spi_Read (initiate : bool) (size : Z) (b : SimBus) : list Z * SimBus :=
  ([regs b (request b + 1); regs b (request b)], logged (Read initiate size) b).

(** [ReadAutoReceivedData(buffer, numToRead, timeout)]: the number of words
    buffered when the call is made, and the [numToRead] oldest words, which
    leave the transport. *)
Definition spi_ReadAutoReceivedData (numToRead : Z) (b : SimBus)
    : (Z * list Z) * SimBus :=
  let n := Z.to_nat numToRead in
  ((Z.of_nat (length (fifo b)), firstn n (fifo b)),
   {| wire := wire b ++ [ReadAutoReceivedData numToRead]; regs := regs b;
      request := request b; fifo := skipn n (fifo b) |}).

(** Words the device streams between two polls. *)
Definition arrive (ws : list Z) (b : SimBus) : SimBus :=
  {| wire := wire b; regs := regs b; request := request b; fifo := fifo b ++ ws |}.

(** ** The driver object *)

(** The members guarded by [m_mutex]: what the accessors publish. *)
Record Readings : Type := {
  m_integ_angle : float;
  m_gyro_x : float;
  m_gyro_y : float;
  m_gyro_z : float;
  m_accel_x : float;
  m_accel_y : float;
  m_accel_z : float;
  m_compAngleX : float;
  m_compAngleY : float;
  m_accelAngleX : float;
  m_accelAngleY : float
}.

(** The object.  A pointer member is [true] when it is not null and a
    thread member when it is joinable; the calibration time is the
    [uint16_t] code of the header's enumeration. *)
Record ADIS16470_IMU : Type := {
  m_yaw_axis : IMUAxis;
  m_calibration_time : Z;
  m_freed : bool;
  m_spi : bool;                 (* [m_spi != nullptr] *)
  m_auto_interrupt : bool;      (* [m_auto_interrupt != nullptr] *)
  m_acquire_task : bool;        (* [m_acquire_task.joinable()] *)
  bus : SimBus;                 (* what [m_spi] talks to *)
  reports : list string;        (* messages sent to the driver station *)
  m_dt : float;
  m_alpha : float;
  m_tau : float;
  guarded : Readings
}.

Definition set_m_yaw_axis (v : IMUAxis) (d : ADIS16470_IMU) : ADIS16470_IMU :=
  Build_ADIS16470_IMU v (m_calibration_time d) (m_freed d) (m_spi d)
    (m_auto_interrupt d) (m_acquire_task d) (bus d) (reports d)
    (m_dt d) (m_alpha d) (m_tau d) (guarded d).

Definition set_m_calibration_time (v : Z) (d : ADIS16470_IMU) : ADIS16470_IMU :=
  Build_ADIS16470_IMU (m_yaw_axis d) v (m_freed d) (m_spi d)
    (m_auto_interrupt d) (m_acquire_task d) (bus d) (reports d)
    (m_dt d) (m_alpha d) (m_tau d) (guarded d).

Definition set_m_freed (v : bool) (d : ADIS16470_IMU) : ADIS16470_IMU :=
  Build_ADIS16470_IMU (m_yaw_axis d) (m_calibration_time d) v (m_spi d)
    (m_auto_interrupt d) (m_acquire_task d) (bus d) (reports d)
    (m_dt d) (m_alpha d) (m_tau d) (guarded d).

Definition set_m_spi (v : bool) (d : ADIS16470_IMU) : ADIS16470_IMU :=
  Build_ADIS16470_IMU (m_yaw_axis d) (m_calibration_time d) (m_freed d) v
    (m_auto_interrupt d) (m_acquire_task d) (bus d) (reports d)
    (m_dt d) (m_alpha d) (m_tau d) (guarded d).

Definition set_m_auto_interrupt (v : bool) (d : ADIS16470_IMU) : ADIS16470_IMU :=
  Build_ADIS16470_IMU (m_yaw_axis d) (m_calibration_time d) (m_freed d) (m_spi d)
    v (m_acquire_task d) (bus d) (reports d)
    (m_dt d) (m_alpha d) (m_tau d) (guarded d).

Definition set_m_acquire_task (v : bool) (d : ADIS16470_IMU) : ADIS16470_IMU :=
  Build_ADIS16470_IMU (m_yaw_axis d) (m_calibration_time d) (m_freed d) (m_spi d)
    (m_auto_interrupt d) v (bus d) (reports d)
    (m_dt d) (m_alpha d) (m_tau d) (guarded d).

Definition set_bus (v : SimBus) (d : ADIS16470_IMU) : ADIS16470_IMU :=
  Build_ADIS16470_IMU (m_yaw_axis d) (m_calibration_time d) (m_freed d) (m_spi d)
    (m_auto_interrupt d) (m_acquire_task d) v (reports d)
    (m_dt d) (m_alpha d) (m_tau d) (guarded d).

Definition set_reports (v : list string) (d : ADIS16470_IMU) : ADIS16470_IMU :=
  Build_ADIS16470_IMU (m_yaw_axis d) (m_calibration_time d) (m_freed d) (m_spi d)
    (m_auto_interrupt d) (m_acquire_task d) (bus d) v
    (m_dt d) (m_alpha d) (m_tau d) (guarded d).

Definition set_m_dt (v : float) (d : ADIS16470_IMU) : ADIS16470_IMU :=
  Build_ADIS16470_IMU (m_yaw_axis d) (m_calibration_time d) (m_freed d) (m_spi d)
    (m_auto_interrupt d) (m_acquire_task d) (bus d) (reports d)
    v (m_alpha d) (m_tau d) (guarded d).

Definition set_m_alpha (v : float) (d : ADIS16470_IMU) : ADIS16470_IMU :=
  Build_ADIS16470_IMU (m_yaw_axis d) (m_calibration_time d) (m_freed d) (m_spi d)
    (m_auto_interrupt d) (m_acquire_task d) (bus d) (reports d)
    (m_dt d) v (m_tau d) (guarded d).

Definition set_guarded (v : Readings) (d : ADIS16470_IMU) : ADIS16470_IMU :=
  Build_ADIS16470_IMU (m_yaw_axis d) (m_calibration_time d) (m_freed d) (m_spi d)
    (m_auto_interrupt d) (m_acquire_task d) (bus d) (reports d)
    (m_dt d) (m_alpha d) (m_tau d) v.

Definition set_m_integ_angle (v : float) (r : Readings) : Readings :=
  Build_Readings v (m_gyro_x r) (m_gyro_y r) (m_gyro_z r)
    (m_accel_x r) (m_accel_y r) (m_accel_z r)
    (m_compAngleX r) (m_compAngleY r) (m_accelAngleX r) (m_accelAngleY r).

(** ** Methods as state transformers *)

Definition M (A : Type) : Type := ADIS16470_IMU -> A * ADIS16470_IMU.

Definition ret {A : Type} (a : A) : M A := fun d => (a, d).

Definition bind {A B : Type} (m : M A) (k : A -> M B) : M B :=
  fun d => let (a, d') := m d in k a d'.

Definition modify (f : ADIS16470_IMU -> ADIS16470_IMU) : M unit :=
  fun d => (tt, f d).

Definition get {A : Type} (f : ADIS16470_IMU -> A) : M A :=
  fun d => (f d, d).

Notation "x <-- m ;; k" := (bind m (fun x => k))
  (at level 61, m at next level, right associativity).
Notation "m ;; k" := (bind m (fun _ => k))
  (at level 61, right associativity).

(** A call on [m_spi] that returns nothing of interest. *)
Definition spi (c : SpiCall) : M unit :=
  modify (fun d => set_bus (logged c (bus d)) d).

Definition spi_write (data : list Z) : M unit :=
  modify (fun d => set_bus (spi_Write data (bus d)) d).

Definition spi_read (initiate : bool) (size : Z) : M (list Z) :=
  fun d => let (buf, b) := spi_Read initiate size (bus d) in (buf, set_bus b d).

Definition ReportError (msg : string) : M unit :=
  modify (fun d => set_reports (reports d ++ [msg]) d).

(** *** Register transport *)

Definition ReadRegister (reg : Z) : M Z :=
  let reg := uint8_t reg in
  let buf := [uint8_t (Z.land reg 0x7f); 0] in
  spi_write buf ;;
  buf <-- spi_read false 2 ;;
  ret (ToUShort buf).

Definition WriteRegister (reg val : Z) : M unit :=
  let reg := uint8_t reg in
  let val := uint16_t val in
  let buf := [uint8_t (Z.lor 0x80 reg); uint8_t (Z.land val 0xff)] in
  spi_write buf ;;
  let buf := [uint8_t (Z.lor 0x81 reg); uint8_t (Z.shiftr val 8)] in
  spi_write buf.

(** *** [Reset] *)

Definition Reset : M unit :=
  modify (fun d => set_guarded (set_m_integ_angle 0%float (guarded d)) d).

(** *** Accessors *)

(** The [const] accessors read one member under the mutex. *)
Definition GetAngle (d : ADIS16470_IMU) : float := m_integ_angle (guarded d).

Definition GetRate (d : ADIS16470_IMU) : float :=
  match m_yaw_axis d with
  | kX => m_gyro_x (guarded d)
  | kY => m_gyro_y (guarded d)
  | kZ => m_gyro_z (guarded d)
  end.

Definition GetYawAxis (d : ADIS16470_IMU) : IMUAxis := m_yaw_axis d.

Definition GetGyroInstantX (d : ADIS16470_IMU) : float := m_gyro_x (guarded d).
Definition GetGyroInstantY (d : ADIS16470_IMU) : float := m_gyro_y (guarded d).
Definition GetGyroInstantZ (d : ADIS16470_IMU) : float := m_gyro_z (guarded d).
Definition GetAccelInstantX (d : ADIS16470_IMU) : float := m_accel_x (guarded d).
Definition GetAccelInstantY (d : ADIS16470_IMU) : float := m_accel_y (guarded d).
Definition GetAccelInstantZ (d : ADIS16470_IMU) : float := m_accel_z (guarded d).
Definition GetXComplementaryAngle (d : ADIS16470_IMU) : float :=
  m_compAngleX (guarded d).
Definition GetYComplementaryAngle (d : ADIS16470_IMU) : float :=
  m_compAngleY (guarded d).
Definition GetXFilteredAccelAngle (d : ADIS16470_IMU) : float :=
  m_accelAngleX (guarded d).
Definition GetYFilteredAccelAngle (d : ADIS16470_IMU) : float :=
  m_accelAngleY (guarded d).

(** *** Bus mode controller *)

Section ModeController.
Context {H : Header}.

Definition SwitchToStandardSPI : M bool :=
  (* stop the acquire thread *)
  freed <-- get m_freed ;;
  (if negb freed then
     modify (set_m_freed true) ;;
     joinable <-- get m_acquire_task ;;
     (if joinable then modify (set_m_acquire_task false) else ret tt)
   else ret tt) ;;
  (* release the handles of a previous mode *)
  open <-- get m_spi ;;
  (if open then
     spi DeleteSPI ;;
     (* [delete m_auto_interrupt]: the object is freed, the member keeps
        its value; only [m_spi] is set to [nullptr] *)
     modify (set_m_spi false)
   else ret tt) ;;
  (* general SPI settings *)
  spi NewSPI ;;
  modify (set_m_spi true) ;;
  spi (SetClockRate 2000000) ;;
  spi SetMSBFirst ;;
  spi SetSampleDataOnTrailingEdge ;;
  spi SetClockActiveLow ;;
  spi SetChipSelectActiveLow ;;
  ReadRegister PROD_ID ;;
  (* validate the product ID *)
  prod_id <-- ReadRegister PROD_ID ;;
  if negb (prod_id =? 16982) && negb (prod_id =? 16470) then
    ReportError "Could not find ADIS16470!" ;;
    ret false
  else ret true.

Definition auto_packet (yaw_axis : IMUAxis) : AutoPacket :=
  match yaw_axis with
  | kX => m_autospi_x_packet
  | kY => m_autospi_y_packet
  | _ => m_autospi_z_packet
  end.

Definition SwitchToAutoSPI : M bool :=
  open <-- get m_spi ;;
  ok <-- (if negb open then SwitchToStandardSPI else ret true) ;;
  if negb ok then ret false
  else
    modify (set_m_auto_interrupt true) ;;
    spi (InitAuto 8200) ;;
    yaw_axis <-- get m_yaw_axis ;;
    spi (SetAutoTransmitData (auto_packet yaw_axis) 2) ;;
    spi (ConfigureAutoStall 5 1000 1) ;;
    spi (StartAutoTrigger true false) ;;
    freed <-- get m_freed ;;
    (if freed then
       modify (set_m_freed false) ;;
       modify (set_m_acquire_task true)
     else ret tt) ;;
    Reset ;;
    ret true.

(** [new_cal_time] is the integer value of the enumerator. *)
Definition ConfigCalTime (new_cal_time : Z) : M Z :=
  cal <-- get m_calibration_time ;;
  if cal =? uint16_t new_cal_time then ret 1
  else
    ok <-- SwitchToStandardSPI ;;
    if negb ok then ret 2
    else
      modify (set_m_calibration_time (uint16_t new_cal_time)) ;;
      cal <-- get m_calibration_time ;;
      WriteRegister NULL_CNFG (Z.lor cal 0x700) ;;
      SwitchToAutoSPI ;;
      ret 0.

Definition Calibrate : M unit :=
  ok <-- SwitchToStandardSPI ;;
  if negb ok then ret tt
  else
    WriteRegister GLOB_CMD 0x0001 ;;
    SwitchToAutoSPI ;;
    ret tt.

Definition SetYawAxis (yaw_axis : IMUAxis) : M Z :=
  cur <-- get m_yaw_axis ;;
  if IMUAxis_eqb cur yaw_axis then ret 1
  else
    ok <-- SwitchToStandardSPI ;;
    if negb ok then ret 2
    else
      modify (set_m_yaw_axis yaw_axis) ;;
      SwitchToAutoSPI ;;
      ret 0.

End ModeController.

(** ** The acquisition loop *)

Definition dataset_len : Z := 19.   (* 18 data points + timestamp *)
Definition num_buffers : Z := 30.

(** The locals of [Acquire] that live across frames. *)
Record AcquireLocals : Type := {
  buffer : list Z;              (* uint32_t buffer[dataset_len * num_buffers] *)
  previous_timestamp : Z;
  compAngleX : float;
  compAngleY : float;
  accelAngleX : float;
  accelAngleY : float;
  first_run : bool
}.

(** The locals on entry.  Only three of them are initialised; the others
    hold whatever [u] says, and are written before they are read. *)
Definition Acquire_entry (u : AcquireLocals) : AcquireLocals :=
  {| buffer := buffer u;
     previous_timestamp := 0;
     compAngleX := compAngleX u;
     compAngleY := compAngleY u;
     accelAngleX := accelAngleX u;
     accelAngleY := 0%float;
     first_run := true |}.

(** [ReadAutoReceivedData] copies [words] to the start of [buffer], which
    has room for [dataset_len * num_buffers] words and no more. *)
Definition store_words (buffer words : list Z) : outcome (list Z) :=
  if Z.of_nat (length words) <=? dataset_len * num_buffers
  then Ret (words ++ skipn (length words) buffer)
  else OutOfBounds.

Section Acquire.
Context {H : Header} {L : Libm}.

Local Open Scope float_scope.

(** The body of the loop over the data sets, for the data set at [i]. *)
Definition Acquire_frame (fuel : nat) (i : Z) (l : AcquireLocals)
    (d : ADIS16470_IMU) : outcome (AcquireLocals * ADIS16470_IMU) :=
  if negb ((0 <=? i) && (i + dataset_len <=? dataset_len * num_buffers))%Z
  then OutOfBounds
  else
    let buffer := buffer l in
    (* Timestamp is at buffer[i] *)
    let elapsed := uint32_t (idx buffer i - previous_timestamp l) in
    let d := set_m_dt (double_of_uint32 elapsed / 1000000.0) d in
    (* Scale sensor data *)
    let delta_angle :=
      (double_of_int (ToInt buffer (i + 3)) * delta_angle_sf)
      / (500.0 / double_of_uint32 elapsed) in
    let gyro_x := double_of_int (BuffToShort buffer (i + 7)) / 10.0 in
    let gyro_y := double_of_int (BuffToShort buffer (i + 9)) / 10.0 in
    let gyro_z := double_of_int (BuffToShort buffer (i + 11)) / 10.0 in
    let accel_x := double_of_int (BuffToShort buffer (i + 13)) / 800.0 in
    let accel_y := double_of_int (BuffToShort buffer (i + 15)) / 800.0 in
    let accel_z := double_of_int (BuffToShort buffer (i + 17)) / 800.0 in
    (* Convert scaled sensor data to SI units *)
    let gyro_x_si := gyro_x * deg_to_rad in
    let gyro_y_si := gyro_y * deg_to_rad in
    let gyro_z_si := gyro_z * deg_to_rad in
    let accel_x_si := accel_x * grav in
    let accel_y_si := accel_y * grav in
    let accel_z_si := accel_z * grav in
    (* Store timestamp for next iteration *)
    let previous_timestamp := idx buffer i in
    let d := set_m_alpha (m_tau d / (m_tau d + m_dt d)) d in
    let accelAngleX :=
      atan2f accel_x_si (sqrtf (accel_y_si * accel_y_si + accel_z_si * accel_z_si)) in
    let accelAngleY :=
      atan2f accel_y_si (sqrtf (accel_x_si * accel_x_si + accel_z_si * accel_z_si)) in
    do (accelAngleX, accelAngleY, compAngleX, compAngleY) <-
      (if first_run l then
         Ret (accelAngleX, accelAngleY, accelAngleX, accelAngleY)
       else
         let accelAngleX := FormatAccelRange accelAngleX accel_z_si in
         let accelAngleY := FormatAccelRange accelAngleY accel_z_si in
         do compAngleX <-
           CompFilterProcess fuel (m_dt d) (m_alpha d)
             (compAngleX l) accelAngleX (- gyro_y_si) ;;
         do compAngleY <-
           CompFilterProcess fuel (m_dt d) (m_alpha d)
             (compAngleY l) accelAngleY gyro_x_si ;;
         Ret (accelAngleX, accelAngleY, compAngleX, compAngleY)) ;;
    (* Push data to global variables *)
    let g :=
      {| m_integ_angle :=
           if first_run l then 0.0 else m_integ_angle (guarded d) + delta_angle;
         m_gyro_x := gyro_x;
         m_gyro_y := gyro_y;
         m_gyro_z := gyro_z;
         m_accel_x := accel_x;
         m_accel_y := accel_y;
         m_accel_z := accel_z;
         m_compAngleX := compAngleX * rad_to_deg;
         m_compAngleY := compAngleY * rad_to_deg;
         m_accelAngleX := accelAngleX * rad_to_deg;
         m_accelAngleY := accelAngleY * rad_to_deg |} in
    Ret ({| buffer := buffer;
            previous_timestamp := previous_timestamp;
            compAngleX := compAngleX;
            compAngleY := compAngleY;
            accelAngleX := accelAngleX;
            accelAngleY := accelAngleY;
            first_run := false |},
         set_guarded g d).

Local Close Scope float_scope.

(** [for (int i = 0; i < data_to_read; i += dataset_len)], from [i] on.
    [steps] bounds the number of rounds; [decoded] collects the offsets of
    the data sets handled, in order. *)
Fixpoint Acquire_frames (steps fuel : nat) (i data_to_read : Z)
    (l : AcquireLocals) (d : ADIS16470_IMU) (decoded : list Z)
    : outcome (AcquireLocals * ADIS16470_IMU * list Z) :=
  if i <? data_to_read then
    match steps with
    | O => OutOfFuel
    | S steps' =>
        do (l, d) <- Acquire_frame fuel i l d ;;
        Acquire_frames steps' fuel (i + dataset_len) data_to_read l d (decoded ++ [i])
    end
  else Ret (l, d, decoded).

(** One round of [while (!m_freed)], after the sleep. *)
Definition Acquire_poll (fuel : nat) (l : AcquireLocals) (d : ADIS16470_IMU)
    : outcome (AcquireLocals * ADIS16470_IMU * list Z) :=
  let '((data_count, _), b) := spi_ReadAutoReceivedData 0 (bus d) in
  let data_remainder := Z.rem data_count dataset_len in
  let data_to_read := data_count - data_remainder in
  let '((_, words), b) := spi_ReadAutoReceivedData data_to_read b in
  do buffer' <- store_words (buffer l) words ;;
  let l := {| buffer := buffer';
              previous_timestamp := previous_timestamp l;
              compAngleX := compAngleX l;
              compAngleY := compAngleY l;
              accelAngleX := accelAngleX l;
              accelAngleY := accelAngleY l;
              first_run := first_run l |} in
  Acquire_frames (Z.to_nat data_to_read) fuel 0 data_to_read l (set_bus b d) [].

(** The rounds of the loop; [arrivals] gives the words streamed in before
    each poll, for as many rounds as the thread makes. *)
Fixpoint Acquire_loop (fuel : nat) (arrivals : list (list Z))
    (l : AcquireLocals) (d : ADIS16470_IMU)
    : outcome (AcquireLocals * ADIS16470_IMU * list (list Z)) :=
  match arrivals with
  | [] => Ret (l, d, [])
  | ws :: rest =>
      if m_freed d then Ret (l, d, [])
      else
        do (l, d, decoded) <- Acquire_poll fuel l (set_bus (arrive ws (bus d)) d) ;;
        do (l, d, more) <- Acquire_loop fuel rest l d ;;
        Ret (l, d, decoded :: more)
  end.

Definition Acquire (fuel : nat) (arrivals : list (list Z)) (u : AcquireLocals)
    (d : ADIS16470_IMU) : outcome (AcquireLocals * ADIS16470_IMU * list (list Z)) :=
  Acquire_loop fuel arrivals (Acquire_entry u) d.

End Acquire.

(** *** The values of the loop body's locals, read off a frame *)

Section FrameValues.
Context {H : Header} {L : Libm}.

Local Open Scope float_scope.

(** [buffer[i] - previous_timestamp], a [uint32_t]. *)
Definition elapsed (l : AcquireLocals) (i : Z) : Z :=
  uint32_t (idx (buffer l) i - previous_timestamp l).

(** [delta_angle]. *)
Definition delta_angle (l : AcquireLocals) (i : Z) : float :=
  (double_of_int (ToInt (buffer l) (i + 3)) * delta_angle_sf)
  / (500.0 / double_of_uint32 (elapsed l i)).

(** [gyro_x_si], [gyro_y_si], [gyro_z_si] for [k] = 7, 9, 11. *)
Definition gyro_si (l : AcquireLocals) (i k : Z) : float :=
  double_of_int (BuffToShort (buffer l) (i + k)) / 10.0 * deg_to_rad.

(** [accel_x_si], [accel_y_si], [accel_z_si] for [k] = 13, 15, 17. *)
Definition accel_si (l : AcquireLocals) (i k : Z) : float :=
  double_of_int (BuffToShort (buffer l) (i + k)) / 800.0 * grav.

(** [accelAngleX] and [accelAngleY] as [atan2f] returns them. *)
Definition raw_accelAngleX (l : AcquireLocals) (i : Z) : float :=
  atan2f (accel_si l i 13)
    (sqrtf (accel_si l i 15 * accel_si l i 15 + accel_si l i 17 * accel_si l i 17)).

Definition raw_accelAngleY (l : AcquireLocals) (i : Z) : float :=
  atan2f (accel_si l i 15)
    (sqrtf (accel_si l i 13 * accel_si l i 13 + accel_si l i 17 * accel_si l i 17)).

(** The members the frame body sets before it filters. *)
Definition timed (l : AcquireLocals) (i : Z) (d : ADIS16470_IMU) : ADIS16470_IMU :=
  let dt := double_of_uint32 (elapsed l i) / 1000000.0 in
  set_m_alpha (m_tau d / (m_tau d + dt)) (set_m_dt dt d).

Local Close Scope float_scope.

End FrameValues.

(** *** The frame layout in the words of the specification *)

(** The big-endian signed 32-bit join of four bytes. *)
Definition int32_of_bytes (b0 b1 b2 b3 : Z) : Z :=
  let u := b0 * 2 ^ 24 + b1 * 2 ^ 16 + b2 * 2 ^ 8 + b3 in
  if u <? 2 ^ 31 then u else u - 2 ^ 32.

(** [deltaAngleRaw * scaleFactor / (referenceRate / (timestamp -
    previousTimestamp))], with the reference rate 500. *)
Definition spec_scaled_delta_angle {H : Header}
    (deltaAngleRaw timestamp previousTimestamp : Z) : float :=
  (double_of_int deltaAngleRaw * delta_angle_sf
   / (500.0 / double_of_uint32 (timestamp - previousTimestamp)))%float.

(** [(timestamp - previousTimestamp) / 1e6]. *)
Definition spec_dt (timestamp previousTimestamp : Z) : float :=
  (double_of_uint32 (timestamp - previousTimestamp) / 1000000.0)%float.

(** *** Notions the properties are stated with *)

(** What the proofs need to know of a 7-bit address [a]. *)
Definition address_facts (a : Z) : bool :=
  (uint8_t a =? a) &&
  (uint8_t (Z.lor 0x80 a) =? 128 + a) &&
  (uint8_t (Z.lor 0x81 a) =? (if Z.even a then 129 + a else 128 + a)) &&
  (uint8_t (Z.land a 0x7f) =? a) &&
  (Z.land a 0x7f =? a) &&
  (Z.lor 0x80 a =? 128 + a) &&
  (Z.lor 0x81 a =? (if Z.even a then 129 + a else 128 + a)) &&
  (if Z.even a then Z.lor 0x80 (a + 1) =? 129 + a else true) &&
  Z.testbit (128 + a) 7 &&
  negb (Z.testbit a 7) &&
  (Z.land (128 + a) 0x7f =? a).

(** The registers of the device: 16 bits at an even 7-bit address. *)
Definition valid_register (addr : Z) : bool :=
  (0 <=? addr) && (addr <? 128) && Z.even addr.

(** The offsets of [k] data sets from [i] on. *)
Definition offsets (i : Z) (k : nat) : list Z :=
  map (fun j => i + dataset_len * Z.of_nat j) (seq 0 k).

(** *** The mode switches, as a mock transport sees them *)

(** The calls [SwitchToStandardSPI] makes on the handle it opens. *)
Definition standard_setup {H : Header} : list SpiCall :=
  [NewSPI; SetClockRate 2000000; SetMSBFirst; SetSampleDataOnTrailingEdge;
   SetClockActiveLow; SetChipSelectActiveLow;
   Write [PROD_ID; 0]; Read false 2; Write [PROD_ID; 0]; Read false 2].

(** The calls [SwitchToAutoSPI] makes to start streaming. *)
Definition auto_setup (yaw_axis : IMUAxis) : list SpiCall :=
  [InitAuto 8200; SetAutoTransmitData (auto_packet yaw_axis) 2;
   ConfigureAutoStall 5 1000 1; StartAutoTrigger true false].

(** The object [SwitchToAutoSPI] leaves when it finds a handle open. *)
Definition streaming (d : ADIS16470_IMU) : ADIS16470_IMU :=
  {| m_yaw_axis := m_yaw_axis d;
     m_calibration_time := m_calibration_time d;
     m_freed := false;
     m_spi := m_spi d;
     m_auto_interrupt := true;
     m_acquire_task := if m_freed d then true else m_acquire_task d;
     bus := {| wire := wire (bus d) ++ auto_setup (m_yaw_axis d);
               regs := regs (bus d);
               request := request (bus d);
               fifo := fifo (bus d) |};
     reports := reports d;
     m_dt := m_dt d;
     m_alpha := m_alpha d;
     m_tau := m_tau d;
     guarded := set_m_integ_angle 0%float (guarded d) |}.

(** The 16-bit number the simulated device holds at address [a]. *)
Definition register16 (b : SimBus) (a : Z) : Z :=
  ToUShort [regs b (a + 1); regs b a].

(** The device answers with one of the two product IDs of the chip. *)
Definition device_found {H : Header} (b : SimBus) : bool :=
  (register16 b PROD_ID =? 16982) || (register16 b PROD_ID =? 16470).

(** A call that changes a register of the device: a write whose address
    byte has the write bit. *)
Definition is_register_write (c : SpiCall) : bool :=
  match c with
  | Write data => Z.testbit (idx data 0) 7
  | _ => false
  end.

(** A call of auto (streaming) mode. *)
Definition is_auto_call (c : SpiCall) : bool :=
  match c with
  | InitAuto _ | SetAutoTransmitData _ _ | ConfigureAutoStall _ _ _
  | StartAutoTrigger _ _ | ReadAutoReceivedData _ => true
  | _ => false
  end.

(** *** The polls, as a mock transport sees them *)

(** [data_to_read] of a poll that finds [b]: the words buffered, less the
    incomplete data set at the end. *)
Definition data_to_read (b : SimBus) : Z :=
  let data_count := Z.of_nat (length (fifo b)) in
  let data_remainder := Z.rem data_count dataset_len in
  data_count - data_remainder.

(** *** The data sets as a stream *)

(** The locals with another buffer. *)
Definition with_buffer (b : list Z) (l : AcquireLocals) : AcquireLocals :=
  {| buffer := b;
     previous_timestamp := previous_timestamp l;
     compAngleX := compAngleX l;
     compAngleY := compAngleY l;
     accelAngleX := accelAngleX l;
     accelAngleY := accelAngleY l;
     first_run := first_run l |}.

Definition omap {A B : Type} (f : A -> B) (o : outcome A) : outcome B :=
  match o with
  | Ret a => Ret (f a)
  | OutOfFuel => OutOfFuel
  | OutOfBounds => OutOfBounds
  end.

Section Stream.
Context {H : Header} {L : Libm}.

(** The frame body on the first [n] data sets of [words], one after the
    other, each at the start of a buffer of its own.  The polls are
    compared with this. *)
Fixpoint Acquire_stream (fuel n : nat) (words : list Z) (l : AcquireLocals)
    (d : ADIS16470_IMU) : outcome (AcquireLocals * ADIS16470_IMU) :=
  match n with
  | O => Ret (with_buffer [] l, d)
  | S n' =>
      do (l', d') <-
        Acquire_frame fuel 0 (with_buffer (firstn 19 words) l) d ;;
      Acquire_stream fuel n' (skipn 19 words) l' d'
  end.

End Stream.

(** ** Sample data *)

(** Sample values for the constants of the header; the theorems below hold
    for every [Header]. *)
#[local] Set Warnings "-inexact-float".
Definition sample_header : Header :=
  {| delta_angle_sf := (2160.0 / 2147483648.0)%float;
     rad_to_deg := 57.2957795%float;
     deg_to_rad := 0.0174532%float;
     grav := 9.81%float;
     PROD_ID := 0x72;
     NULL_CNFG := 0x66;
     GLOB_CMD := 0x68 |}.
#[local] Set Warnings "inexact-float".

(** Rounding of a [double] to [float] (binary32), in the specification
    format of the Standard Library. *)
Definition to_binary32 (x : float) : spec_float :=
  match Prim2SF x with
  | S754_finite s m e => binary_normalize 24 128 (cond_Zopp s (Zpos m)) e s
  | sf => sf
  end.

(** [sqrtf]: the correctly rounded binary32 square root. *)
Definition sample_sqrtf (x : float) : float :=
  SF2Prim (SFsqrt 24 128 (to_binary32 x)).

(** [atan2f] where its value is known exactly: [atan2f(+-0, x)] is [+-0]
    for [x > 0] (C, Annex F).  Elsewhere this sample answers NaN. *)
Definition sample_atan2f (y x : float) : float :=
  if PrimFloat.eqb y 0 && PrimFloat.ltb 0 x then y else PrimFloat.nan.

Definition sample_libm : Libm :=
  {| atan2f := sample_atan2f; sqrtf := sample_sqrtf |}.

(** A device whose registers hold [0x4056] (16470) at [PROD_ID = 0x72]. *)
Definition sample_regs (a : Z) : Z :=
  if a =? 0x72 then 0x56 else if a =? 0x73 then 0x40 else 0.

Definition sample_bus : SimBus :=
  {| wire := []; regs := sample_regs; request := 0; fifo := [] |}.

Definition sample_readings : Readings :=
  {| m_integ_angle := 7%float;
     m_gyro_x := 1%float; m_gyro_y := 2%float; m_gyro_z := 3%float;
     m_accel_x := 4%float; m_accel_y := 5%float; m_accel_z := 6%float;
     m_compAngleX := 8%float; m_compAngleY := 9%float;
     m_accelAngleX := 10%float; m_accelAngleY := 11%float |}.

(** A driver in auto mode: yaw about Z, calibration time code 7. *)
Definition sample_imu : ADIS16470_IMU :=
  {| m_yaw_axis := kZ;
     m_calibration_time := 7;
     m_freed := false;
     m_spi := true;
     m_auto_interrupt := true;
     m_acquire_task := true;
     bus := sample_bus;
     reports := [];
     m_dt := 0%float;
     m_alpha := 0%float;
     m_tau := 0.5%float;
     guarded := sample_readings |}.

(** The same driver on a bus with no device: every register reads 0. *)
Definition absent_imu : ADIS16470_IMU :=
  set_bus {| wire := []; regs := fun _ => 0; request := 0; fifo := [] |} sample_imu.

Definition sample_locals : AcquireLocals :=
  {| buffer := [];
     previous_timestamp := 12345;
     compAngleX := 1%float;
     compAngleY := 2%float;
     accelAngleX := 3%float;
     accelAngleY := 4%float;
     first_run := false |}.

(** Frames: timestamp, two words to disregard, four bytes of delta angle,
    gyro X, Y, Z and accel X, Y, Z, two bytes each. *)
Definition frame_a : list Z :=
  [1000; 0; 0;  0; 1; 0; 0;  0; 100;  0; 50;  0; 0;  0; 0;  0; 0;  3; 32].
Definition frame_b : list Z :=
  [1500; 0; 0;  0; 2; 0; 0;  0; 100;  0; 50;  0; 0;  0; 0;  0; 0;  3; 32].
(** A frame with the device upside down: accel Z is -800 (-1 g). *)
Definition frame_down : list Z :=
  [2000; 0; 0;  255; 255; 0; 0;  0; 0;  0; 0;  0; 0;  0; 0;  0; 0;  252; 224].

(** The result of code that is known to return. *)
Definition ret_or {A : Type} (default : A) (o : outcome A) : A :=
  match o with
  | Ret a => a
  | _ => default
  end.

(** The locals on entry, with the given words drained into the buffer. *)
Definition entry_with (words : list Z) : AcquireLocals :=
  {| buffer := words;
     previous_timestamp := previous_timestamp (Acquire_entry sample_locals);
     compAngleX := compAngleX (Acquire_entry sample_locals);
     compAngleY := compAngleY (Acquire_entry sample_locals);
     accelAngleX := accelAngleX (Acquire_entry sample_locals);
     accelAngleY := accelAngleY (Acquire_entry sample_locals);
     first_run := first_run (Acquire_entry sample_locals) |}.

(** The frame body on the sample driver, state to state. *)
Definition sample_frame (i : Z) (s : AcquireLocals * ADIS16470_IMU)
    : outcome (AcquireLocals * ADIS16470_IMU) :=
  @Acquire_frame sample_header sample_libm 10 i (fst s) (snd s).

(** Two level frames, one poll. *)
Definition level0 : AcquireLocals * ADIS16470_IMU :=
  (entry_with (frame_a ++ frame_b), sample_imu).
Definition level1 : AcquireLocals * ADIS16470_IMU :=
  ret_or level0 (sample_frame 0 level0).
Definition level2 : AcquireLocals * ADIS16470_IMU :=
  ret_or level1 (sample_frame 19 level1).

(** The same two frames through the loop: one poll finds both. *)
Definition level_poll : AcquireLocals * ADIS16470_IMU * list (list Z) :=
  ret_or (fst level0, snd level0, [])
    (@Acquire sample_header sample_libm 10 [frame_a ++ frame_b]
       sample_locals sample_imu).

(** A level frame, then the device upside down. *)
Definition turned0 : AcquireLocals * ADIS16470_IMU :=
  (entry_with (frame_a ++ frame_down), sample_imu).
Definition turned1 : AcquireLocals * ADIS16470_IMU :=
  ret_or turned0 (sample_frame 0 turned0).
Definition turned2 : AcquireLocals * ADIS16470_IMU :=
  ret_or turned1 (sample_frame 19 turned1).

(** The device upside down from the first frame on. *)
Definition down0 : AcquireLocals * ADIS16470_IMU :=
  (entry_with frame_down, sample_imu).
Definition down1 : AcquireLocals * ADIS16470_IMU :=
  ret_or down0 (sample_frame 0 down0).

(** The sample driver with 589 words (31 data sets) waiting in the
    transport. *)
Definition overfull_imu : ADIS16470_IMU :=
  set_bus (arrive (repeat 0 589) (bus sample_imu)) sample_imu.

(** A driver whose constructor did not find the device: the handle is
    open, auto SPI was never started, no thread runs. *)
Definition unfound_imu : ADIS16470_IMU :=
  set_m_auto_interrupt false (set_m_acquire_task false (set_m_freed true absent_imu)).

(** The sample driver with no handle open, on the bus with no device. *)
Definition closed_imu : ADIS16470_IMU := set_m_spi false absent_imu.

(** The sample driver with one data set and two words of the next waiting
    in the transport, and the poll that finds them. *)
Definition partial_imu : ADIS16470_IMU :=
  set_bus (arrive (frame_a ++ firstn 2 frame_b) (bus sample_imu)) sample_imu.
Definition partial_poll : AcquireLocals * ADIS16470_IMU * list Z :=
  ret_or (Acquire_entry sample_locals, partial_imu, [])
    (@Acquire_poll sample_header sample_libm 10
       (Acquire_entry sample_locals) partial_imu).

(** After a level frame, with the X complementary angle lost to a NaN. *)
Definition lost1 : AcquireLocals * ADIS16470_IMU :=
  ({| buffer := buffer (fst level1);
      previous_timestamp := previous_timestamp (fst level1);
      compAngleX := PrimFloat.nan;
      compAngleY := compAngleY (fst level1);
      accelAngleX := accelAngleX (fst level1);
      accelAngleY := accelAngleY (fst level1);
      first_run := first_run (fst level1) |},
   snd level1).
Definition lost2 : AcquireLocals * ADIS16470_IMU :=
  ret_or lost1 (sample_frame 19 lost1).

(** The two level frames again, the second one arriving in two pieces. *)
Definition split_polls : AcquireLocals * ADIS16470_IMU * list (list Z) :=
  ret_or (fst level0, snd level0, [])
    (@Acquire sample_header sample_libm 10
       [frame_a ++ firstn 2 frame_b; skipn 2 frame_b] sample_locals sample_imu).

(** * Properties *)

(** ** Bytes and words *)

Lemma land_shiftl_low (hi lo n : Z) :
  0 <= n -> 0 <= lo < 2 ^ n -> Z.land (Z.shiftl hi n) lo = 0.
Proof.
  intros Hn Hlo. apply Z.bits_inj'. intros k Hk.
  rewrite Z.land_spec, Z.bits_0.
  destruct (Z.lt_ge_cases k n) as [Hlt | Hge].
  - rewrite Z.shiftl_spec_low by assumption. reflexivity.
  - rewrite <- (Z.mod_small lo (2 ^ n)) by assumption.
    rewrite Z.mod_pow2_bits_high by lia. apply andb_false_r.
Qed.

(** Or-ing a value below [2^n] under a value shifted by [n] adds them. *)
Lemma lor_shiftl_low (hi lo n : Z) :
  0 <= n -> 0 <= lo < 2 ^ n -> Z.lor (Z.shiftl hi n) lo = hi * 2 ^ n + lo.
Proof.
  intros Hn Hlo.
  rewrite <- Z.lxor_lor by (apply land_shiftl_low; assumption).
  rewrite <- Z.add_nocarry_lxor by (apply land_shiftl_low; assumption).
  rewrite Z.shiftl_mul_pow2 by assumption. reflexivity.
Qed.

Lemma idx_0 (x : Z) (l : list Z) : idx (x :: l) 0 = x.
Proof. reflexivity. Qed.

Lemma idx_1 (x y : Z) (l : list Z) : idx (x :: y :: l) 1 = y.
Proof. reflexivity. Qed.

Lemma ToUShort_bytes (hi lo : Z) :
  0 <= hi < 256 -> 0 <= lo < 256 -> ToUShort [hi; lo] = hi * 256 + lo.
Proof.
  intros Hhi Hlo. unfold ToUShort. rewrite idx_0, idx_1.
  unfold uint16_t, wrap.
  rewrite (Z.mod_small hi) by lia.
  rewrite (lor_shiftl_low hi lo 8) by lia.
  apply Z.mod_small. change (2 ^ 8) with 256. change (2 ^ 16) with 65536. lia.
Qed.

Lemma low_byte (v : Z) : uint8_t (Z.land v 0xff) = v mod 256.
Proof.
  unfold uint8_t, wrap. change 0xff with (Z.ones 8).
  rewrite Z.land_ones by lia. apply Z.mod_mod. discriminate.
Qed.

Lemma high_byte (v : Z) : 0 <= v < 65536 -> uint8_t (Z.shiftr v 8) = v / 256.
Proof.
  intros Hv. unfold uint8_t, wrap. rewrite Z.shiftr_div_pow2 by lia.
  change (2 ^ 8) with 256. apply Z.mod_small.
  split; [apply Z.div_pos; lia | apply Z.div_lt_upper_bound; lia].
Qed.

(** A property of the 7-bit addresses is checked on all 128 of them. *)
Lemma forall_7bit (P : Z -> bool) :
  forallb P (map Z.of_nat (seq 0 128)) = true ->
  forall a, 0 <= a < 128 -> P a = true.
Proof.
  intros Hall a Ha. rewrite forallb_forall in Hall. apply Hall.
  apply in_map_iff. exists (Z.to_nat a). split; [lia |].
  apply in_seq. lia.
Qed.

Lemma address_facts_hold (a : Z) : 0 <= a < 128 -> address_facts a = true.
Proof. apply forall_7bit. vm_compute. reflexivity. Qed.

Ltac address_facts a Ha :=
  let F := fresh "F" in
  pose proof (address_facts_hold a Ha) as F;
  unfold address_facts in F;
  repeat (apply andb_prop in F; destruct F as [F ?]);
  repeat match goal with
         | E : (_ =? _) = true |- _ => apply Z.eqb_eq in E
         end.

(** ** Register transport *)

Lemma spi_Write_store (a v : Z) (b : SimBus) :
  0 <= a < 128 ->
  spi_Write [128 + a; v] b =
    {| wire := wire b ++ [Write [128 + a; v]];
       regs := store_reg a v (regs b);
       request := request b;
       fifo := fifo b |}.
Proof.
  intros Ha. address_facts a Ha.
  unfold spi_Write. rewrite !idx_0, !idx_1.
  match goal with E : Z.testbit (128 + a) 7 = true |- _ => rewrite E end.
  match goal with E : Z.land (128 + a) 127 = a |- _ => rewrite E end.
  reflexivity.
Qed.

Lemma spi_Write_request (a : Z) (b : SimBus) :
  0 <= a < 128 ->
  spi_Write [a; 0] b =
    {| wire := wire b ++ [Write [a; 0]];
       regs := regs b;
       request := a;
       fifo := fifo b |}.
Proof.
  intros Ha. address_facts a Ha.
  unfold spi_Write. rewrite !idx_0, !idx_1.
  match goal with E : negb (Z.testbit a 7) = true |- _ =>
    apply negb_true_iff in E; rewrite E end.
  reflexivity.
Qed.

(** What [WriteRegister] does to the object, for a 7-bit address: two
    writes on the bus, and nothing else. *)
Lemma WriteRegister_effect (d : ADIS16470_IMU) (addr v : Z) :
  0 <= addr < 128 -> 0 <= v < 65536 ->
  WriteRegister addr v d =
    (tt, set_bus (spi_Write [Z.lor 0x81 addr; v / 256]
                    (spi_Write [Z.lor 0x80 addr; v mod 256] (bus d))) d).
Proof.
  intros Ha Hv. address_facts addr Ha.
  unfold WriteRegister, bind, spi_write, modify.
  replace (uint8_t addr) with addr by congruence.
  replace (uint16_t v) with v
    by (unfold uint16_t, wrap; rewrite Z.mod_small; [reflexivity | exact Hv]).
  rewrite low_byte, high_byte by exact Hv.
  replace (uint8_t (Z.lor 128 addr)) with (Z.lor 128 addr) by congruence.
  replace (uint8_t (Z.lor 129 addr)) with (Z.lor 129 addr) by congruence.
  destruct d; reflexivity.
Qed.

Lemma wire_spi_Write (data : list Z) (b : SimBus) :
  wire (spi_Write data b) = wire b ++ [Write data].
Proof. unfold spi_Write. destruct (Z.testbit _ 7); reflexivity. Qed.

Lemma valid_register_inv (addr : Z) :
  valid_register addr = true -> 0 <= addr < 128 /\ Z.even addr = true.
Proof.
  unfold valid_register. intros Hv.
  apply andb_prop in Hv. destruct Hv as [Hv He].
  apply andb_prop in Hv. destruct Hv as [Hlo Hhi].
  apply Z.leb_le in Hlo. apply Z.ltb_lt in Hhi. auto.
Qed.

(** C4, as amended: for every 7-bit address [addr] and 16-bit value [v],
    [WriteRegister] issues exactly two 2-byte writes, the low byte of [v]
    under the address byte [0x80 | addr], then the high byte of [v] under
    the address byte [0x81 | addr]; that second byte is [0x80 | (addr + 1)]
    when [addr] is even. *)
Theorem WriteRegister_two_writes (d : ADIS16470_IMU) (addr v : Z) :
  0 <= addr < 128 -> 0 <= v < 65536 ->
  wire (bus (snd (WriteRegister addr v d))) =
    wire (bus d) ++ [Write [Z.lor 0x80 addr; v mod 256];
                     Write [Z.lor 0x81 addr; v / 256]]
  /\ (Z.even addr = true -> Z.lor 0x81 addr = Z.lor 0x80 (addr + 1)).
Proof.
  intros Ha Hv. split.
  - rewrite WriteRegister_effect by assumption.
    cbn [snd]. unfold set_bus. cbn [bus].
    rewrite !wire_spi_Write, <- app_assoc. reflexivity.
  - intros He. address_facts addr Ha.
    rewrite He in *.
    match goal with E : (_ =? _) = true |- _ => apply Z.eqb_eq in E end.
    congruence.
Qed.

(** C5: over the simulated transport, writing a 16-bit value to a valid
    register and reading the register back returns the value; the read
    sends the request [{addr & 0x7F, 0x00}] and then reads two bytes. *)
Theorem WriteRegister_ReadRegister_roundtrip (d : ADIS16470_IMU) (addr v : Z) :
  valid_register addr = true -> 0 <= v < 65536 ->
  fst (ReadRegister addr (snd (WriteRegister addr v d))) = v
  /\ wire (bus (snd (ReadRegister addr (snd (WriteRegister addr v d))))) =
       wire (bus (snd (WriteRegister addr v d)))
         ++ [Write [Z.land addr 0x7f; 0]; Read false 2].
Proof.
  intros Hvalid Hv.
  destruct (valid_register_inv addr Hvalid) as [Ha He].
  address_facts addr Ha. rewrite He in *.
  rewrite WriteRegister_effect by assumption.
  replace (Z.lor 129 addr) with (128 + (addr + 1)) by lia.
  replace (Z.lor 128 addr) with (128 + addr) by lia.
  assert (Ha1 : 0 <= addr + 1 < 128).
  { split; [lia |]. destruct (Z.eq_dec addr 127) as [E | E]; [| lia].
    subst addr. discriminate He. }
  rewrite (spi_Write_store addr) by assumption.
  rewrite (spi_Write_store (addr + 1)) by assumption.
  unfold ReadRegister, bind, spi_write, spi_read, modify, ret, spi_Read.
  replace (uint8_t addr) with addr by congruence.
  replace (uint8_t (Z.land addr 127)) with addr by congruence.
  replace (Z.land addr 127) with addr by congruence.
  cbn [snd fst set_bus bus].
  rewrite (spi_Write_request addr) by assumption.
  cbn [snd fst set_bus bus regs request wire logged].
  split.
  - unfold store_reg.
    rewrite Z.eqb_refl.
    replace (addr =? addr + 1) with false by (symmetry; apply Z.eqb_neq; lia).
    rewrite Z.eqb_refl.
    rewrite ToUShort_bytes.
    + pose proof (Z.div_mod v 256). lia.
    + split; [apply Z.div_pos; lia | apply Z.div_lt_upper_bound; lia].
    + apply Z.mod_pos_bound. lia.
  - rewrite <- app_assoc. reflexivity.
Qed.

(** ** Configuration changes *)

Lemma IMUAxis_eqb_eq (a b : IMUAxis) : IMUAxis_eqb a b = true <-> a = b.
Proof. destruct a, b; simpl; split; intros E; try discriminate; reflexivity. Qed.

Section ModeControllerFacts.
Context {H : Header}.

(** C9: [SetYawAxis] with the current axis, and [ConfigCalTime] with the
    current calibration time, return 1 (no change) and leave the object as
    it was, bus and log of transport calls included: nothing is written and
    no mode is switched.  With another value, when [SwitchToStandardSPI]
    fails, they return 2 (failure) in the state that attempt left. *)
Theorem SetYawAxis_ConfigCalTime_codes
    (d : ADIS16470_IMU) (yaw_axis : IMUAxis) (new_cal_time : Z) :
  (yaw_axis = m_yaw_axis d -> SetYawAxis yaw_axis d = (1, d))
  /\ (yaw_axis <> m_yaw_axis d -> fst (SwitchToStandardSPI d) = false ->
      SetYawAxis yaw_axis d = (2, snd (SwitchToStandardSPI d)))
  /\ (uint16_t new_cal_time = m_calibration_time d ->
      ConfigCalTime new_cal_time d = (1, d))
  /\ (uint16_t new_cal_time <> m_calibration_time d ->
      fst (SwitchToStandardSPI d) = false ->
      ConfigCalTime new_cal_time d = (2, snd (SwitchToStandardSPI d))).
Proof.
  unfold SetYawAxis, ConfigCalTime, bind, get, ret.
  repeat split.
  - intros ->.
    replace (IMUAxis_eqb _ _) with true
      by (symmetry; apply IMUAxis_eqb_eq; reflexivity).
    reflexivity.
  - intros Hne Hfail.
    destruct (IMUAxis_eqb (m_yaw_axis d) yaw_axis) eqn:E.
    + apply IMUAxis_eqb_eq in E. congruence.
    + destruct (SwitchToStandardSPI d) as [ok d']. simpl in Hfail. subst ok.
      reflexivity.
  - intros <-. rewrite Z.eqb_refl. reflexivity.
  - intros Hne Hfail.
    destruct (m_calibration_time d =? uint16_t new_cal_time) eqn:E.
    + apply Z.eqb_eq in E. congruence.
    + destruct (SwitchToStandardSPI d) as [ok d']. simpl in Hfail. subst ok.
      reflexivity.
Qed.

End ModeControllerFacts.

(** ** [Reset] *)

(** C10: [Reset] sets the integrated angle to 0.0 and leaves the other
    members behind the mutex as they were: the instantaneous gyro and
    accel values, the complementary angles and the accel angles, as the
    accessors return them. *)
Theorem Reset_zeroes_only_integ_angle (d : ADIS16470_IMU) :
  GetAngle (snd (Reset d)) = 0%float
  /\ GetGyroInstantX (snd (Reset d)) = GetGyroInstantX d
  /\ GetGyroInstantY (snd (Reset d)) = GetGyroInstantY d
  /\ GetGyroInstantZ (snd (Reset d)) = GetGyroInstantZ d
  /\ GetAccelInstantX (snd (Reset d)) = GetAccelInstantX d
  /\ GetAccelInstantY (snd (Reset d)) = GetAccelInstantY d
  /\ GetAccelInstantZ (snd (Reset d)) = GetAccelInstantZ d
  /\ GetXComplementaryAngle (snd (Reset d)) = GetXComplementaryAngle d
  /\ GetYComplementaryAngle (snd (Reset d)) = GetYComplementaryAngle d
  /\ GetXFilteredAccelAngle (snd (Reset d)) = GetXFilteredAccelAngle d
  /\ GetYFilteredAccelAngle (snd (Reset d)) = GetYFilteredAccelAngle d
  /\ set_guarded (guarded d) (snd (Reset d)) = d.
Proof.
  unfold Reset, modify. cbn [snd].
  unfold GetAngle, GetGyroInstantX, GetGyroInstantY, GetGyroInstantZ,
    GetAccelInstantX, GetAccelInstantY, GetAccelInstantZ,
    GetXComplementaryAngle, GetYComplementaryAngle,
    GetXFilteredAccelAngle, GetYFilteredAccelAngle.
  unfold set_guarded, set_m_integ_angle. cbn [guarded].
  repeat split. destruct d; reflexivity.
Qed.

(** ** Doubles as scaled integers

    The operations of binary64 on [F2Z]: a sum or a difference of finite
    doubles is the exact one rounded by [round53], a comparison is the
    comparison of the integers.  The Standard Library specifies the
    primitive operations by its functions on [spec_float]; the lemmas below
    work those functions out. *)

(** Powers of 2 with an exponent that is not a numeral, hidden from [lia]. *)
Ltac gen_pows :=
  repeat match goal with
  | |- context [Z.pow 2 ?t] =>
      let p := fresh "p" in set (p := Z.pow 2 t) in *; clearbody p
  | H : context [Z.pow 2 ?t] |- _ =>
      let p := fresh "p" in set (p := Z.pow 2 t) in *; clearbody p
  end.

(** *** Binary digits *)

Lemma digits2_pos_bounds (m : positive) :
  2 ^ (Zpos (digits2_pos m) - 1) <= Zpos m < 2 ^ Zpos (digits2_pos m).
Proof.
  induction m as [m IH | m IH |]; cbn [digits2_pos].
  - rewrite Pos2Z.inj_succ. change (Z.pos m~1) with (2 * Z.pos m + 1).
    replace (Z.succ (Zpos (digits2_pos m)) - 1) with (Z.succ (Zpos (digits2_pos m) - 1)) by lia.
    rewrite !Z.pow_succ_r by lia.
    set (a := 2 ^ (Z.pos (digits2_pos m) - 1)) in *.
    set (b := 2 ^ Z.pos (digits2_pos m)) in *. clearbody a b. lia.
  - rewrite Pos2Z.inj_succ. change (Z.pos m~0) with (2 * Z.pos m).
    replace (Z.succ (Zpos (digits2_pos m)) - 1) with (Z.succ (Zpos (digits2_pos m) - 1)) by lia.
    rewrite !Z.pow_succ_r by lia.
    set (a := 2 ^ (Z.pos (digits2_pos m) - 1)) in *.
    set (b := 2 ^ Z.pos (digits2_pos m)) in *. clearbody a b. lia.
  - cbn. lia.
Qed.

Lemma digits2_pos_log2 (m : positive) :
  Zpos (digits2_pos m) = Z.log2 (Zpos m) + 1.
Proof.
  pose proof (digits2_pos_bounds m) as Hb.
  assert (H : Z.log2 (Zpos m) = Zpos (digits2_pos m) - 1).
  { apply Z.log2_unique; [lia |].
    replace (Z.succ (Zpos (digits2_pos m) - 1)) with (Zpos (digits2_pos m)) by lia.
    exact Hb. }
  lia.
Qed.

Lemma log2_bounds (V : Z) : 0 < V -> 2 ^ Z.log2 V <= V < 2 ^ (Z.log2 V + 1).
Proof. intros H. pose proof (Z.log2_spec V H). replace (Z.log2 V + 1) with (Z.succ (Z.log2 V)) by lia. exact H0. Qed.

Lemma log2_lt_pow2 (V j : Z) : 0 < V -> V < 2 ^ j -> Z.log2 V < j.
Proof. intros HV H. apply Z.log2_lt_pow2; assumption. Qed.

(** *** Valid finite doubles *)

(** A valid finite double has at most 53 digits, and fewer only at the
    least exponent. *)

Lemma valid_finite (s : bool) (m : positive) (e : Z) :
  valid_binary (S754_finite s m e) = true ->
  Z.max (Zpos (digits2_pos m) + e - 53) (-1074) = e /\ e <= 971.
Proof.
  unfold SpecFloat.valid_binary, bounded, canonical_mantissa, fexp, SpecFloat.emin.
  change prec with 53. change emax with 1024.
  intros H. apply andb_prop in H. destruct H as [H1 H2].
  apply Z.eqb_eq in H1. apply Z.leb_le in H2.
  change (3 - 1024 - 53) with (-1074) in H1. change (1024 - 53) with 971 in H2.
  split; assumption.
Qed.

Lemma valid_finite_inv (s : bool) (m : positive) (e : Z) :
  Z.max (Zpos (digits2_pos m) + e - 53) (-1074) = e -> e <= 971 ->
  valid_binary (S754_finite s m e) = true.
Proof.
  intros H1 H2.
  unfold SpecFloat.valid_binary, bounded, canonical_mantissa, fexp, SpecFloat.emin.
  change prec with 53. change emax with 1024.
  change (3 - 1024 - 53) with (-1074). change (1024 - 53) with 971.
  apply andb_true_intro. split; [apply Z.eqb_eq; exact H1 | apply Z.leb_le; exact H2].
Qed.

Lemma pow2_pos (n : Z) : 0 <= n -> 0 < 2 ^ n.
Proof. intros. apply Z.pow_pos_nonneg; lia. Qed.

Lemma canon_lt (m1 m2 : positive) (e1 e2 : Z) :
  Z.max (Zpos (digits2_pos m1) + e1 - 53) (-1074) = e1 ->
  Z.max (Zpos (digits2_pos m2) + e2 - 53) (-1074) = e2 ->
  e1 < e2 ->
  Zpos m1 * 2 ^ (e1 + 1074) < Zpos m2 * 2 ^ (e2 + 1074).
Proof.
  intros H1 H2 Hlt.
  assert (D1 : Zpos (digits2_pos m1) <= 53) by lia.
  assert (D2 : Zpos (digits2_pos m2) = 53) by lia.
  assert (E1 : 0 <= e1 + 1074) by lia.
  assert (M1 : Zpos m1 < 2 ^ 53).
  { eapply Z.lt_le_trans; [apply (digits2_pos_bounds m1) |].
    apply Z.pow_le_mono_r; lia. }
  assert (M2 : 2 ^ 52 <= Zpos m2).
  { pose proof (digits2_pos_bounds m2) as B2. rewrite D2 in B2. apply B2. }
  pose proof (pow2_pos _ E1) as P1.
  assert (P2 : 0 < 2 ^ (e2 - e1 - 1)) by (apply pow2_pos; lia).
  replace (e2 + 1074) with ((e2 - e1 - 1) + 1 + (e1 + 1074)) by lia.
  rewrite (Z.pow_add_r 2 (e2 - e1 - 1 + 1) (e1 + 1074)) by lia.
  rewrite (Z.pow_add_r 2 (e2 - e1 - 1) 1) by lia.
  change (2 ^ 1) with 2. change (2 ^ 53) with (2 * 2 ^ 52) in M1.
  apply Z.lt_le_trans with (2 * 2 ^ 52 * 2 ^ (e1 + 1074)).
  - apply Z.mul_lt_mono_pos_r; assumption.
  - rewrite Z.mul_assoc. apply Z.mul_le_mono_nonneg_r; [lia |].
    gen_pows. nia.
Qed.

(** Comparing finite doubles is comparing their values. *)
Lemma SFcompare_spec (x y : spec_float) :
  valid_binary x = true -> valid_binary y = true ->
  SFfinite x = true -> SFfinite y = true ->
  SFcompare x y = Some (SF2Z x ?= SF2Z y).
Proof.
  intros Vx Vy Fx Fy.
  destruct x as [sx | sx | | sx mx ex]; try discriminate;
  destruct y as [sy | sy | | sy my ey]; try discriminate; cbn [SFcompare SF2Z].
  - reflexivity.
  - apply valid_finite in Vy. destruct Vy as [Vy _].
    assert (0 < Zpos my * 2 ^ (ey + 1074)) by (apply Z.mul_pos_pos; [lia | apply pow2_pos; lia]).
    destruct sy; cbn [cond_Zopp]; f_equal; symmetry.
    + apply Z.compare_gt_iff. lia.
    + apply Z.compare_lt_iff. lia.
  - apply valid_finite in Vx. destruct Vx as [Vx _].
    assert (0 < Zpos mx * 2 ^ (ex + 1074)) by (apply Z.mul_pos_pos; [lia | apply pow2_pos; lia]).
    destruct sx; cbn [cond_Zopp]; f_equal; symmetry.
    + apply Z.compare_lt_iff. lia.
    + apply Z.compare_gt_iff. lia.
  - apply valid_finite in Vx, Vy. destruct Vx as [Vx _]. destruct Vy as [Vy _].
    assert (Px : 0 < Zpos mx * 2 ^ (ex + 1074)) by (apply Z.mul_pos_pos; [lia | apply pow2_pos; lia]).
    assert (Py : 0 < Zpos my * 2 ^ (ey + 1074)) by (apply Z.mul_pos_pos; [lia | apply pow2_pos; lia]).
    assert (Hpos : match ex ?= ey with
                   | Lt => Lt | Gt => Gt | Eq => Pos.compare_cont Eq mx my end
                   = (Zpos mx * 2 ^ (ex + 1074) ?= Zpos my * 2 ^ (ey + 1074))).
    { destruct (Z.compare_spec ex ey) as [E | E | E]; symmetry.
      - subst ey. change (Pos.compare_cont Eq mx my) with (Zpos mx ?= Zpos my).
        assert (0 < 2 ^ (ex + 1074)) by (apply pow2_pos; lia).
        destruct (Z.compare_spec (Zpos mx) (Zpos my)) as [E | E | E].
        + apply Z.compare_eq_iff. rewrite E. reflexivity.
        + apply Z.compare_lt_iff. nia.
        + apply Z.compare_gt_iff. nia.
      - apply Z.compare_lt_iff. apply canon_lt; assumption.
      - apply Z.compare_gt_iff. apply canon_lt; assumption. }
    destruct sx, sy; cbn [cond_Zopp]; f_equal.
    + (* both negative *)
      change (Zneg mx) with (- Zpos mx). change (Zneg my) with (- Zpos my).
      rewrite !Z.mul_opp_l.
      set (A := Zpos mx * 2 ^ (ex + 1074)) in *.
      set (B := Zpos my * 2 ^ (ey + 1074)) in *.
      assert (Hneg : (- A ?= - B) = CompOpp (A ?= B)).
      { destruct (Z.compare_spec A B) as [E | E | E]; cbn [CompOpp];
          [apply Z.compare_eq_iff | apply Z.compare_gt_iff | apply Z.compare_lt_iff];
          lia. }
      rewrite Hneg, <- Hpos.
      destruct (ex ?= ey); reflexivity.
    + symmetry. apply Z.compare_lt_iff. change (Zneg mx) with (- Zpos mx). lia.
    + symmetry. apply Z.compare_gt_iff. change (Zneg my) with (- Zpos my). lia.
    + exact Hpos.
Qed.

(** *** Shifting right *)

Lemma iter_pos_nat {A : Type} (f : A -> A) (p : positive) :
  forall x, iter_pos f p x = Nat.iter (Pos.to_nat p) f x.
Proof.
  induction p as [p IH | p IH |]; intros x; cbn [iter_pos].
  - rewrite !IH, Pos2Nat.inj_xI, <- Nat.iter_add, <- Nat.iter_succ_r.
    f_equal. lia.
  - rewrite !IH, Pos2Nat.inj_xO, <- Nat.iter_add. f_equal. lia.
  - reflexivity.
Qed.

Lemma shr_1_nonneg (m : Z) (r s : bool) :
  0 <= m ->
  shr_1 {| shr_m := m; shr_r := r; shr_s := s |}
  = {| shr_m := m / 2; shr_r := Z.odd m; shr_s := r || s |}.
Proof.
  intros Hm. rewrite <- Z.div2_div.
  destruct m as [| p | p]; [reflexivity | | lia].
  destruct p; reflexivity.
Qed.

Lemma odd_mod2 (x : Z) : x mod 2 = if Z.odd x then 1 else 0.
Proof. rewrite Zmod_odd. reflexivity. Qed.

(** [n] shifts to the right leave the quotient by [2^n], the last bit
    shifted out, and whether anything was shifted out before it. *)
Lemma shr_spec_step (M : Z) (n : nat) :
  0 <= M -> shr_1 (shr_spec M n) = shr_spec M (S n).
Proof.
  intros HM. destruct n as [| n]; cbn [shr_spec].
  - rewrite shr_1_nonneg by exact HM. cbn [orb].
    change (Z.of_nat 1) with 1. change (Z.of_nat 0) with 0.
    change (2 ^ 1) with 2. change (2 ^ 0) with 1.
    rewrite Z.div_1_r, Z.mod_1_r. reflexivity.
  - assert (Hp : 0 < 2 ^ Z.of_nat n) by (apply pow2_pos; lia).
    rewrite shr_1_nonneg by (apply Z.div_pos; [exact HM | apply pow2_pos; lia]).
    f_equal.
    + rewrite Z.div_div by (try apply Z.neq_sym; try apply Z.lt_neq; try (apply pow2_pos; lia); lia).
      f_equal. rewrite (Nat2Z.inj_succ (S n)), Z.pow_succ_r by lia. lia.
    + rewrite (Nat2Z.inj_succ n), Z.pow_succ_r by lia.
      rewrite (Z.mul_comm 2), Z.rem_mul_r by lia.
      rewrite odd_mod2.
      pose proof (Z.mod_pos_bound M (2 ^ Z.of_nat n) Hp) as Hr.
      destruct (Z.odd (M / 2 ^ Z.of_nat n)); cbn [orb].
      * symmetry. apply negb_true_iff, Z.eqb_neq. lia.
      * rewrite Z.mul_0_r, Z.add_0_r. reflexivity.
Qed.

Lemma shr_iter (M : Z) (n : nat) :
  0 <= M -> Nat.iter n shr_1 (shr_spec M 0) = shr_spec M n.
Proof.
  intros HM. induction n as [| n IH]; [reflexivity |].
  rewrite Nat.iter_succ, IH. apply shr_spec_step. exact HM.
Qed.

(** Rounding what the shifts leave is [rne]. *)
Lemma round_shr_spec (M : Z) (n : nat) :
  0 <= M ->
  round_nearest_even (shr_m (shr_spec M n)) (loc_of_shr_record (shr_spec M n))
  = rne M (Z.of_nat n).
Proof.
  intros HM. unfold rne. destruct n as [| n]; cbn [shr_spec shr_m loc_of_shr_record].
  - change (Z.of_nat 0) with 0. change (2 ^ 0) with 1.
    rewrite Z.div_1_r, Z.mod_1_r. reflexivity.
  - assert (Hp : 0 < 2 ^ Z.of_nat n) by (apply pow2_pos; lia).
    rewrite (Nat2Z.inj_succ n), Z.pow_succ_r by lia.
    rewrite (Z.mul_comm 2 (2 ^ Z.of_nat n)), Z.rem_mul_r by lia.
    rewrite odd_mod2.
    pose proof (Z.mod_pos_bound M (2 ^ Z.of_nat n) Hp) as Hr.
    set (h := 2 ^ Z.of_nat n) in *. set (r := M mod h) in *.
    destruct (Z.odd (M / h)) eqn:Eodd; destruct (Z.eqb_spec r 0) as [E0 | E0];
      cbn [negb round_nearest_even].
    + replace (2 * (r + h * 1) ?= h * 2) with Eq
        by (symmetry; apply Z.compare_eq_iff; lia). reflexivity.
    + replace (2 * (r + h * 1) ?= h * 2) with Gt
        by (symmetry; apply Z.compare_gt_iff; lia). reflexivity.
    + replace (2 * (r + h * 0) ?= h * 2) with Lt
        by (symmetry; apply Z.compare_lt_iff; lia). reflexivity.
    + replace (2 * (r + h * 0) ?= h * 2) with Lt
        by (symmetry; apply Z.compare_lt_iff; lia). reflexivity.
Qed.

(** *** Rounding *)

Lemma Zdigits2_log2 (m : Z) : 0 < m -> Zdigits2 m = Z.log2 m + 1.
Proof.
  intros Hm. destruct m as [| p | p]; try lia.
  cbn [Zdigits2]. apply digits2_pos_log2.
Qed.

Lemma fexp_64 (x : Z) : fexp prec emax x = fexp64 x.
Proof. reflexivity. Qed.

Lemma shr_fexp_spec (m e : Z) :
  0 < m ->
  shr_fexp prec emax m e loc_Exact
  = (shr_spec m (Z.to_nat (fexp64 (Z.log2 m + 1 + e) - e)),
     e + Z.max (fexp64 (Z.log2 m + 1 + e) - e) 0).
Proof.
  intros Hm. unfold shr_fexp. rewrite fexp_64, Zdigits2_log2 by exact Hm.
  set (n := fexp64 (Z.log2 m + 1 + e) - e).
  unfold shr. cbn [shr_record_of_loc].
  destruct n as [| p | p] eqn:En.
  - cbn. rewrite ?Z.add_0_r. try reflexivity.
  - rewrite iter_pos_nat.
    change {| shr_m := m; shr_r := false; shr_s := false |} with (shr_spec m 0).
    rewrite shr_iter by lia.
    rewrite Z2Nat.inj_pos. f_equal; try lia.
  - cbn. rewrite ?Z.add_0_r. try reflexivity.
Qed.

Lemma log2_pow2_range (x j : Z) : 0 <= j -> 2 ^ j <= x < 2 ^ (j + 1) -> Z.log2 x = j.
Proof.
  intros Hj Hx. apply Z.log2_unique; [exact Hj |].
  replace (Z.succ j) with (j + 1) by lia. exact Hx.
Qed.

(** [rne] stays within one of the quotient *)
Lemma rne_cases (M k : Z) :
  rne M k = M / 2 ^ k \/ (rne M k = M / 2 ^ k + 1 /\ 2 ^ k <= 2 * (M mod 2 ^ k)).
Proof.
  unfold rne.
  destruct (Z.compare_spec (2 * (M mod 2 ^ k)) (2 ^ k)) as [E | E | E].
  - destruct (Z.even (M / 2 ^ k)); [left; reflexivity | right; split; [reflexivity | lia]].
  - left. reflexivity.
  - right. split; [reflexivity | lia].
Qed.

Lemma rne_0 (M : Z) : rne M 0 = M.
Proof.
  unfold rne. change (2 ^ 0) with 1. rewrite Z.div_1_r, Z.mod_1_r. reflexivity.
Qed.

(** Rounding a mantissa that is not below the format's exponent, short of
    overflow. *)
Lemma binary_round_aux_spec (s : bool) (m e : Z) :
  0 < m -> -1074 <= e -> Z.log2 m + 1 + e <= 1023 ->
  e <= fexp64 (Z.log2 m + 1 + e) ->
  let k := fexp64 (Z.log2 m + 1 + e) - e in
  exists m' e',
    binary_round_aux prec emax s m e loc_Exact = S754_finite s m' e'
    /\ valid_binary (S754_finite s m' e') = true
    /\ Zpos m' * 2 ^ (e' + 1074) = rne m k * 2 ^ (k + e + 1074).
Proof.
  intros Hm He Hov Hnorm k.
  unfold binary_round_aux.
  rewrite shr_fexp_spec by exact Hm.
  fold k.
  rewrite round_shr_spec by lia.
  assert (Hk : 0 <= k) by (unfold k; lia).
  replace (Z.of_nat (Z.to_nat k)) with k by lia.
  replace (Z.max k 0) with k by lia.
  pose proof (log2_bounds m Hm) as Hlog.
  assert (Hpk : 0 < 2 ^ k) by (apply pow2_pos; exact Hk).
  (* the rounded mantissa *)
  assert (HR : (k = 0 /\ rne m k = m)
               \/ (0 < k /\ k = Z.log2 m + 1 - 53
                   /\ 2 ^ 52 <= rne m k <= 2 ^ 53)).
  { destruct (Z.eq_dec k 0) as [E | E].
    - left. split; [exact E |]. rewrite E. apply rne_0.
    - right. assert (Hkpos : 0 < k) by lia.
      assert (Hkd : k = Z.log2 m + 1 - 53) by (unfold k, fexp64 in *; lia).
      split; [exact Hkpos |]. split; [exact Hkd |].
      assert (Hq : 2 ^ 52 <= m / 2 ^ k < 2 ^ 53).
      { split.
        - apply Z.div_le_lower_bound; [exact Hpk |].
          rewrite <- Z.pow_add_r by lia.
          replace (k + 52) with (Z.log2 m) by lia. apply Hlog.
        - apply Z.div_lt_upper_bound; [exact Hpk |].
          rewrite <- Z.pow_add_r by lia.
          replace (k + 53) with (Z.log2 m + 1) by lia. apply Hlog. }
      destruct (rne_cases m k) as [-> | [-> _]]; lia. }
  destruct HR as [[Hk0' HR] | (Hkpos & Hkd & HR)].
  - (* no shift: exact *)
    rewrite HR.
    rewrite shr_fexp_spec by exact Hm.
    rewrite Hk0', !Z.add_0_r. fold k. rewrite Hk0'.
    change (Z.to_nat 0) with 0%nat. change (Z.max 0 0) with 0.
    cbn [shr_spec shr_m]. rewrite Z.add_0_r.
    destruct m as [| p | p]; try lia.
    change emax with 1024. change prec with 53. change (1024 - 53) with 971.
    assert (He971 : e <= 971) by (unfold k, fexp64 in *; lia).
    replace (e <=? 971) with true by (symmetry; apply Z.leb_le; exact He971).
    exists p, e. split; [reflexivity |]. split.
    + apply valid_finite_inv; [| exact He971].
      rewrite digits2_pos_log2. unfold k, fexp64 in *. lia.
    + rewrite Z.add_0_l. reflexivity.
  - (* shifted by k *)
    set (R := rne m k) in *.
    assert (HRpos : 0 < R) by (assert (0 < 2 ^ 52) by (apply pow2_pos; lia); lia).
    rewrite shr_fexp_spec by exact HRpos.
    destruct (Z.eq_dec R (2 ^ 53)) as [E53 | N53].
    + (* carry into the next binade *)
      assert (HlR : Z.log2 R = 53) by (rewrite E53; reflexivity).
      rewrite HlR.
      replace (fexp64 (53 + 1 + (e + k)) - (e + k)) with 1 by (unfold fexp64; lia).
      change (Z.to_nat 1) with 1%nat. change (Z.max 1 0) with 1.
      cbn [shr_spec shr_m]. change (Z.of_nat 1) with 1. change (2 ^ 1) with 2.
      rewrite E53. change (2 ^ 53 / 2) with (Zpos (2 ^ 52)%positive).
      cbv iota beta.
      change emax with 1024. change prec with 53. change (1024 - 53) with 971.
      assert (He971 : e + k + 1 <= 971) by lia.
      replace (e + k + 1 <=? 971) with true by (symmetry; apply Z.leb_le; exact He971).
      exists (2 ^ 52)%positive, (e + k + 1). split; [reflexivity |]. split.
      * apply valid_finite_inv; [| exact He971].
        change (Zpos (digits2_pos (2 ^ 52))) with 53. lia.
      * change (Zpos (2 ^ 52)%positive) with (2 ^ 52).
        replace (e + k + 1 + 1074) with (1 + (k + e + 1074)) by lia.
        rewrite (Z.pow_add_r 2 1) by lia.
        change (2 ^ 53) with (2 ^ 52 * 2 ^ 1). ring.
    + assert (HlR : Z.log2 R = 52).
      { apply log2_pow2_range; [lia |]. change (52 + 1) with 53. lia. }
      rewrite HlR.
      replace (fexp64 (52 + 1 + (e + k)) - (e + k)) with 0 by (unfold fexp64; lia).
      change (Z.to_nat 0) with 0%nat. change (Z.max 0 0) with 0.
      cbn [shr_spec shr_m]. rewrite Z.add_0_r.
      destruct R as [| p | p] eqn:ER; try lia.
      change emax with 1024. change prec with 53. change (1024 - 53) with 971.
      assert (He971 : e + k <= 971) by lia.
      replace (e + k <=? 971) with true by (symmetry; apply Z.leb_le; exact He971).
      exists p, (e + k). split; [reflexivity |]. split.
      * apply valid_finite_inv; [| exact He971].
        rewrite digits2_pos_log2, HlR. lia.
      * f_equal. f_equal. lia.
Qed.

Lemma iter_xO (m n : positive) : Zpos (Pos.iter xO m n) = Zpos m * 2 ^ Zpos n.
Proof.
  induction n as [| n IH] using Pos.peano_ind.
  - cbn [Pos.iter]. change (2 ^ 1) with 2. lia.
  - rewrite Pos.iter_succ, Pos2Z.inj_succ, Z.pow_succ_r by lia.
    change (Zpos (Pos.iter xO m n)~0) with (2 * Zpos (Pos.iter xO m n)).
    rewrite IH. ring.
Qed.

Lemma log2_shift (m j : Z) : 0 < m -> 0 <= j -> Z.log2 (m * 2 ^ j) = Z.log2 m + j.
Proof. intros Hm Hj. rewrite Z.log2_mul_pow2 by lia. lia. Qed.

(** The same for any mantissa: [binary_round] shifts it to the left first. *)
Lemma binary_round_spec (s : bool) (M : positive) (e : Z) :
  -1074 <= e -> Z.log2 (Zpos M) + 1 + e <= 1023 ->
  let k := Z.max (Z.log2 (Zpos M) + 1 - 53) 0 in
  exists m' e',
    binary_round prec emax s M e = S754_finite s m' e'
    /\ valid_binary (S754_finite s m' e') = true
    /\ Zpos m' * 2 ^ (e' + 1074) = rne (Zpos M) k * 2 ^ (k + e + 1074).
Proof.
  intros He Hov k.
  unfold binary_round. rewrite fexp_64, digits2_pos_log2.
  set (d := Z.log2 (Zpos M) + 1) in *.
  unfold shl_align.
  destruct (fexp64 (d + e) - e) as [| p | p] eqn:Hs.
  - destruct (binary_round_aux_spec s (Zpos M) e) as (m' & e' & Hr & Hv & Hval);
      [lia | exact He | exact Hov | fold d; lia |].
    fold d in Hval. rewrite Hs in Hval.
    exists m', e'. split; [exact Hr |]. split; [exact Hv |].
    rewrite Hval. replace k with 0 by (unfold k, fexp64 in *; lia). reflexivity.
  - destruct (binary_round_aux_spec s (Zpos M) e) as (m' & e' & Hr & Hv & Hval);
      [lia | exact He | exact Hov | fold d; lia |].
    fold d in Hval. rewrite Hs in Hval.
    exists m', e'. split; [exact Hr |]. split; [exact Hv |].
    rewrite Hval. replace k with (Zpos p) by (unfold k, fexp64 in *; lia). reflexivity.
  - assert (Hsh : Zpos (Pos.iter xO M p) = Zpos M * 2 ^ Zpos p) by apply iter_xO.
    assert (Hlog : Z.log2 (Zpos (Pos.iter xO M p)) + 1 = d + Zpos p).
    { rewrite Hsh, log2_shift by lia. unfold d. lia. }
    assert (He1 : fexp64 (d + e) = e - Zpos p) by lia.
    destruct (binary_round_aux_spec s (Zpos (Pos.iter xO M p)) (fexp64 (d + e)))
      as (m' & e' & Hr & Hv & Hval).
    + lia.
    + unfold fexp64. lia.
    + rewrite Hlog, He1. lia.
    + rewrite Hlog, He1. replace (d + Zpos p + (e - Zpos p)) with (d + e) by lia. lia.
    + rewrite Hlog in Hval.
      replace (d + Zpos p + fexp64 (d + e)) with (d + e) in Hval by lia.
      rewrite Z.sub_diag, rne_0, Z.add_0_l in Hval.
      exists m', e'. split; [exact Hr |]. split; [exact Hv |].
      rewrite Hval, Hsh, He1.
      assert (Hge : -1074 <= e - Zpos p) by (unfold fexp64 in He1; lia).
      replace k with 0 by (unfold k, fexp64 in *; lia).
      rewrite rne_0, Z.add_0_l, <- Z.mul_assoc, <- Z.pow_add_r by lia.
      f_equal. f_equal. lia.
Qed.

(** *** [round53] *)

Lemma round53_0 : round53 0 = 0.
Proof. reflexivity. Qed.

Lemma round53_opp (V : Z) : round53 (- V) = - round53 V.
Proof.
  unfold round53. rewrite Z.abs_opp, Z.sgn_opp. ring.
Qed.

Lemma rne_exact (q k : Z) : 0 <= k -> rne (q * 2 ^ k) k = q.
Proof.
  intros Hk. assert (Hp : 0 < 2 ^ k) by (apply pow2_pos; exact Hk).
  unfold rne. rewrite Z.mod_mul, Z.div_mul by lia.
  replace (2 * 0 ?= 2 ^ k) with Lt by (symmetry; apply Z.compare_lt_iff; lia).
  reflexivity.
Qed.

Lemma rne_scale (M k j : Z) : 0 <= k -> 0 <= j ->
  rne (M * 2 ^ j) (k + j) = rne M k.
Proof.
  intros Hk Hj.
  assert (Hpk : 0 < 2 ^ k) by (apply pow2_pos; exact Hk).
  assert (Hpj : 0 < 2 ^ j) by (apply pow2_pos; exact Hj).
  unfold rne. rewrite Z.pow_add_r by lia.
  rewrite Z.div_mul_cancel_r by lia.
  rewrite Z.mul_mod_distr_r by lia.
  replace (2 * (M mod 2 ^ k * 2 ^ j) ?= 2 ^ k * 2 ^ j) with (2 * (M mod 2 ^ k) ?= 2 ^ k).
  - reflexivity.
  - rewrite Z.mul_assoc. symmetry.
    destruct (Z.compare_spec (2 * (M mod 2 ^ k)) (2 ^ k)) as [E | E | E].
    + apply Z.compare_eq_iff. rewrite E. reflexivity.
    + apply Z.compare_lt_iff. apply Z.mul_lt_mono_pos_r; assumption.
    + apply Z.compare_gt_iff. apply Z.mul_lt_mono_pos_r; assumption.
Qed.

Lemma round53_scale (M : positive) (j : Z) :
  0 <= j ->
  round53 (Zpos M * 2 ^ j)
  = rne (Zpos M) (Z.max (Z.log2 (Zpos M) + 1 - 53) 0)
    * 2 ^ (Z.max (Z.log2 (Zpos M) + 1 - 53) 0 + j).
Proof.
  intros Hj. assert (Hpj : 0 < 2 ^ j) by (apply pow2_pos; exact Hj).
  assert (HV : 0 < Zpos M * 2 ^ j) by (apply Z.mul_pos_pos; lia).
  unfold round53. rewrite Z.abs_eq, Z.sgn_pos, Z.mul_1_l by lia.
  rewrite log2_shift by lia.
  set (d := Z.log2 (Zpos M) + 1).
  destruct (Z.le_gt_cases 53 d) as [Hd | Hd].
  - replace (Z.max (Z.log2 (Zpos M) + j + 1 - 53) 0) with ((d - 53) + j) by (unfold d; lia).
    replace (Z.max (d - 53) 0) with (d - 53) by lia.
    rewrite rne_scale by lia. reflexivity.
  - replace (Z.max (d - 53) 0) with 0 by lia. rewrite rne_0, Z.add_0_l.
    set (kV := Z.max (Z.log2 (Zpos M) + j + 1 - 53) 0).
    assert (HkV : 0 <= kV <= j) by (unfold kV, d in *; lia).
    replace (Zpos M * 2 ^ j) with ((Zpos M * 2 ^ (j - kV)) * 2 ^ kV)
      by (rewrite <- Z.mul_assoc, <- Z.pow_add_r by lia; f_equal; f_equal; lia).
    rewrite rne_exact by lia. reflexivity.
Qed.

(** A double is its own rounding. *)
Lemma round53_float (x : spec_float) :
  valid_binary x = true -> round53 (SF2Z x) = SF2Z x.
Proof.
  intros Vx. destruct x as [s | s | | s m e]; try reflexivity.
  apply valid_finite in Vx. destruct Vx as [Vx _].
  cbn [SF2Z].
  assert (Hpos : round53 (Zpos m * 2 ^ (e + 1074)) = Zpos m * 2 ^ (e + 1074)).
  { rewrite round53_scale by lia.
    rewrite digits2_pos_log2 in Vx.
    replace (Z.max (Z.log2 (Zpos m) + 1 - 53) 0) with 0 by lia.
    rewrite rne_0, Z.add_0_l. reflexivity. }
  destruct s; cbn [cond_Zopp].
  - change (Zneg m) with (- Zpos m). rewrite Z.mul_opp_l, round53_opp, Hpos. reflexivity.
  - exact Hpos.
Qed.

(** *** Addition and subtraction *)

Lemma shl_align_fst (m : positive) (e ez : Z) :
  ez <= e -> Zpos (fst (shl_align m e ez)) = Zpos m * 2 ^ (e - ez).
Proof.
  intros Hle. unfold shl_align.
  destruct (ez - e) as [| p | p] eqn:Hs; cbn [fst].
  - replace (e - ez) with 0 by lia. change (2 ^ 0) with 1. lia.
  - lia.
  - rewrite iter_xO. f_equal. f_equal. lia.
Qed.

(** [binary_normalize], the last step of an addition: below [2^1023] the
    result is finite and has the exact value rounded by [round53]. *)
Lemma binary_normalize_spec (m e : Z) :
  -1074 <= e -> Z.abs (m * 2 ^ (e + 1074)) < 2 ^ 2097 ->
  SFfinite (binary_normalize prec emax m e false) = true
  /\ valid_binary (binary_normalize prec emax m e false) = true
  /\ SF2Z (binary_normalize prec emax m e false) = round53 (m * 2 ^ (e + 1074)).
Proof.
  intros He Hov.
  assert (Hp : 0 < 2 ^ (e + 1074)) by (apply pow2_pos; lia).
  assert (Hlog : forall M : positive, Zpos M * 2 ^ (e + 1074) < 2 ^ 2097 ->
                 Z.log2 (Zpos M) + 1 + e <= 1023).
  { intros M HM.
    assert (Z.log2 (Zpos M * 2 ^ (e + 1074)) < 2097)
      by (apply Z.log2_lt_pow2; [lia | exact HM]).
    rewrite log2_shift in H by lia. lia. }
  destruct m as [| M | M]; cbn [binary_normalize].
  - repeat split.
  - rewrite Z.abs_eq in Hov by lia.
    destruct (binary_round_spec false M e He (Hlog M Hov)) as (m' & e' & Hr & Hv & Hval).
    rewrite Hr. split; [reflexivity |]. split; [exact Hv |].
    cbn [SF2Z cond_Zopp]. rewrite Hval, round53_scale by lia.
    f_equal. f_equal. lia.
  - change (Zneg M) with (- Zpos M) in *. rewrite Z.mul_opp_l, Z.abs_opp in Hov.
    rewrite Z.abs_eq in Hov by lia.
    destruct (binary_round_spec true M e He (Hlog M Hov)) as (m' & e' & Hr & Hv & Hval).
    rewrite Hr. split; [reflexivity |]. split; [exact Hv |].
    cbn [SF2Z cond_Zopp]. change (Zneg m') with (- Zpos m').
    rewrite !Z.mul_opp_l, round53_opp, Hval, round53_scale by lia.
    f_equal. f_equal. f_equal. lia.
Qed.

Lemma SF2Z_aligned (s : bool) (m : positive) (e ez : Z) :
  -1074 <= ez -> ez <= e ->
  cond_Zopp s (Zpos (fst (shl_align m e ez))) * 2 ^ (ez + 1074)
  = SF2Z (S754_finite s m e).
Proof.
  intros Hez Hle. rewrite shl_align_fst by exact Hle. cbn [SF2Z].
  replace (e + 1074) with ((e - ez) + (ez + 1074)) by lia.
  rewrite (Z.pow_add_r 2 (e - ez) (ez + 1074)) by lia.
  destruct s; cbn [cond_Zopp]; [change (Zneg m) with (- Zpos m) |]; ring.
Qed.

Lemma valid_exponent (s : bool) (m : positive) (e : Z) :
  valid_binary (S754_finite s m e) = true -> -1074 <= e.
Proof. intros V. apply valid_finite in V. lia. Qed.

(** Sums and differences of finite doubles, short of overflow. *)
Lemma SFadd_spec (x y : spec_float) :
  valid_binary x = true -> valid_binary y = true ->
  SFfinite x = true -> SFfinite y = true ->
  Z.abs (SF2Z x + SF2Z y) < 2 ^ 2097 ->
  SFfinite (SFadd prec emax x y) = true
  /\ valid_binary (SFadd prec emax x y) = true
  /\ SF2Z (SFadd prec emax x y) = round53 (SF2Z x + SF2Z y).
Proof.
  intros Vx Vy Fx Fy Hov.
  destruct x as [sx | sx | | sx mx ex]; try discriminate;
  destruct y as [sy | sy | | sy my ey]; try discriminate.
  - destruct sx, sy; repeat split.
  - cbn [SFadd]. split; [reflexivity |]. split; [exact Vy |].
    change (SF2Z (S754_zero sx)) with 0. rewrite Z.add_0_l.
    symmetry. apply round53_float. exact Vy.
  - cbn [SFadd]. split; [reflexivity |]. split; [exact Vx |].
    change (SF2Z (S754_zero sy)) with 0. rewrite Z.add_0_r.
    symmetry. apply round53_float. exact Vx.
  - pose proof (valid_exponent _ _ _ Vx) as Hex.
    pose proof (valid_exponent _ _ _ Vy) as Hey.
    cbn [SFadd]. cbv zeta.
    set (ez := Z.min ex ey).
    assert (Hsum : (cond_Zopp sx (Zpos (fst (shl_align mx ex ez)))
                    + cond_Zopp sy (Zpos (fst (shl_align my ey ez))))
                   * 2 ^ (ez + 1074)
                   = SF2Z (S754_finite sx mx ex) + SF2Z (S754_finite sy my ey)).
    { rewrite Z.mul_add_distr_r, !SF2Z_aligned by (unfold ez; lia). reflexivity. }
    rewrite <- Hsum in *.
    apply binary_normalize_spec; [unfold ez; lia | exact Hov].
Qed.

Lemma SFsub_spec (x y : spec_float) :
  valid_binary x = true -> valid_binary y = true ->
  SFfinite x = true -> SFfinite y = true ->
  Z.abs (SF2Z x - SF2Z y) < 2 ^ 2097 ->
  SFfinite (SFsub prec emax x y) = true
  /\ valid_binary (SFsub prec emax x y) = true
  /\ SF2Z (SFsub prec emax x y) = round53 (SF2Z x - SF2Z y).
Proof.
  intros Vx Vy Fx Fy Hov.
  destruct x as [sx | sx | | sx mx ex]; try discriminate;
  destruct y as [sy | sy | | sy my ey]; try discriminate.
  - destruct sx, sy; repeat split.
  - cbn [SFsub]. split; [reflexivity |]. split; [exact Vy |].
    change (SF2Z (S754_zero sx)) with 0. rewrite Z.sub_0_l.
    replace (- SF2Z (S754_finite sy my ey)) with (SF2Z (S754_finite (negb sy) my ey)).
    + symmetry. apply round53_float. exact Vy.
    + cbn [SF2Z]. destruct sy; cbn [negb cond_Zopp];
        change (Zneg my) with (- Zpos my); ring.
  - cbn [SFsub]. split; [reflexivity |]. split; [exact Vx |].
    change (SF2Z (S754_zero sy)) with 0. rewrite Z.sub_0_r.
    symmetry. apply round53_float. exact Vx.
  - pose proof (valid_exponent _ _ _ Vx) as Hex.
    pose proof (valid_exponent _ _ _ Vy) as Hey.
    cbn [SFsub]. cbv zeta.
    set (ez := Z.min ex ey).
    assert (Hsum : (cond_Zopp sx (Zpos (fst (shl_align mx ex ez)))
                    - cond_Zopp sy (Zpos (fst (shl_align my ey ez))))
                   * 2 ^ (ez + 1074)
                   = SF2Z (S754_finite sx mx ex) - SF2Z (S754_finite sy my ey)).
    { rewrite Z.mul_sub_distr_r, !SF2Z_aligned by (unfold ez; lia). reflexivity. }
    rewrite <- Hsum in *.
    apply binary_normalize_spec; [unfold ez; lia | exact Hov].
Qed.

(** *** The primitive operations *)

(** [x + y] and [x - y] are the exact sum and difference, rounded. *)
Lemma add_F2Z (x y : float) :
  finite x = true -> finite y = true ->
  Z.abs (F2Z x + F2Z y) < 2 ^ 2097 ->
  finite (x + y) = true /\ F2Z (x + y) = round53 (F2Z x + F2Z y).
Proof.
  intros Fx Fy Hov. unfold finite, F2Z in *. rewrite FloatAxioms.add_spec.
  destruct (SFadd_spec _ _ (Prim2SF_valid x) (Prim2SF_valid y) Fx Fy Hov)
    as (Hf & _ & Hv).
  split; assumption.
Qed.

Lemma sub_F2Z (x y : float) :
  finite x = true -> finite y = true ->
  Z.abs (F2Z x - F2Z y) < 2 ^ 2097 ->
  finite (x - y) = true /\ F2Z (x - y) = round53 (F2Z x - F2Z y).
Proof.
  intros Fx Fy Hov. unfold finite, F2Z in *. rewrite FloatAxioms.sub_spec.
  destruct (SFsub_spec _ _ (Prim2SF_valid x) (Prim2SF_valid y) Fx Fy Hov)
    as (Hf & _ & Hv).
  split; assumption.
Qed.

(** [<] and [<=] on finite doubles are those of the values. *)
Lemma ltb_F2Z (x y : float) :
  finite x = true -> finite y = true -> (x <? y)%float = (F2Z x <? F2Z y).
Proof.
  intros Fx Fy. rewrite FloatAxioms.ltb_spec. unfold SFltb, F2Z, Z.ltb.
  rewrite (SFcompare_spec _ _ (Prim2SF_valid x) (Prim2SF_valid y) Fx Fy).
  reflexivity.
Qed.

Lemma leb_F2Z (x y : float) :
  finite x = true -> finite y = true -> (x <=? y)%float = (F2Z x <=? F2Z y).
Proof.
  intros Fx Fy. rewrite FloatAxioms.leb_spec. unfold SFleb, F2Z, Z.leb.
  rewrite (SFcompare_spec _ _ (Prim2SF_valid x) (Prim2SF_valid y) Fx Fy).
  destruct (SF2Z (Prim2SF x) ?= SF2Z (Prim2SF y)); reflexivity.
Qed.

Lemma abs_F2Z (x : float) :
  finite (abs x) = finite x /\ F2Z (abs x) = Z.abs (F2Z x).
Proof.
  unfold finite, F2Z. rewrite FloatAxioms.abs_spec.
  destruct (Prim2SF x) as [s | s | | s m e]; cbn [SFabs SFfinite SF2Z];
    try (split; reflexivity).
  split; [reflexivity |].
  assert (0 <= 2 ^ (e + 1074)) by (apply Z.pow_nonneg; lia).
  destruct s; cbn [cond_Zopp].
  - change (Zneg m) with (- Zpos m). rewrite Z.mul_opp_l, Z.abs_opp, Z.abs_eq; [reflexivity |].
    apply Z.mul_nonneg_nonneg; lia.
  - rewrite Z.abs_eq; [reflexivity |]. apply Z.mul_nonneg_nonneg; lia.
Qed.

Lemma opp_F2Z (x : float) :
  finite (- x) = finite x /\ F2Z (- x) = - F2Z x.
Proof.
  unfold finite, F2Z. rewrite FloatAxioms.opp_spec.
  destruct (Prim2SF x) as [s | s | | s m e]; cbn [SFopp SFfinite SF2Z];
    try (split; reflexivity).
  split; [reflexivity |].
  destruct s; cbn [negb cond_Zopp]; change (Zneg m) with (- Zpos m); ring.
Qed.

(** A double between two finite doubles is finite. *)
Lemma finite_between (lo hi x : float) :
  finite lo = true -> finite hi = true ->
  (lo <=? x)%float = true -> (x <=? hi)%float = true -> finite x = true.
Proof.
  unfold finite. rewrite !FloatAxioms.leb_spec. unfold SFleb.
  destruct (Prim2SF x) as [s | s | | s m e]; try reflexivity;
    intros Flo Fhi Hlo Hhi.
  - destruct s.
    + destruct (Prim2SF lo) as [s' | s' | | s' m' e']; try discriminate;
        cbn in Hlo; discriminate.
    + destruct (Prim2SF hi) as [s' | s' | | s' m' e']; try discriminate;
        cbn in Hhi; discriminate.
  - destruct (Prim2SF lo) as [s' | s' | | s' m' e']; cbn in Hlo; discriminate.
Qed.

(** *** How far and where to [round53] rounds *)

Lemma rne_cases_strong (M k : Z) :
  (rne M k = M / 2 ^ k /\ 2 * (M mod 2 ^ k) <= 2 ^ k)
  \/ (rne M k = M / 2 ^ k + 1 /\ 2 ^ k <= 2 * (M mod 2 ^ k)).
Proof.
  unfold rne.
  destruct (Z.compare_spec (2 * (M mod 2 ^ k)) (2 ^ k)) as [E | E | E].
  - destruct (Z.even (M / 2 ^ k)); [left | right]; split; try reflexivity; lia.
  - left. split; [reflexivity | lia].
  - right. split; [reflexivity | lia].
Qed.

(** The rounded value is within half a unit of the last place. *)
Lemma rne_error (M k : Z) :
  0 <= k -> 2 * Z.abs (rne M k * 2 ^ k - M) <= 2 ^ k.
Proof.
  intros Hk. assert (Hp : 0 < 2 ^ k) by (apply pow2_pos; exact Hk).
  pose proof (Z.div_mod M (2 ^ k) ltac:(lia)) as Hdm.
  pose proof (Z.mod_pos_bound M (2 ^ k) Hp) as Hr.
  destruct (rne_cases_strong M k) as [[-> Hc] | [-> Hc]];
    set (q := M / 2 ^ k) in *; set (r := M mod 2 ^ k) in *;
    set (p := 2 ^ k) in *; clearbody q r p; nia.
Qed.

(** A multiple of the unit above the exact value is above the rounded one. *)
Lemma rne_le (M k K : Z) : 0 <= k -> M <= K * 2 ^ k -> rne M k <= K.
Proof.
  intros Hk HM. assert (Hp : 0 < 2 ^ k) by (apply pow2_pos; exact Hk).
  pose proof (Z.div_mod M (2 ^ k) ltac:(lia)) as Hdm.
  pose proof (Z.mod_pos_bound M (2 ^ k) Hp) as Hr.
  destruct (rne_cases_strong M k) as [[-> Hc] | [-> Hc]];
    set (q := M / 2 ^ k) in *; set (r := M mod 2 ^ k) in *;
    set (p := 2 ^ k) in *; clearbody q r p; nia.
Qed.

Lemma rne_nonneg (M k : Z) : 0 <= k -> 0 <= M -> 0 <= rne M k.
Proof.
  intros Hk HM. assert (Hp : 0 < 2 ^ k) by (apply pow2_pos; exact Hk).
  pose proof (Z.div_pos M (2 ^ k) HM Hp).
  destruct (rne_cases_strong M k) as [[-> _] | [-> _]]; lia.
Qed.

Lemma round53_nonneg (V : Z) : 0 <= V -> 0 <= round53 V.
Proof.
  intros HV. unfold round53.
  set (k := Z.max (Z.log2 (Z.abs V) + 1 - 53) 0).
  assert (Hk : 0 <= k) by (unfold k; lia).
  pose proof (rne_nonneg (Z.abs V) k Hk (Z.abs_nonneg V)).
  assert (0 <= 2 ^ k) by (apply Z.pow_nonneg; lia).
  assert (0 <= Z.sgn V) by (apply Z.sgn_nonneg; exact HV).
  apply Z.mul_nonneg_nonneg; [assumption |]. apply Z.mul_nonneg_nonneg; assumption.
Qed.

Lemma round53_pos_eq (V : Z) :
  0 < V ->
  round53 V = rne V (Z.max (Z.log2 V + 1 - 53) 0) * 2 ^ (Z.max (Z.log2 V + 1 - 53) 0).
Proof.
  intros HV. unfold round53. rewrite Z.abs_eq, Z.sgn_pos by lia. lia.
Qed.

(** Below [2^j] the rounding error is at most [2^(j - 54)]. *)
Lemma round53_error_pos (V j : Z) :
  0 <= V < 2 ^ j -> 54 <= j -> Z.abs (round53 V - V) <= 2 ^ (j - 54).
Proof.
  intros [HV0 HVj] Hj.
  assert (Hpj : 0 < 2 ^ (j - 54)) by (apply pow2_pos; lia).
  destruct (Z.eq_dec V 0) as [-> | HVn]; [rewrite round53_0; cbn; lia |].
  assert (HV : 0 < V) by lia.
  rewrite round53_pos_eq by exact HV.
  assert (Hlog : Z.log2 V < j) by (apply Z.log2_lt_pow2; assumption).
  set (k := Z.max (Z.log2 V + 1 - 53) 0).
  assert (Hk : 0 <= k <= j - 53) by (unfold k; lia).
  destruct (Z.eq_dec k 0) as [E | E].
  - rewrite E, rne_0. change (2 ^ 0) with 1. rewrite Z.mul_1_r, Z.sub_diag. cbn. lia.
  - pose proof (rne_error V k ltac:(lia)) as Herr.
    assert (Hle : 2 ^ k <= 2 ^ (j - 53)) by (apply Z.pow_le_mono_r; lia).
    replace (j - 53) with (Z.succ (j - 54)) in Hle by lia.
    rewrite Z.pow_succ_r in Hle by lia. lia.
Qed.

Lemma round53_error (V j : Z) :
  Z.abs V < 2 ^ j -> 54 <= j -> Z.abs (round53 V - V) <= 2 ^ (j - 54).
Proof.
  intros HV Hj. destruct (Z.le_gt_cases 0 V) as [Hpos | Hneg].
  - apply round53_error_pos; [lia | exact Hj].
  - replace V with (- (- V)) by lia. rewrite round53_opp.
    replace (- round53 (- V) - - - V) with (- (round53 (- V) - - V)) by lia.
    rewrite Z.abs_opp. apply round53_error_pos; [lia | exact Hj].
Qed.

(** Rounding does not step over a double: a value at or below [K * 2^j],
    with [K] of 53 bits, rounds to at most that. *)
Lemma round53_le_grid (V K j : Z) :
  0 <= V <= K * 2 ^ j -> K < 2 ^ 53 -> 0 <= j -> round53 V <= K * 2 ^ j.
Proof.
  intros [HV0 HVK] HK Hj.
  assert (Hpj : 0 < 2 ^ j) by (apply pow2_pos; exact Hj).
  destruct (Z.eq_dec V 0) as [-> | HVn]; [rewrite round53_0; lia |].
  assert (HV : 0 < V) by lia.
  rewrite round53_pos_eq by exact HV.
  assert (HVlt : V < 2 ^ (53 + j)).
  { rewrite Z.pow_add_r by lia. nia. }
  assert (Hlog : Z.log2 V < 53 + j) by (apply Z.log2_lt_pow2; assumption).
  set (k := Z.max (Z.log2 V + 1 - 53) 0).
  assert (Hk : 0 <= k <= j) by (unfold k; lia).
  assert (Hpk : 0 < 2 ^ k) by (apply pow2_pos; lia).
  assert (Hsplit : K * 2 ^ j = (K * 2 ^ (j - k)) * 2 ^ k).
  { rewrite <- Z.mul_assoc, <- Z.pow_add_r by lia. f_equal. f_equal. lia. }
  rewrite Hsplit. apply Z.mul_le_mono_nonneg_r; [lia |].
  apply rne_le; [lia |]. rewrite <- Hsplit. exact HVK.
Qed.

Lemma round53_abs_le_grid (V K j : Z) :
  Z.abs V <= K * 2 ^ j -> K < 2 ^ 53 -> 0 <= j -> Z.abs (round53 V) <= K * 2 ^ j.
Proof.
  intros HV HK Hj. destruct (Z.le_gt_cases 0 V) as [Hpos | Hneg].
  - rewrite Z.abs_eq by (apply round53_nonneg; exact Hpos).
    apply round53_le_grid; [lia | exact HK | exact Hj].
  - replace V with (- (- V)) by lia. rewrite round53_opp, Z.abs_opp.
    rewrite Z.abs_eq by (apply round53_nonneg; lia).
    apply round53_le_grid; [lia | exact HK | exact Hj].
Qed.



(** *** The constants of the filter *)

(** [2 pi] as the driver has it, in units of 2^-1074. *)
Lemma F2Z_two_pi : F2Z (2 * M_PI) = 7074237752028440 * 2 ^ 1024.
Proof. vm_compute. reflexivity. Qed.

Lemma F2Z_pi : F2Z M_PI = 7074237752028440 * 2 ^ 1023.
Proof. vm_compute. reflexivity. Qed.

Lemma finite_two_pi : finite (2 * M_PI) = true.
Proof. reflexivity. Qed.

Lemma F2Z_zero : F2Z 0 = 0.
Proof. reflexivity. Qed.


Lemma finite_pi : finite M_PI = true.
Proof. reflexivity. Qed.

(** ** Complementary filter helpers *)

Local Open Scope float_scope.

Local Close Scope float_scope.

(** An angle between [-pi] and [2 pi], in units of 2^-1074. *)
Lemma angle_in_range (x : float) :
  (- M_PI <=? x)%float = true -> (x <=? 2 * M_PI)%float = true ->
  finite x = true
  /\ - (7074237752028440 * 2 ^ 1023) <= F2Z x <= 7074237752028440 * 2 ^ 1024.
Proof.
  intros Hlo Hhi.
  assert (Fx : finite x = true)
    by (apply (finite_between (- M_PI) (2 * M_PI)); auto).
  split; [exact Fx |].
  rewrite (leb_F2Z (- M_PI) x eq_refl Fx) in Hlo.
  rewrite (leb_F2Z x (2 * M_PI) Fx eq_refl) in Hhi.
  apply Z.leb_le in Hlo, Hhi.
  rewrite F2Z_two_pi in Hhi.
  replace (F2Z (- M_PI)) with (- (7074237752028440 * 2 ^ 1023)) in Hlo
    by (vm_compute; reflexivity).
  lia.
Qed.

(** Sums and differences of such angles with [pi] and [2 pi] are rounded
    by at most [2^-50]. *)
Lemma round53_angle (V : Z) :
  Z.abs V < 16 * 2 ^ 1074 -> Z.abs (round53 V - V) <= 2 ^ 1024.
Proof.
  intros HV. apply (round53_error V 1078); [| lia].
  replace (2 ^ 1078) with (16 * 2 ^ 1074)
    by (change 16 with (2 ^ 4); rewrite <- Z.pow_add_r by lia; reflexivity).
  exact HV.
Qed.

Local Open Scope float_scope.

(** On the filter's range the result is within [pi + 2^-49] of the
    accelerometer angle, in exact terms. *)
Lemma FormatFastConverge_distance (c a : float) :
  (- M_PI <=? c) = true -> (c <=? 2 * M_PI) = true ->
  (- M_PI <=? a) = true -> (a <=? 2 * M_PI) = true ->
  finite (FormatFastConverge c a) = true
  /\ (Z.abs (F2Z (FormatFastConverge c a) - F2Z a)
      <= 7074237752028440 * 2 ^ 1023 + 2 * 2 ^ 1024)%Z.
Proof.
  intros Hc1 Hc2 Ha1 Ha2.
  destruct (angle_in_range c Hc1 Hc2) as [Fc Hc].
  destruct (angle_in_range a Ha1 Ha2) as [Fa Ha].
  assert (P1023 : (0 < 2 ^ 1023)%Z) by (apply pow2_pos; lia).
  assert (H1024 : (2 ^ 1024 = 2 * 2 ^ 1023)%Z)
    by (change 2%Z with (2 ^ 1)%Z at 2; rewrite <- Z.pow_add_r by lia; reflexivity).
  assert (H1074 : (2 ^ 1074 = 2251799813685248 * 2 ^ 1023)%Z)
    by (change 2251799813685248%Z with (2 ^ 51)%Z; rewrite <- Z.pow_add_r by lia;
        reflexivity).
  assert (H2097 : (16 * 2 ^ 1074 < 2 ^ 2097)%Z).
  { replace (16 * 2 ^ 1074)%Z with (2 ^ 1078)%Z
      by (change 16%Z with (2 ^ 4)%Z; rewrite <- Z.pow_add_r by lia; reflexivity).
    apply Z.pow_lt_mono_r; lia. }
  destruct (add_F2Z a M_PI Fa finite_pi) as [Fap Hap]; [rewrite F2Z_pi; lia |].
  destruct (add_F2Z c M_PI Fc finite_pi) as [Fcp Hcp]; [rewrite F2Z_pi; lia |].
  destruct (sub_F2Z c (2 * M_PI) Fc finite_two_pi) as [Fcm Hcm];
    [rewrite F2Z_two_pi; lia |].
  destruct (add_F2Z c (2 * M_PI) Fc finite_two_pi) as [Fcq Hcq];
    [rewrite F2Z_two_pi; lia |].
  rewrite F2Z_pi in Hap, Hcp. rewrite F2Z_two_pi in Hcm, Hcq.
  pose proof (round53_angle (F2Z a + 7074237752028440 * 2 ^ 1023) ltac:(lia)) as Eap.
  pose proof (round53_angle (F2Z c + 7074237752028440 * 2 ^ 1023) ltac:(lia)) as Ecp.
  pose proof (round53_angle (F2Z c - 7074237752028440 * 2 ^ 1024) ltac:(lia)) as Ecm.
  pose proof (round53_angle (F2Z c + 7074237752028440 * 2 ^ 1024) ltac:(lia)) as Ecq.
  rewrite <- Hap in Eap. rewrite <- Hcp in Ecp. rewrite <- Hcm in Ecm.
  rewrite <- Hcq in Ecq.
  unfold FormatFastConverge, gtb.
  change (2.0 * M_PI) with (2 * M_PI).
  rewrite (ltb_F2Z (a + M_PI) c Fap Fc), (ltb_F2Z (c + M_PI) a Fcp Fa).
  destruct (Z.ltb_spec (F2Z (a + M_PI)) (F2Z c)) as [H1 | H1].
  - split; [exact Fcm |]. lia.
  - destruct (Z.ltb_spec (F2Z (c + M_PI)) (F2Z a)) as [H2 | H2].
    + split; [exact Fcq |]. lia.
    + split; [exact Fc |]. lia.
Qed.

(** C6, as amended: [FormatFastConverge] applies at most one shift, and on
    the filter's range, both angles between [-pi] and [2 pi], its result
    is within [pi] of the accelerometer angle, the bound included and up
    to the rounding of the double operations ([2^-49]). *)
Theorem FormatFastConverge_one_shift (compAngle accAngle : float) :
  ((FormatFastConverge compAngle accAngle = compAngle - 2.0 * M_PI
    /\ (compAngle >? accAngle + M_PI) = true)
   \/ (FormatFastConverge compAngle accAngle = compAngle + 2.0 * M_PI
       /\ (compAngle >? accAngle + M_PI) = false
       /\ (accAngle >? compAngle + M_PI) = true)
   \/ (FormatFastConverge compAngle accAngle = compAngle
       /\ (FormatFastConverge compAngle accAngle >? accAngle + M_PI) = false
       /\ (accAngle >? FormatFastConverge compAngle accAngle + M_PI) = false))
  /\ ((- M_PI <=? compAngle) = true -> (compAngle <=? 2 * M_PI) = true ->
      (- M_PI <=? accAngle) = true -> (accAngle <=? 2 * M_PI) = true ->
      (abs (FormatFastConverge compAngle accAngle - accAngle) <=? M_PI + 0x1p-49) = true).
Proof.
  split.
  - unfold FormatFastConverge.
    destruct (compAngle >? accAngle + M_PI) eqn:E1.
    + left. split; reflexivity.
    + destruct (accAngle >? compAngle + M_PI) eqn:E2.
      * right. left. repeat split; reflexivity.
      * right. right. repeat split; assumption.
  - intros Hc1 Hc2 Ha1 Ha2.
    destruct (FormatFastConverge_distance compAngle accAngle Hc1 Hc2 Ha1 Ha2)
      as [Fr Hd].
    destruct (angle_in_range accAngle Ha1 Ha2) as [Fa Ha].
    set (r := FormatFastConverge compAngle accAngle) in *. clearbody r.
    assert (P1023 : (0 < 2 ^ 1023)%Z) by (apply pow2_pos; lia).
    assert (H1024 : (2 ^ 1024 = 2 * 2 ^ 1023)%Z)
      by (change 2%Z with (2 ^ 1)%Z at 2; rewrite <- Z.pow_add_r by lia; reflexivity).
    assert (Hgrid : (Z.abs (F2Z r - F2Z accAngle) <= 7074237752028444 * 2 ^ 1023)%Z)
      by lia.
    assert (H2097 : (7074237752028444 * 2 ^ 1023 < 2 ^ 2097)%Z).
    { replace (2 ^ 2097)%Z with (2 ^ 1074 * 2 ^ 1023)%Z
        by (rewrite <- Z.pow_add_r by lia; reflexivity).
      apply Z.mul_lt_mono_pos_r; [exact P1023 |].
      apply Z.lt_trans with (2 ^ 53)%Z; [reflexivity | apply Z.pow_lt_mono_r; lia]. }
    destruct (sub_F2Z r accAngle Fr Fa) as [Fd Hv]; [lia |].
    destruct (abs_F2Z (r - accAngle)) as [Fab Hab].
    rewrite (leb_F2Z (abs (r - accAngle)) (M_PI + 0x1p-49)
               ltac:(rewrite Fab; exact Fd) eq_refl).
    apply Z.leb_le. rewrite Hab, Hv.
    replace (F2Z (M_PI + 0x1p-49)) with (7074237752028444 * 2 ^ 1023)%Z
      by (vm_compute; reflexivity).
    apply round53_abs_le_grid; [exact Hgrid | reflexivity | lia].
Qed.

(** A first loop that has nothing to do returns at once, whatever the
    fuel. *)
Lemma range_down_done (fuel : nat) (x : float) :
  (x >=? 2 * M_PI) = false -> range_down fuel x = Ret x.
Proof. intros E. destruct fuel; cbn [range_down]; rewrite E; reflexivity. Qed.

Lemma range_up_done (fuel : nat) (x : float) :
  (x <? 0.0) = false -> range_up fuel x = Ret x.
Proof. intros E. destruct fuel; cbn [range_up]; rewrite E; reflexivity. Qed.

(** The second loop is left only with its condition false. *)
Lemma range_up_exit (fuel : nat) (x y : float) :
  range_up fuel x = Ret y -> (y <? 0.0) = false.
Proof.
  revert x. induction fuel as [| fuel IH]; intros x; cbn [range_up];
    destruct (x <? 0.0) eqn:E; intros Hr.
  - discriminate Hr.
  - injection Hr as <-. exact E.
  - exact (IH _ Hr).
  - injection Hr as <-. exact E.
Qed.

(** More fuel does not change what a loop returns. *)
Lemma range_down_more_fuel (fuel fuel' : nat) (x y : float) :
  (fuel <= fuel')%nat -> range_down fuel x = Ret y -> range_down fuel' x = Ret y.
Proof.
  revert fuel' x. induction fuel as [| fuel IH]; intros fuel' x Hle;
    cbn [range_down]; destruct (x >=? 2 * M_PI) eqn:E; intros Hr;
    try discriminate Hr.
  - rewrite range_down_done by exact E. exact Hr.
  - destruct fuel' as [| fuel']; [inversion Hle |].
    cbn [range_down]. rewrite E. apply IH; [apply le_S_n; exact Hle | exact Hr].
  - rewrite range_down_done by exact E. exact Hr.
Qed.

Lemma range_up_more_fuel (fuel fuel' : nat) (x y : float) :
  (fuel <= fuel')%nat -> range_up fuel x = Ret y -> range_up fuel' x = Ret y.
Proof.
  revert fuel' x. induction fuel as [| fuel IH]; intros fuel' x Hle;
    cbn [range_up]; destruct (x <? 0.0) eqn:E; intros Hr;
    try discriminate Hr.
  - rewrite range_up_done by exact E. exact Hr.
  - destruct fuel' as [| fuel']; [inversion Hle |].
    cbn [range_up]. rewrite E. apply IH; [apply le_S_n; exact Hle | exact Hr].
  - rewrite range_up_done by exact E. exact Hr.
Qed.

Lemma FormatRange0to2PI_more_fuel (fuel fuel' : nat) (x y : float) :
  (fuel <= fuel')%nat ->
  FormatRange0to2PI fuel x = Ret y -> FormatRange0to2PI fuel' x = Ret y.
Proof.
  intros Hle. unfold FormatRange0to2PI.
  destruct (range_down fuel x) as [z | |] eqn:E; cbn [obind];
    try discriminate.
  rewrite (range_down_more_fuel fuel fuel' x z Hle E). cbn [obind].
  apply range_up_more_fuel. exact Hle.
Qed.

Lemma CompFilterProcess_more_fuel (fuel fuel' : nat) (dt alpha c a w y : float) :
  (fuel <= fuel')%nat ->
  CompFilterProcess fuel dt alpha c a w = Ret y ->
  CompFilterProcess fuel' dt alpha c a w = Ret y.
Proof. intros Hle. unfold CompFilterProcess. apply FormatRange0to2PI_more_fuel. exact Hle. Qed.



Local Close Scope float_scope.



Local Open Scope float_scope.



(** Whatever the input, [FormatRange0to2PI] is left only through its
    second loop, with a result that is not below 0. *)
Lemma FormatRange0to2PI_exit (fuel : nat) (x y : float) :
  FormatRange0to2PI fuel x = Ret y -> (y <? 0.0) = false.
Proof.
  unfold FormatRange0to2PI.
  destruct (range_down fuel x) as [z | |]; cbn [obind]; try discriminate.
  apply range_up_exit.
Qed.


(** An input so large that subtracting [2 pi] rounds back to it keeps the
    first loop running for ever. *)
Lemma range_down_stuck (x : float) :
  (x >=? 2 * M_PI) = true -> x - 2.0 * M_PI = x ->
  forall fuel, range_down fuel x = OutOfFuel.
Proof.
  intros Hge Hsame fuel.
  induction fuel as [| fuel IH]; cbn [range_down]; rewrite Hge.
  - reflexivity.
  - rewrite Hsame. exact IH.
Qed.

(** Adding to +0.0 gives back the number, up to the sign of zero. *)
Lemma add_zero_l_eqb (x : float) : (x =? x) = true -> (0.0 + x =? x) = true.
Proof.
  rewrite !FloatAxioms.eqb_spec, FloatAxioms.add_spec.
  change (Prim2SF 0.0) with (S754_zero false).
  destruct (Prim2SF x) as [s | s | | s m e]; simpl; try (intros E; exact E).
  destruct s; reflexivity.
Qed.

Local Close Scope float_scope.

(** ** The acquisition loop *)

Section AcquireFacts.
Context {H : Header} {L : Libm}.

Local Open Scope float_scope.

(** What a frame body that returns has done. *)
Lemma Acquire_frame_inv (fuel : nat) (i : Z) (l l' : AcquireLocals)
    (d d' : ADIS16470_IMU) :
  Acquire_frame fuel i l d = Ret (l', d') ->
  (0 <= i /\ i + dataset_len <= dataset_len * num_buffers)%Z
  /\ exists ax ay cx cy : float,
      (if first_run l then
         ax = raw_accelAngleX l i /\ ay = raw_accelAngleY l i
         /\ cx = ax /\ cy = ay
       else
         ax = FormatAccelRange (raw_accelAngleX l i) (accel_si l i 17)
         /\ ay = FormatAccelRange (raw_accelAngleY l i) (accel_si l i 17)
         /\ CompFilterProcess fuel (m_dt (timed l i d)) (m_alpha (timed l i d))
              (compAngleX l) ax (- gyro_si l i 9) = Ret cx
         /\ CompFilterProcess fuel (m_dt (timed l i d)) (m_alpha (timed l i d))
              (compAngleY l) ay (gyro_si l i 7) = Ret cy)
      /\ l' = {| buffer := buffer l;
                 previous_timestamp := idx (buffer l) i;
                 compAngleX := cx;
                 compAngleY := cy;
                 accelAngleX := ax;
                 accelAngleY := ay;
                 first_run := false |}
      /\ d' = set_guarded
                {| m_integ_angle :=
                     if first_run l then 0.0
                     else m_integ_angle (guarded d) + delta_angle l i;
                   m_gyro_x := double_of_int (BuffToShort (buffer l) (i + 7)) / 10.0;
                   m_gyro_y := double_of_int (BuffToShort (buffer l) (i + 9)) / 10.0;
                   m_gyro_z := double_of_int (BuffToShort (buffer l) (i + 11)) / 10.0;
                   m_accel_x := double_of_int (BuffToShort (buffer l) (i + 13)) / 800.0;
                   m_accel_y := double_of_int (BuffToShort (buffer l) (i + 15)) / 800.0;
                   m_accel_z := double_of_int (BuffToShort (buffer l) (i + 17)) / 800.0;
                   m_compAngleX := cx * rad_to_deg;
                   m_compAngleY := cy * rad_to_deg;
                   m_accelAngleX := ax * rad_to_deg;
                   m_accelAngleY := ay * rad_to_deg |}
                (timed l i d).
Proof.
  unfold Acquire_frame.
  destruct ((0 <=? i)%Z && (i + dataset_len <=? dataset_len * num_buffers)%Z)
    eqn:Hin; cbn [negb]; [| discriminate].
  apply andb_prop in Hin. destruct Hin as [Hlo Hhi].
  apply Z.leb_le in Hlo. apply Z.leb_le in Hhi.
  intros Hr. split; [split; assumption |].
  destruct (first_run l) eqn:Hfirst.
  - cbn [obind] in Hr. injection Hr as <- <-.
    exists (raw_accelAngleX l i), (raw_accelAngleY l i),
           (raw_accelAngleX l i), (raw_accelAngleY l i).
    repeat split; reflexivity.
  - match type of Hr with
    | context [obind (CompFilterProcess ?f ?dt ?al ?c ?a ?w) _] =>
        destruct (CompFilterProcess f dt al c a w) as [cx | |] eqn:Ex;
          cbn [obind] in Hr; try discriminate Hr
    end.
    match type of Hr with
    | context [obind (CompFilterProcess ?f ?dt ?al ?c ?a ?w) _] =>
        destruct (CompFilterProcess f dt al c a w) as [cy | |] eqn:Ey;
          cbn [obind] in Hr; try discriminate Hr
    end.
    injection Hr as <- <-.
    exists (FormatAccelRange (raw_accelAngleX l i) (accel_si l i 17)),
           (FormatAccelRange (raw_accelAngleY l i) (accel_si l i 17)), cx, cy.
    repeat split; first [exact Ex | exact Ey | reflexivity].
Qed.

(** The integrated angle after a frame. *)
Lemma Acquire_frame_integ_angle (fuel : nat) (i : Z) (l l' : AcquireLocals)
    (d d' : ADIS16470_IMU) :
  Acquire_frame fuel i l d = Ret (l', d') ->
  m_integ_angle (guarded d') =
    (if first_run l then 0.0 else m_integ_angle (guarded d) + delta_angle l i)
  /\ first_run l' = false
  /\ previous_timestamp l' = idx (buffer l) i.
Proof.
  intros Hr. apply Acquire_frame_inv in Hr.
  destruct Hr as [_ (ax & ay & cx & cy & _ & -> & ->)].
  repeat split.
Qed.

(** The frame body leaves the buffer and the bus alone. *)
Lemma Acquire_frame_keeps (fuel : nat) (i : Z) (l l' : AcquireLocals)
    (d d' : ADIS16470_IMU) :
  Acquire_frame fuel i l d = Ret (l', d') ->
  buffer l' = buffer l /\ bus d' = bus d.
Proof.
  intros Hr. apply Acquire_frame_inv in Hr.
  destruct Hr as [_ (ax & ay & cx & cy & _ & -> & ->)]. split; reflexivity.
Qed.

(** The first frame runs no filter loop: inside the buffer it returns,
    whatever the fuel. *)
Lemma Acquire_frame_first_returns (fuel : nat) (i : Z) (l : AcquireLocals)
    (d : ADIS16470_IMU) :
  first_run l = true ->
  (0 <= i)%Z -> (i + dataset_len <= dataset_len * num_buffers)%Z ->
  exists (l' : AcquireLocals) (d' : ADIS16470_IMU),
    Acquire_frame fuel i l d = Ret (l', d').
Proof.
  intros Hfirst Hlo Hhi. unfold Acquire_frame.
  replace ((0 <=? i)%Z && (i + dataset_len <=? dataset_len * num_buffers)%Z)
    with true
    by (symmetry; apply andb_true_intro; split; apply Z.leb_le; assumption).
  rewrite Hfirst. cbn [negb obind]. eexists. eexists. reflexivity.
Qed.

(** More fuel does not change what the frame body returns. *)
Lemma Acquire_frame_more_fuel (fuel fuel' : nat) (i : Z) (l l' : AcquireLocals)
    (d d' : ADIS16470_IMU) :
  (fuel <= fuel')%nat ->
  Acquire_frame fuel i l d = Ret (l', d') ->
  Acquire_frame fuel' i l d = Ret (l', d').
Proof.
  intros Hle. unfold Acquire_frame.
  destruct (negb ((0 <=? i)%Z && (i + dataset_len <=? dataset_len * num_buffers)%Z));
    [discriminate |].
  destruct (first_run l); [intros Hr; exact Hr |].
  intros Hr.
  repeat match type of Hr with
  | context [CompFilterProcess fuel ?dt ?al ?c ?a ?w] =>
      let E := fresh "E" in
      destruct (CompFilterProcess fuel dt al c a w) as [? | |] eqn:E;
      cbn [obind] in Hr; try discriminate Hr;
      rewrite (CompFilterProcess_more_fuel fuel fuel' _ _ _ _ _ _ Hle E)
  end.
  exact Hr.
Qed.

(** A poll from a fresh start that finds two data sets runs the frame body
    twice, at offsets 0 and 19, on the words drained. *)
Lemma Acquire_two_frames (fuel : nat) (ws : list Z) (u : AcquireLocals)
    (d : ADIS16470_IMU) (l2 : AcquireLocals) (d2 : ADIS16470_IMU)
    (decoded : list (list Z)) :
  m_freed d = false ->
  length (fifo (bus d) ++ ws) = 38%nat ->
  Acquire fuel [ws] u d = Ret (l2, d2, decoded) ->
  exists (l0 l1 : AcquireLocals) (d0 d1 : ADIS16470_IMU),
    first_run l0 = true
    /\ buffer l0 = (fifo (bus d) ++ ws) ++ skipn 38 (buffer u)
    /\ guarded d0 = guarded d
    /\ Acquire_frame fuel 0 l0 d0 = Ret (l1, d1)
    /\ Acquire_frame fuel 19 l1 d1 = Ret (l2, d2)
    /\ decoded = [[0; 19]]%Z.
Proof.
  intros Hfreed Hlen. unfold Acquire. cbn [Acquire_loop]. rewrite Hfreed.
  unfold Acquire_poll, spi_ReadAutoReceivedData.
  cbn [Z.to_nat skipn fifo bus set_bus arrive].
  rewrite Hlen.
  change (Z.of_nat 38 - Z.rem (Z.of_nat 38) dataset_len)%Z with 38%Z.
  change (Z.to_nat 38) with 38%nat.
  rewrite firstn_all2 by (rewrite Hlen; apply Nat.le_refl).
  unfold store_words. rewrite Hlen.
  change (Z.of_nat 38 <=? dataset_len * num_buffers)%Z with true.
  cbn [obind].
  match goal with
  | |- obind (Acquire_frames _ _ _ _ ?l0 ?d0 _) _ = _ -> _ =>
      set (e0 := l0); set (b0 := d0)
  end.
  cbn [Acquire_frames].
  change (0 <? 38)%Z with true. cbv iota.
  destruct (Acquire_frame fuel 0 e0 b0) as [[l1 d1] | |] eqn:E1;
    cbn [obind]; try discriminate.
  change (0 + dataset_len)%Z with 19%Z.
  change (19 <? 38)%Z with true. cbv iota.
  destruct (Acquire_frame fuel 19 l1 d1) as [[l2' d2'] | |] eqn:E2;
    cbn [obind]; try discriminate.
  change (19 + dataset_len)%Z with 38%Z.
  change (38 <? 38)%Z with false. cbv iota. cbn [obind].
  intros Hr. injection Hr as <- <- <-.
  exists e0, l1, b0, d1. repeat split; assumption.
Qed.

(** C2: the first frame after the loop starts is always processed, sets
    the integrated angle to 0 and does not add its delta angle; every later
    frame adds its scaled delta angle.  So after two frames from a fresh start, be they found by
    one poll or by two, the integrated angle is [0.0 + delta_angle] of the
    second frame, which is that delta angle (as doubles compare, whenever
    it is a number). *)
Theorem integrated_angle_skips_first_frame
    (fuel : nat) (i i1 i2 : Z) (l l' l0 l1 l1' l2 : AcquireLocals)
    (d d' d0 d1 d1' d2 : ADIS16470_IMU)
    (ws : list Z) (u : AcquireLocals) (decoded : list (list Z)) :
  (first_run l = true -> Acquire_frame fuel i l d = Ret (l', d') ->
   m_integ_angle (guarded d') = 0.0 /\ first_run l' = false)
  /\ (first_run l = false -> Acquire_frame fuel i l d = Ret (l', d') ->
      m_integ_angle (guarded d') = m_integ_angle (guarded d) + delta_angle l i
      /\ first_run l' = false)
  /\ (first_run l0 = true ->
      Acquire_frame fuel i1 l0 d0 = Ret (l1, d1) ->
      (* between the two frames a poll may refill the buffer *)
      first_run l1' = first_run l1 ->
      m_integ_angle (guarded d1') = m_integ_angle (guarded d1) ->
      Acquire_frame fuel i2 l1' d1' = Ret (l2, d2) ->
      m_integ_angle (guarded d2) = 0.0 + delta_angle l1' i2
      /\ ((delta_angle l1' i2 =? delta_angle l1' i2) = true ->
          (m_integ_angle (guarded d2) =? delta_angle l1' i2) = true))
  /\ (m_freed d = false -> length (fifo (bus d) ++ ws) = 38%nat ->
      Acquire fuel [ws] u d = Ret (l2, d2, decoded) ->
      exists between : AcquireLocals,
        buffer between = (fifo (bus d) ++ ws) ++ skipn 38 (buffer u)
        /\ previous_timestamp between = idx (buffer between) 0
        /\ m_integ_angle (guarded d2) = 0.0 + delta_angle between 19
        /\ ((delta_angle between 19 =? delta_angle between 19) = true ->
            (m_integ_angle (guarded d2) =? delta_angle between 19) = true))
  /\ (first_run l = true ->
      (0 <= i)%Z -> (i + dataset_len <= dataset_len * num_buffers)%Z ->
      exists (after : AcquireLocals) (published : ADIS16470_IMU),
        Acquire_frame fuel i l d = Ret (after, published)
        /\ m_integ_angle (guarded published) = 0.0).
Proof.
  assert (Htwo : forall a0 a1 a2 b0 b1 b2 j1 j2,
            first_run a0 = true ->
            Acquire_frame fuel j1 a0 b0 = Ret (a1, b1) ->
            Acquire_frame fuel j2 a1 b1 = Ret (a2, b2) ->
            m_integ_angle (guarded b2) = 0.0 + delta_angle a1 j2).
  { intros a0 a1 a2 b0 b1 b2 j1 j2 Hfirst Hr1 Hr2.
    apply Acquire_frame_integ_angle in Hr1, Hr2.
    rewrite Hfirst in Hr1. destruct Hr1 as (Hzero & Hnot & _).
    rewrite Hnot, Hzero in Hr2. destruct Hr2 as (-> & _). reflexivity. }
  split; [| split; [| split; [| split]]].
  - intros Hfirst Hr. apply Acquire_frame_integ_angle in Hr.
    rewrite Hfirst in Hr. destruct Hr as (-> & -> & _). split; reflexivity.
  - intros Hfirst Hr. apply Acquire_frame_integ_angle in Hr.
    rewrite Hfirst in Hr. destruct Hr as (-> & -> & _). split; reflexivity.
  - intros Hfirst Hr1 Hsame Hinteg Hr2.
    apply Acquire_frame_integ_angle in Hr1, Hr2.
    rewrite Hfirst in Hr1. destruct Hr1 as (Hzero & Hnot & _).
    rewrite Hsame, Hnot, Hinteg, Hzero in Hr2. destruct Hr2 as (-> & _).
    split; [reflexivity | apply add_zero_l_eqb].
  - intros Hfreed Hlen Hrun.
    destruct (Acquire_two_frames _ _ _ _ _ _ _ Hfreed Hlen Hrun)
      as (a0 & a1 & b0 & b1 & Hfirst & Hbuf & _ & Hr1 & Hr2 & _).
    exists a1.
    pose proof (Htwo _ _ _ _ _ _ _ _ Hfirst Hr1 Hr2) as Hsum.
    pose proof (Acquire_frame_keeps _ _ _ _ _ _ Hr1) as [Hkeep _].
    pose proof (Acquire_frame_integ_angle _ _ _ _ _ _ Hr1) as (_ & _ & Hprev).
    repeat split.
    + rewrite Hkeep. exact Hbuf.
    + rewrite Hkeep. exact Hprev.
    + exact Hsum.
    + rewrite Hsum. apply add_zero_l_eqb.
  - intros Hfirst Hlo Hhi.
    destruct (Acquire_frame_first_returns fuel i l d Hfirst Hlo Hhi)
      as (after & published & Hr).
    exists after, published. split; [exact Hr |].
    apply Acquire_frame_integ_angle in Hr. rewrite Hfirst in Hr.
    destruct Hr as (-> & _). reflexivity.
Qed.

Local Close Scope float_scope.

(** The four bytes of the delta angle, joined by [ToInt]. *)
Lemma lor_mul_pow2_low (hi lo n : Z) :
  (0 <= n -> 0 <= lo < 2 ^ n -> Z.lor (hi * 2 ^ n) lo = hi * 2 ^ n + lo)%Z.
Proof.
  intros Hn Hlo. rewrite <- (lor_shiftl_low hi lo n) by assumption.
  rewrite Z.shiftl_mul_pow2 by assumption. reflexivity.
Qed.

Lemma ToInt_bytes (buf : list Z) (off : Z) :
  (0 <= idx buf off < 256 -> 0 <= idx buf (off + 1) < 256 ->
   0 <= idx buf (off + 2) < 256 -> 0 <= idx buf (off + 3) < 256 ->
   ToInt buf off =
     int32_of_bytes (idx buf off) (idx buf (off + 1))
                    (idx buf (off + 2)) (idx buf (off + 3)))%Z.
Proof.
  intros H0 H1 H2 H3. unfold ToInt, int32_of_bytes, int32_t, swrap, uint32_t, wrap.
  set (b0 := idx buf off) in *. set (b1 := idx buf (off + 1)) in *.
  set (b2 := idx buf (off + 2)) in *. set (b3 := idx buf (off + 3)) in *.
  rewrite (Z.shiftl_mul_pow2 b0 24), (Z.shiftl_mul_pow2 b1 16),
    (Z.shiftl_mul_pow2 b2 8) by lia.
  change (2 ^ 24)%Z with 16777216%Z. change (2 ^ 16)%Z with 65536%Z.
  change (2 ^ 8)%Z with 256%Z. change (2 ^ 32)%Z with 4294967296%Z.
  change (2 ^ (32 - 1))%Z with 2147483648%Z. change (2 ^ 31)%Z with 2147483648%Z.
  rewrite (Z.mod_small (b0 * 16777216)), (Z.mod_small (b1 * 65536)),
    (Z.mod_small (b2 * 256)) by lia.
  replace (Z.lor (b0 * 16777216) (b1 * 65536))%Z
    with (b0 * 16777216 + b1 * 65536)%Z
    by (symmetry; apply (lor_mul_pow2_low b0 (b1 * 65536) 24); lia).
  replace (Z.lor (b0 * 16777216 + b1 * 65536) (b2 * 256))%Z
    with (b0 * 16777216 + b1 * 65536 + b2 * 256)%Z
    by (symmetry;
        replace (b0 * 16777216 + b1 * 65536)%Z with ((b0 * 256 + b1) * 2 ^ 16)%Z by lia;
        apply (lor_mul_pow2_low (b0 * 256 + b1) (b2 * 256) 16); lia).
  replace (Z.lor (b0 * 16777216 + b1 * 65536 + b2 * 256) b3)%Z
    with (b0 * 16777216 + b1 * 65536 + b2 * 256 + b3)%Z
    by (symmetry;
        replace (b0 * 16777216 + b1 * 65536 + b2 * 256)%Z
          with ((b0 * 65536 + b1 * 256 + b2) * 2 ^ 8)%Z by lia;
        apply (lor_mul_pow2_low (b0 * 65536 + b1 * 256 + b2) b3 8); lia).
  rewrite Z.mod_small by lia. reflexivity.
Qed.

Local Open Scope float_scope.

(** C3: for a decoded frame with timestamp [ts] at [buffer[i]] and previous
    timestamp [prev], [m_dt] is the elapsed time over 1e6 and the angle
    added is [deltaAngleRaw * delta_angle_sf / (500 / elapsed)], with the
    elapsed time the 32-bit difference of the timestamps ([ts - prev] when
    the counter has not wrapped) and [deltaAngleRaw] the big-endian signed
    join of the four bytes at [i + 3 .. i + 6]. *)
Theorem scaled_delta_angle_and_dt
    (fuel : nat) (i : Z) (l l' : AcquireLocals) (d d' : ADIS16470_IMU) :
  Acquire_frame fuel i l d = Ret (l', d') ->
  m_dt d' =
    double_of_uint32 (uint32_t (idx (buffer l) i - previous_timestamp l)) / 1000000.0
  /\ (first_run l = false ->
      m_integ_angle (guarded d') =
        m_integ_angle (guarded d)
        + double_of_int (ToInt (buffer l) (i + 3)) * delta_angle_sf
          / (500.0 / double_of_uint32
                       (uint32_t (idx (buffer l) i - previous_timestamp l))))
  /\ ((0 <= previous_timestamp l <= idx (buffer l) i)%Z ->
      (idx (buffer l) i < 2 ^ 32)%Z ->
      m_dt d' = spec_dt (idx (buffer l) i) (previous_timestamp l)
      /\ ((0 <= idx (buffer l) (i + 3) < 256)%Z ->
          (0 <= idx (buffer l) (i + 3 + 1) < 256)%Z ->
          (0 <= idx (buffer l) (i + 3 + 2) < 256)%Z ->
          (0 <= idx (buffer l) (i + 3 + 3) < 256)%Z ->
          delta_angle l i =
            spec_scaled_delta_angle
              (int32_of_bytes (idx (buffer l) (i + 3)) (idx (buffer l) (i + 3 + 1))
                              (idx (buffer l) (i + 3 + 2)) (idx (buffer l) (i + 3 + 3)))
              (idx (buffer l) i) (previous_timestamp l)
          /\ (first_run l = false ->
              m_integ_angle (guarded d') =
                m_integ_angle (guarded d) + delta_angle l i))).
Proof.
  intros Hr.
  pose proof (Acquire_frame_integ_angle _ _ _ _ _ _ Hr) as (Hinteg & _ & _).
  apply Acquire_frame_inv in Hr.
  destruct Hr as [_ (ax & ay & cx & cy & _ & _ & ->)].
  split; [reflexivity |].
  split; [intros Hnot; rewrite Hinteg, Hnot; reflexivity |].
  intros Hord Hts.
  assert (Hel : uint32_t (idx (buffer l) i - previous_timestamp l)
                = (idx (buffer l) i - previous_timestamp l)%Z).
  { unfold uint32_t, wrap. apply Z.mod_small. lia. }
  split.
  - unfold spec_dt. rewrite <- Hel. reflexivity.
  - intros H0 H1 H2 H3. split.
    + unfold delta_angle, spec_scaled_delta_angle, elapsed.
      rewrite Hel, ToInt_bytes by assumption. reflexivity.
    + intros Hnot. rewrite Hinteg, Hnot. reflexivity.
Qed.

(** C8, as amended: on every frame but the first the accel angle of each
    axis goes through [FormatAccelRange] before it is published and fed to
    the filter; on the first frame the angle [atan2f] returned is published
    and seeds the complementary angle as it is. *)
Theorem accel_angle_range_correction
    (fuel : nat) (i : Z) (l l' : AcquireLocals) (d d' : ADIS16470_IMU) :
  Acquire_frame fuel i l d = Ret (l', d') ->
  (first_run l = true ->
   m_accelAngleX (guarded d') = raw_accelAngleX l i * rad_to_deg
   /\ m_accelAngleY (guarded d') = raw_accelAngleY l i * rad_to_deg
   /\ compAngleX l' = raw_accelAngleX l i
   /\ compAngleY l' = raw_accelAngleY l i)
  /\ (first_run l = false ->
      m_accelAngleX (guarded d')
        = FormatAccelRange (raw_accelAngleX l i) (accel_si l i 17) * rad_to_deg
      /\ m_accelAngleY (guarded d')
        = FormatAccelRange (raw_accelAngleY l i) (accel_si l i 17) * rad_to_deg
      /\ CompFilterProcess fuel (m_dt d') (m_alpha d') (compAngleX l)
           (FormatAccelRange (raw_accelAngleX l i) (accel_si l i 17))
           (- gyro_si l i 9) = Ret (compAngleX l')
      /\ CompFilterProcess fuel (m_dt d') (m_alpha d') (compAngleY l)
           (FormatAccelRange (raw_accelAngleY l i) (accel_si l i 17))
           (gyro_si l i 7) = Ret (compAngleY l'))
  /\ (forall accelAngle accelZ : float,
        FormatAccelRange accelAngle accelZ =
          if accelZ <? 0.0 then M_PI - accelAngle
          else if (accelZ >? 0.0) && (accelAngle <? 0.0)
               then 2.0 * M_PI + accelAngle
               else accelAngle).
Proof.
  intros Hr. apply Acquire_frame_inv in Hr.
  destruct Hr as [_ (ax & ay & cx & cy & Hcase & -> & ->)].
  split; [| split].
  - intros Hfirst. rewrite Hfirst in Hcase.
    destruct Hcase as (-> & -> & -> & ->). repeat split.
  - intros Hnot. rewrite Hnot in Hcase.
    destruct Hcase as (-> & -> & Hx & Hy). repeat split; assumption.
  - intros accelAngle accelZ. reflexivity.
Qed.

Local Close Scope float_scope.

(** *** The loop over the data sets *)

Lemma range_down_in_bounds (fuel : nat) (x : float) :
  range_down fuel x <> OutOfBounds.
Proof.
  revert x. induction fuel as [| fuel IH]; intros x; cbn [range_down];
    destruct (x >=? 2 * M_PI)%float; try discriminate. apply IH.
Qed.

Lemma range_up_in_bounds (fuel : nat) (x : float) :
  range_up fuel x <> OutOfBounds.
Proof.
  revert x. induction fuel as [| fuel IH]; intros x; cbn [range_up];
    destruct (x <? 0.0)%float; try discriminate. apply IH.
Qed.

Lemma CompFilterProcess_in_bounds (fuel : nat) (dt alpha c a w : float) :
  CompFilterProcess fuel dt alpha c a w <> OutOfBounds.
Proof.
  unfold CompFilterProcess, FormatRange0to2PI.
  match goal with |- obind (range_down ?f ?x) _ <> _ =>
    pose proof (range_down_in_bounds f x) as Hd;
    destruct (range_down f x) as [y | |] end; cbn [obind].
  - apply range_up_in_bounds.
  - discriminate.
  - exact Hd.
Qed.

(** A frame that lies inside the buffer is decoded without a stray
    access. *)
Lemma Acquire_frame_in_bounds (fuel : nat) (i : Z) (l : AcquireLocals)
    (d : ADIS16470_IMU) :
  0 <= i -> i + dataset_len <= dataset_len * num_buffers ->
  Acquire_frame fuel i l d <> OutOfBounds.
Proof.
  intros Hlo Hhi. unfold Acquire_frame.
  replace ((0 <=? i) && (i + dataset_len <=? dataset_len * num_buffers))
    with true
    by (symmetry; apply andb_true_intro; split; apply Z.leb_le; assumption).
  cbn [negb]. destruct (first_run l); cbn [obind]; [discriminate |].
  repeat match goal with
  | |- context [CompFilterProcess ?f ?dt ?al ?c ?a ?w] =>
      let Hc := fresh "Hc" in
      pose proof (CompFilterProcess_in_bounds f dt al c a w) as Hc;
      destruct (CompFilterProcess f dt al c a w) as [? | |]; cbn [obind]
  end; congruence.
Qed.

Lemma offsets_S (i : Z) (k : nat) :
  offsets i (S k) = i :: offsets (i + dataset_len) k.
Proof.
  unfold offsets. cbn [seq map]. f_equal; [lia |].
  rewrite <- seq_shift, map_map. apply map_ext. intros j. lia.
Qed.

(** The frame body runs out of fuel only in a filter loop, so never on the
    first frame. *)
Lemma Acquire_frame_OutOfFuel (fuel : nat) (i : Z) (l : AcquireLocals)
    (d : ADIS16470_IMU) :
  Acquire_frame fuel i l d = OutOfFuel ->
  first_run l = false
  /\ exists dt alpha c a w : float,
       CompFilterProcess fuel dt alpha c a w = OutOfFuel.
Proof.
  unfold Acquire_frame.
  destruct (negb ((0 <=? i) && (i + dataset_len <=? dataset_len * num_buffers)));
    [discriminate |].
  destruct (first_run l); cbn [obind]; [discriminate |].
  intros Hr. split; [reflexivity |].
  repeat match type of Hr with
  | context [CompFilterProcess ?f ?dt ?al ?c ?a ?w] =>
      let E := fresh "E" in
      destruct (CompFilterProcess f dt al c a w) as [? | |] eqn:E;
      cbn [obind] in Hr;
      [| exists dt, al, c, a, w; exact E | discriminate Hr]
  end.
  discriminate Hr.
Qed.

(** With [k] whole data sets left the loop handles exactly those, in
    order, unless the body of one of them runs out of fuel. *)
Lemma Acquire_frames_decoded (k : nat) :
  forall (steps fuel : nat) (i : Z) (l : AcquireLocals) (d : ADIS16470_IMU)
         (decoded : list Z),
    0 <= i -> i + dataset_len * Z.of_nat k <= dataset_len * num_buffers ->
    (k <= steps)%nat ->
    match Acquire_frames steps fuel i (i + dataset_len * Z.of_nat k) l d decoded with
    | Ret (l', d', decoded') =>
        decoded' = decoded ++ offsets i k
        /\ buffer l' = buffer l /\ bus d' = bus d
    | OutOfFuel =>
        exists (j : Z) (lj : AcquireLocals) (dj : ADIS16470_IMU),
          In j (offsets i k) /\ Acquire_frame fuel j lj dj = OutOfFuel
    | OutOfBounds => False
    end.
Proof.
  unfold dataset_len at 1 2 3.
  induction k as [| k IH]; intros steps fuel i l d decoded Hi Hfit Hsteps.
  - destruct steps; cbn [Acquire_frames];
      (replace (i <? i + 19 * Z.of_nat 0) with false
         by (symmetry; apply Z.ltb_ge; lia));
      rewrite app_nil_r; auto.
  - destruct steps as [| steps]; [lia |]. cbn [Acquire_frames].
    replace (i <? i + 19 * Z.of_nat (S k)) with true
      by (symmetry; apply Z.ltb_lt; lia).
    pose proof (Acquire_frame_in_bounds fuel i l d Hi) as Hin.
    destruct (Acquire_frame fuel i l d) as [[l1 d1] | |] eqn:Ef; cbn [obind].
    + apply Acquire_frame_keeps in Ef. destruct Ef as [Hbuf Hbus].
      replace (i + 19 * Z.of_nat (S k)) with (i + dataset_len + 19 * Z.of_nat k)
        by (unfold dataset_len; lia).
      specialize (IH steps fuel (i + dataset_len) l1 d1 (decoded ++ [i])).
      destruct (Acquire_frames steps fuel (i + dataset_len) _ l1 d1 _)
        as [[[l' d'] decoded'] | |].
      * destruct IH as (-> & -> & ->); [unfold dataset_len; lia .. |].
        rewrite offsets_S, <- app_assoc, Hbuf, Hbus. auto.
      * destruct IH as (j & lj & dj & Hj & Hout); [unfold dataset_len; lia .. |].
        exists j, lj, dj. split; [| exact Hout].
        rewrite offsets_S. right. exact Hj.
      * apply IH; unfold dataset_len; lia.
    + exists i, l, d. split; [| exact Ef]. rewrite offsets_S. left. reflexivity.
    + apply Hin; [unfold dataset_len, num_buffers in *; lia | reflexivity].
Qed.

(** One poll with room for what it drains: the whole data sets are
    decoded, and only they; the rest stays in the transport. *)
Lemma Acquire_poll_aligned (fuel : nat) (l : AcquireLocals) (d : ADIS16470_IMU) :
  let N := Z.of_nat (length (fifo (bus d))) in
  N - N mod 19 <= dataset_len * num_buffers ->
  match Acquire_poll fuel l d with
  | Ret (l', d', decoded) =>
      decoded = offsets 0 (Z.to_nat (N / 19))
      /\ Forall (fun j => 0 <= j /\ j + dataset_len <= N - N mod 19) decoded
      /\ fifo (bus d') = skipn (Z.to_nat (N - N mod 19)) (fifo (bus d))
      /\ Z.of_nat (length (fifo (bus d'))) = N mod 19
      /\ firstn (Z.to_nat (N - N mod 19)) (buffer l')
         = firstn (Z.to_nat (N - N mod 19)) (fifo (bus d))
  | OutOfFuel =>
      exists (j : Z) (lj : AcquireLocals) (dj : ADIS16470_IMU),
        In j (offsets 0 (Z.to_nat (N / 19)))
        /\ Acquire_frame fuel j lj dj = OutOfFuel
  | OutOfBounds => False
  end.
Proof.
  intros N Hroom. unfold Acquire_poll, spi_ReadAutoReceivedData.
  cbn [fifo Z.to_nat skipn]. fold N.
  assert (HN : 0 <= N) by (unfold N; lia).
  rewrite Z.rem_mod_nonneg by (unfold dataset_len; lia).
  change (N mod dataset_len) with (N mod 19).
  set (n := N - N mod 19) in *.
  pose proof (Z.mod_pos_bound N 19 ltac:(lia)) as Hmod.
  pose proof (Z.div_mod N 19 ltac:(lia)) as Hdiv.
  assert (Hn : n = 0 + dataset_len * Z.of_nat (Z.to_nat (N / 19))).
  { unfold dataset_len, n. rewrite Z2Nat.id by (apply Z.div_pos; lia). lia. }
  assert (Hlen : length (firstn (Z.to_nat n) (fifo (bus d))) = Z.to_nat n).
  { apply firstn_length_le. unfold n, N in *. lia. }
  unfold store_words. rewrite Hlen.
  replace (Z.of_nat (Z.to_nat n) <=? dataset_len * num_buffers) with true
    by (symmetry; apply Z.leb_le; unfold n in *; lia).
  cbn [obind].
  match goal with
  | |- match Acquire_frames ?s ?f ?i ?m ?l0 ?d0 ?dec with _ => _ end =>
      pose proof (Acquire_frames_decoded (Z.to_nat (N / 19)) s f i l0 d0 dec) as HF;
      rewrite <- Hn in HF;
      destruct (Acquire_frames s f i m l0 d0 dec) as [[[l' d'] decoded] | |]
  end.
  - destruct HF as (-> & Hbuf & Hbus);
      [lia | unfold n in *; lia
       | unfold n, dataset_len in *; lia |].
    rewrite Hbus, Hbuf. unfold set_bus. cbn [bus fifo buffer].
    repeat split.
    + apply Forall_forall. intros j Hj. unfold offsets in Hj.
      apply in_map_iff in Hj. destruct Hj as (m & <- & Hm).
      apply in_seq in Hm. unfold dataset_len in *. lia.
    + rewrite length_skipn. unfold n, N in *. lia.
    + rewrite firstn_app, Hlen, Nat.sub_diag, firstn_O, app_nil_r.
      apply firstn_all2. rewrite Hlen. lia.
  - apply HF; [lia | unfold n in *; lia | unfold n, dataset_len in *; lia].
  - apply HF; [lia | unfold n in *; lia | unfold n, dataset_len in *; lia].
Qed.

(** One poll that finds more whole data sets than the buffer holds: the
    drain writes past the end of [buffer]. *)
Lemma Acquire_poll_overrun (fuel : nat) (l : AcquireLocals) (d : ADIS16470_IMU) :
  let N := Z.of_nat (length (fifo (bus d))) in
  dataset_len * num_buffers < N - N mod 19 ->
  Acquire_poll fuel l d = OutOfBounds.
Proof.
  intros N Hover. unfold Acquire_poll, spi_ReadAutoReceivedData.
  cbn [fifo Z.to_nat skipn]. fold N.
  rewrite Z.rem_mod_nonneg by (unfold dataset_len, N; lia).
  change (N mod dataset_len) with (N mod 19).
  pose proof (Z.mod_pos_bound N 19 ltac:(lia)) as Hmod.
  assert (Hlen : length (firstn (Z.to_nat (N - N mod 19)) (fifo (bus d)))
                 = Z.to_nat (N - N mod 19)).
  { apply firstn_length_le. unfold N in *. lia. }
  unfold store_words. rewrite Hlen.
  replace (Z.of_nat (Z.to_nat (N - N mod 19)) <=? dataset_len * num_buffers)
    with false
    by (symmetry; apply Z.leb_gt; unfold dataset_len, num_buffers in *; lia).
  reflexivity.
Qed.

End AcquireFacts.

(** * The theorems at work on the sample data *)

#[local] Existing Instance sample_header.
#[local] Existing Instance sample_libm.

Lemma level1_run :
  Acquire_frame 10 0 (fst level0) (snd level0) = Ret (fst level1, snd level1).
Proof. vm_compute. reflexivity. Qed.

Lemma level2_run :
  Acquire_frame 10 19 (fst level1) (snd level1) = Ret (fst level2, snd level2).
Proof. vm_compute. reflexivity. Qed.

Lemma level_poll_run :
  Acquire 10 [frame_a ++ frame_b] sample_locals sample_imu
  = Ret (fst (fst level_poll), snd (fst level_poll), snd level_poll).
Proof. vm_compute. reflexivity. Qed.

Lemma turned1_run :
  Acquire_frame 10 0 (fst turned0) (snd turned0) = Ret (fst turned1, snd turned1).
Proof. vm_compute. reflexivity. Qed.

Lemma turned2_run :
  Acquire_frame 10 19 (fst turned1) (snd turned1) = Ret (fst turned2, snd turned2).
Proof. vm_compute. reflexivity. Qed.

Lemma down1_run :
  Acquire_frame 10 0 (fst down0) (snd down0) = Ret (fst down1, snd down1).
Proof. vm_compute. reflexivity. Qed.

(** C1 at a word count the code can meet: with 589 words buffered, which
    are 31 whole data sets, the poll asks the transport for all 589 and
    has them written into a buffer of 570 words. *)
Theorem Acquire_poll_589_words_overrun (fuel : nat) (l : AcquireLocals) :
  Z.of_nat (length (fifo (bus overfull_imu))) = 589
  /\ 589 - 589 mod dataset_len = 589
  /\ dataset_len * num_buffers = 570
  /\ Acquire_poll fuel l overfull_imu = OutOfBounds.
Proof.
  split; [reflexivity |]. split; [reflexivity |]. split; [reflexivity |].
  apply Acquire_poll_overrun. vm_compute. reflexivity.
Qed.

(** With 588 words buffered the same poll decodes 30 data sets and leaves
    18 words in the transport. *)
Example Acquire_poll_588_words :
  match Acquire_poll 10 (Acquire_entry sample_locals)
          (set_bus (arrive (repeat 0 588) (bus sample_imu)) sample_imu) with
  | Ret (_, d, decoded) =>
      decoded = offsets 0 30 /\ length (fifo (bus d)) = 18%nat
  | _ => False
  end.
Proof. vm_compute. split; reflexivity. Qed.

Lemma WriteRegister_two_writes_witness :
  0 <= 0x66 < 128 /\ 0 <= 0xBEEF < 65536
  /\ wire (bus (snd (WriteRegister 0x66 0xBEEF sample_imu))) =
       wire (bus sample_imu) ++ [Write [Z.lor 0x80 0x66; 0xBEEF mod 256];
                                 Write [Z.lor 0x81 0x66; 0xBEEF / 256]]
  /\ (Z.even 0x66 = true -> Z.lor 0x81 0x66 = Z.lor 0x80 (0x66 + 1)).
Proof.
  split; [lia |]. split; [lia |].
  apply (WriteRegister_two_writes sample_imu 0x66 0xBEEF); lia.
Defined.

(** C4 as stated fails at the odd address 0x01: the second write goes out
    under the address byte 0x81 again, not under [0x80 | (0x01 + 1)]. *)
Lemma WriteRegister_odd_address_counterexample :
  wire (bus (snd (WriteRegister 0x01 0xBEEF sample_imu))) =
    [Write [0x81; 0xEF]; Write [0x81; 0xBE]]
  /\ wire (bus (snd (WriteRegister 0x01 0xBEEF sample_imu))) <>
       wire (bus sample_imu) ++ [Write [Z.lor 0x80 0x01; 0xBEEF mod 256];
                                 Write [Z.lor 0x80 (0x01 + 1); 0xBEEF / 256]].
Proof.
  split.
  - vm_compute. reflexivity.
  - vm_compute. intros E. discriminate E.
Qed.

Lemma WriteRegister_ReadRegister_roundtrip_witness :
  valid_register 0x66 = true /\ 0 <= 0xBEEF < 65536
  /\ fst (ReadRegister 0x66 (snd (WriteRegister 0x66 0xBEEF sample_imu))) = 0xBEEF
  /\ wire (bus (snd (ReadRegister 0x66 (snd (WriteRegister 0x66 0xBEEF sample_imu))))) =
       wire (bus (snd (WriteRegister 0x66 0xBEEF sample_imu)))
         ++ [Write [Z.land 0x66 0x7f; 0]; Read false 2].
Proof.
  split; [reflexivity |]. split; [lia |].
  apply (WriteRegister_ReadRegister_roundtrip sample_imu 0x66 0xBEEF);
    [reflexivity | lia].
Defined.

(** At an odd address the two bytes land on one register byte and the
    value does not come back. *)
Example WriteRegister_ReadRegister_odd_address :
  fst (ReadRegister 0x65 (snd (WriteRegister 0x65 0xBEEF sample_imu))) = 0xBE.
Proof. vm_compute. reflexivity. Qed.

Lemma SetYawAxis_ConfigCalTime_codes_witness :
  SetYawAxis kZ sample_imu = (1, sample_imu)
  /\ ConfigCalTime 7 sample_imu = (1, sample_imu)
  /\ fst (SetYawAxis kX absent_imu) = 2
  /\ fst (ConfigCalTime 5 absent_imu) = 2.
Proof.
  destruct (SetYawAxis_ConfigCalTime_codes sample_imu kZ 7) as (Hyaw & _ & Hcal & _).
  destruct (SetYawAxis_ConfigCalTime_codes absent_imu kX 5) as (_ & Hyaw2 & _ & Hcal2).
  split; [apply Hyaw; reflexivity |].
  split; [apply Hcal; reflexivity |].
  split.
  - rewrite Hyaw2; [reflexivity | discriminate | vm_compute; reflexivity].
  - rewrite Hcal2; [reflexivity | discriminate | vm_compute; reflexivity].
Defined.

Local Open Scope float_scope.

(** C6 as stated fails at [compAngle = 100], [accAngle = 0]: after its one
    shift the result, 100 - 2 pi, is still more than pi away from 0. *)
Lemma FormatFastConverge_counterexample :
  FormatFastConverge 100 0 = 100 - 2.0 * M_PI
  /\ (abs (FormatFastConverge 100 0 - 0) <? M_PI) = false
  /\ (93 <? abs (FormatFastConverge 100 0 - 0)) = true.
Proof. vm_compute. repeat split. Qed.

Lemma FormatFastConverge_one_shift_witness :
  ((- M_PI <=? 6) = true /\ (6 <=? 2 * M_PI) = true
   /\ (- M_PI <=? 0.5) = true /\ (0.5 <=? 2 * M_PI) = true)
  /\ FormatFastConverge 6 0.5 = 6 - 2.0 * M_PI
  /\ (abs (FormatFastConverge 6 0.5 - 0.5) <=? M_PI + 0x1p-49) = true.
Proof.
  split; [repeat split; reflexivity |].
  split; [reflexivity |].
  apply (FormatFastConverge_one_shift 6 0.5); reflexivity.
Defined.

(** Inside the range the distance can pass [pi] by a rounding: nothing
    is shifted here, [accAngle + pi] having rounded up to [compAngle]. *)
Example FormatFastConverge_past_pi :
  (0 <=? 0x1.116cb0bd761d7p+1) = true
  /\ (0x1.51c63300dc778p+2 <=? 2 * M_PI) = true
  /\ FormatFastConverge 0x1.116cb0bd761d7p+1 0x1.51c63300dc778p+2
     = 0x1.116cb0bd761d7p+1
  /\ (M_PI <? abs (FormatFastConverge 0x1.116cb0bd761d7p+1 0x1.51c63300dc778p+2
                   - 0x1.51c63300dc778p+2)) = true.
Proof. vm_compute. repeat split. Qed.

(** At the boundary: angles exactly pi apart are left alone, and the
    distance stays pi. *)
Example FormatFastConverge_at_pi :
  FormatFastConverge M_PI 0 = M_PI
  /\ (abs (FormatFastConverge M_PI 0 - 0) <? M_PI) = false.
Proof. vm_compute. repeat split. Qed.



Lemma integrated_angle_skips_first_frame_witness :
  m_integ_angle (guarded (snd level1)) = 0.0
  /\ m_integ_angle (guarded (snd level2)) = 0.0 + delta_angle (fst level1) 19
  /\ (m_integ_angle (guarded (snd level2)) =? delta_angle (fst level1) 19) = true
  /\ m_integ_angle (guarded (snd level2)) = 0.1318359375
  /\ (exists between : AcquireLocals,
        buffer between = (frame_a ++ frame_b) ++ skipn 38 (buffer sample_locals)
        /\ previous_timestamp between = idx (buffer between) 0
        /\ m_integ_angle (guarded (snd (fst level_poll)))
           = 0.0 + delta_angle between 19
        /\ ((delta_angle between 19 =? delta_angle between 19) = true ->
            (m_integ_angle (guarded (snd (fst level_poll)))
             =? delta_angle between 19) = true))
  /\ m_integ_angle (guarded (snd (fst level_poll))) = 0.1318359375.
Proof.
  destruct (integrated_angle_skips_first_frame 10 0 0 19
              (fst level0) (fst level1) (fst level0) (fst level1) (fst level1)
              (fst level2)
              (snd level0) (snd level1) (snd level0) (snd level1) (snd level1)
              (snd level2) [] (fst level0) [])
    as (Hfirst & _ & Htwo & _).
  destruct (integrated_angle_skips_first_frame 10 0 0 19
              (fst level0) (fst level1) (fst level0) (fst level1) (fst level1)
              (fst (fst level_poll))
              sample_imu (snd level1) (snd level0) (snd level1) (snd level1)
              (snd (fst level_poll)) (frame_a ++ frame_b) sample_locals
              (snd level_poll))
    as (_ & _ & _ & Hpoll & _).
  specialize (Hfirst eq_refl level1_run).
  specialize (Htwo eq_refl level1_run eq_refl eq_refl level2_run).
  specialize (Hpoll eq_refl eq_refl level_poll_run).
  destruct Hfirst as [Hzero _]. destruct Htwo as [Hsum Heq].
  split; [exact Hzero |]. split; [exact Hsum |].
  split; [apply Heq; vm_compute; reflexivity |].
  split; [vm_compute; reflexivity |].
  split; [exact Hpoll |].
  vm_compute. reflexivity.
Defined.

(** The second frame may arrive in pieces: the words left over by one poll
    are decoded with the rest on the next. *)
Example Acquire_frame_split_over_two_polls :
  match Acquire 10 [frame_a ++ firstn 2 frame_b; skipn 2 frame_b]
          sample_locals sample_imu with
  | Ret (_, d, decoded) =>
      decoded = [[0]; [0]]%Z
      /\ fifo (bus d) = []
      /\ m_integ_angle (guarded d) = 0.1318359375
  | _ => False
  end.
Proof. vm_compute. repeat split. Qed.

Lemma scaled_delta_angle_and_dt_witness :
  m_dt (snd level2) = spec_dt 1500 1000
  /\ delta_angle (fst level1) 19
     = spec_scaled_delta_angle (int32_of_bytes 0 2 0 0) 1500 1000
  /\ m_integ_angle (guarded (snd level2))
     = m_integ_angle (guarded (snd level1)) + delta_angle (fst level1) 19.
Proof.
  destruct (scaled_delta_angle_and_dt 10 19 (fst level1) (fst level2)
              (snd level1) (snd level2) level2_run) as (_ & _ & Hspec).
  assert (Hord : (0 <= previous_timestamp (fst level1)
                  <= idx (buffer (fst level1)) 19)%Z)
    by (change (0 <= 1000 <= 1500)%Z; lia).
  assert (Hts : (idx (buffer (fst level1)) 19 < 2 ^ 32)%Z)
    by (change (1500 < 2 ^ 32)%Z; lia).
  destruct (Hspec Hord Hts) as [Hdt Hbytes].
  destruct Hbytes as [Hdelta Hinteg];
    [change (0 <= 0 < 256)%Z; lia | change (0 <= 2 < 256)%Z; lia
     | change (0 <= 0 < 256)%Z; lia | change (0 <= 0 < 256)%Z; lia |].
  split; [exact Hdt |]. split; [exact Hdelta |].
  apply Hinteg. reflexivity.
Defined.

Lemma accel_angle_range_correction_witness :
  (* first frame, level: published as atan2f returned it *)
  m_accelAngleX (guarded (snd turned1)) = raw_accelAngleX (fst turned0) 0 * rad_to_deg
  (* second frame, upside down: reflected to pi *)
  /\ (accel_si (fst turned1) 19 17 <? 0.0) = true
  /\ m_accelAngleX (guarded (snd turned2))
     = FormatAccelRange (raw_accelAngleX (fst turned1) 19)
         (accel_si (fst turned1) 19 17) * rad_to_deg
  /\ m_accelAngleX (guarded (snd turned2)) = M_PI * rad_to_deg.
Proof.
  destruct (accel_angle_range_correction 10 0 (fst turned0) (fst turned1)
              (snd turned0) (snd turned1) turned1_run) as (Hfirst & _ & _).
  destruct (accel_angle_range_correction 10 19 (fst turned1) (fst turned2)
              (snd turned1) (snd turned2) turned2_run) as (_ & Hlater & _).
  destruct (Hfirst eq_refl) as (Hx1 & _).
  destruct (Hlater eq_refl) as (Hx2 & _).
  split; [exact Hx1 |]. split; [vm_compute; reflexivity |].
  split; [exact Hx2 |]. vm_compute. reflexivity.
Defined.

(** C8 as stated fails on the first frame: with the device upside down
    (accel Z below 0) the angle published is the one [atan2f] returned, 0,
    where [FormatAccelRange] would have given pi (180 degrees); the
    complementary angle is seeded with that same 0. *)
Lemma first_frame_not_range_corrected_counterexample :
  Acquire_frame 10 0 (fst down0) (snd down0) = Ret (fst down1, snd down1)
  /\ first_run (fst down0) = true
  /\ (accel_si (fst down0) 0 17 <? 0.0) = true
  /\ m_accelAngleX (guarded (snd down1)) = 0.0
  /\ compAngleX (fst down1) = 0.0
  /\ FormatAccelRange (raw_accelAngleX (fst down0) 0) (accel_si (fst down0) 0 17)
       * rad_to_deg = M_PI * rad_to_deg
  /\ (m_accelAngleX (guarded (snd down1))
      =? FormatAccelRange (raw_accelAngleX (fst down0) 0)
           (accel_si (fst down0) 0 17) * rad_to_deg) = false.
Proof.
  split; [exact down1_run |]. vm_compute. repeat split.
Qed.

Local Close Scope float_scope.

(** * More of the driver *)

(** ** The byte joins *)

Lemma idx_cons (x : Z) (l : list Z) (k : Z) :
  0 < k -> idx (x :: l) k = idx l (k - 1).
Proof.
  intros Hk. unfold idx.
  replace (Z.to_nat k) with (S (Z.to_nat (k - 1))) by lia. reflexivity.
Qed.

Lemma swrap_small (w v : Z) :
  0 < w -> - 2 ^ (w - 1) <= v < 2 ^ (w - 1) -> swrap w v = v.
Proof.
  intros Hw Hv. unfold swrap.
  assert (Hpow : 2 ^ w = 2 * 2 ^ (w - 1)).
  { replace w with (Z.succ (w - 1)) at 1 by lia. apply Z.pow_succ_r. lia. }
  assert (Hhalf : 0 < 2 ^ (w - 1)) by (apply Z.pow_pos_nonneg; lia).
  destruct (Z.lt_ge_cases v 0) as [Hneg | Hpos].
  - replace (v mod 2 ^ w) with (v + 2 ^ w).
    + replace (v + 2 ^ w <? 2 ^ (w - 1)) with false
        by (symmetry; apply Z.ltb_ge; lia). lia.
    + apply Z.mod_unique with (q := -1); lia.
  - rewrite Z.mod_small by lia.
    replace (v <? 2 ^ (w - 1)) with true by (symmetry; apply Z.ltb_lt; lia).
    reflexivity.
Qed.

Lemma swrap_mod (w v : Z) : 0 <= w -> swrap w (v mod 2 ^ w) = swrap w v.
Proof.
  intros Hw. unfold swrap.
  rewrite Z.mod_mod by (apply Z.pow_nonzero; lia). reflexivity.
Qed.

Lemma BuffToShort_bytes (buf : list Z) (off : Z) :
  0 <= idx buf off < 256 -> 0 <= idx buf (off + 1) < 256 ->
  BuffToShort buf off = int16_t (idx buf off * 256 + idx buf (off + 1)).
Proof.
  intros Hhi Hlo. unfold BuffToShort.
  set (hi := idx buf off) in *. set (lo := idx buf (off + 1)) in *.
  replace (int16_t hi) with hi
    by (symmetry; apply swrap_small; change (2 ^ (16 - 1)) with 32768; lia).
  rewrite Z.shiftl_mul_pow2 by lia.
  unfold uint32_t, wrap. change (2 ^ 8) with 256. change (2 ^ 32) with 4294967296.
  rewrite Z.mod_small by lia.
  replace (Z.lor (hi * 256) lo) with (hi * 256 + lo)
    by (symmetry; apply (lor_mul_pow2_low hi lo 8); change (2 ^ 8) with 256; lia).
  reflexivity.
Qed.

Lemma int16_bytes_value (v : Z) :
  0 <= (v mod 2 ^ 16) / 2 ^ 8 < 256 /\ 0 <= v mod 2 ^ 8 < 256
  /\ (v mod 2 ^ 16) / 2 ^ 8 * 256 + v mod 2 ^ 8 = v mod 2 ^ 16.
Proof.
  change (2 ^ 16) with 65536. change (2 ^ 8) with 256.
  pose proof (Z.mod_pos_bound v 65536 ltac:(lia)) as Hv.
  pose proof (Z.mod_pos_bound v 256 ltac:(lia)) as Hlo.
  pose proof (Z.div_mod (v mod 65536) 256 ltac:(lia)) as Hsplit.
  assert (Hlow : (v mod 65536) mod 256 = v mod 256).
  { apply Z.mod_mod_divide. exists 256. reflexivity. }
  rewrite Hlow in Hsplit.
  repeat split; try lia;
    first [apply Z.div_pos; lia | apply Z.div_lt_upper_bound; lia].
Qed.

(** X1: decoding inverts the device's encoding of a 16-bit sample.  For
    every [int16_t] value, [BuffToShort] (and [ToShort]) applied to its two
    big-endian bytes gives the value back, at any offset of the buffer. *)
Theorem BuffToShort_roundtrip (buf : list Z) (off v : Z) :
  - 32768 <= v < 32768 ->
  idx buf off = idx (bytes_of_int16 v) 0 ->
  idx buf (off + 1) = idx (bytes_of_int16 v) 1 ->
  BuffToShort buf off = v /\ ToShort (bytes_of_int16 v) = v.
Proof.
  intros Hv Hhi Hlo. unfold bytes_of_int16 in *. rewrite idx_0 in Hhi.
  rewrite idx_1 in Hlo.
  destruct (int16_bytes_value v) as (Bhi & Blo & Hjoin).
  split.
  - rewrite BuffToShort_bytes by (rewrite ?Hhi, ?Hlo; assumption).
    rewrite Hhi, Hlo, Hjoin. unfold int16_t. rewrite swrap_mod by lia.
    apply swrap_small; [lia |]. change (2 ^ (16 - 1)) with 32768. exact Hv.
  - unfold ToShort. rewrite idx_0, idx_1.
    set (hi := (v mod 2 ^ 16) / 2 ^ 8) in *. set (lo := v mod 2 ^ 8) in *.
    replace (uint16_t hi) with hi
      by (unfold uint16_t, wrap; rewrite Z.mod_small;
          [reflexivity | change (2 ^ 16) with 65536; lia]).
    rewrite (lor_shiftl_low hi lo 8) by (change (2 ^ 8) with 256; lia).
    change (2 ^ 8) with 256. rewrite Hjoin.
    unfold int16_t. rewrite swrap_mod by lia.
    apply swrap_small; [lia |]. change (2 ^ (16 - 1)) with 32768. exact Hv.
Qed.

Lemma int32_bytes_value (v : Z) :
  0 <= (v mod 2 ^ 32) / 2 ^ 24 < 256 /\ 0 <= (v mod 2 ^ 24) / 2 ^ 16 < 256
  /\ 0 <= (v mod 2 ^ 16) / 2 ^ 8 < 256 /\ 0 <= v mod 2 ^ 8 < 256
  /\ (v mod 2 ^ 32) / 2 ^ 24 * 2 ^ 24 + (v mod 2 ^ 24) / 2 ^ 16 * 2 ^ 16
     + (v mod 2 ^ 16) / 2 ^ 8 * 2 ^ 8 + v mod 2 ^ 8 = v mod 2 ^ 32.
Proof.
  change (2 ^ 32) with 4294967296. change (2 ^ 24) with 16777216.
  change (2 ^ 16) with 65536. change (2 ^ 8) with 256.
  pose proof (Z.mod_pos_bound v 4294967296 ltac:(lia)) as H32.
  pose proof (Z.mod_pos_bound v 16777216 ltac:(lia)) as H24.
  pose proof (Z.mod_pos_bound v 65536 ltac:(lia)) as H16.
  pose proof (Z.mod_pos_bound v 256 ltac:(lia)) as H8.
  pose proof (Z.div_mod (v mod 4294967296) 16777216 ltac:(lia)) as S32.
  pose proof (Z.div_mod (v mod 16777216) 65536 ltac:(lia)) as S24.
  pose proof (Z.div_mod (v mod 65536) 256 ltac:(lia)) as S16.
  assert (L32 : (v mod 4294967296) mod 16777216 = v mod 16777216).
  { apply Z.mod_mod_divide. exists 256. reflexivity. }
  assert (L24 : (v mod 16777216) mod 65536 = v mod 65536).
  { apply Z.mod_mod_divide. exists 256. reflexivity. }
  assert (L16 : (v mod 65536) mod 256 = v mod 256).
  { apply Z.mod_mod_divide. exists 256. reflexivity. }
  rewrite L32 in S32. rewrite L24 in S24. rewrite L16 in S16.
  repeat split; try lia;
    first [apply Z.div_pos; lia | apply Z.div_lt_upper_bound; lia].
Qed.

(** X2: decoding inverts the device's encoding of the 32-bit delta angle.
    For every [int32_t] value, [ToInt] applied to its four big-endian bytes
    gives the value back, at any offset of the buffer. *)
Theorem ToInt_roundtrip (buf : list Z) (off v : Z) :
  - 2 ^ 31 <= v < 2 ^ 31 ->
  idx buf off = idx (bytes_of_int32 v) 0 ->
  idx buf (off + 1) = idx (bytes_of_int32 v) 1 ->
  idx buf (off + 2) = idx (bytes_of_int32 v) 2 ->
  idx buf (off + 3) = idx (bytes_of_int32 v) 3 ->
  ToInt buf off = v.
Proof.
  intros Hv H0 H1 H2 H3.
  change (idx (bytes_of_int32 v) 0) with ((v mod 2 ^ 32) / 2 ^ 24) in H0.
  change (idx (bytes_of_int32 v) 1) with ((v mod 2 ^ 24) / 2 ^ 16) in H1.
  change (idx (bytes_of_int32 v) 2) with ((v mod 2 ^ 16) / 2 ^ 8) in H2.
  change (idx (bytes_of_int32 v) 3) with (v mod 2 ^ 8) in H3.
  destruct (int32_bytes_value v) as (B0 & B1 & B2 & B3 & Hjoin).
  rewrite ToInt_bytes by (rewrite ?H0, ?H1, ?H2, ?H3; assumption).
  rewrite H0, H1, H2, H3. unfold int32_of_bytes. cbv zeta. rewrite Hjoin.
  change (if v mod 2 ^ 32 <? 2 ^ 31 then v mod 2 ^ 32 else v mod 2 ^ 32 - 2 ^ 32)
    with (swrap 32 v).
  apply swrap_small; [lia |]. exact Hv.
Qed.

(** X3: on byte-valued input the four 16-bit joins agree.  [BuffToUShort]
    and [ToUShort] give [hi * 256 + lo]; [BuffToShort] and [ToShort] give
    that number read as an [int16_t]; and [ToUShort] puts together again
    the two bytes [WriteRegister] splits a 16-bit value into. *)
Theorem sixteen_bit_joins (hi lo v : Z) :
  0 <= hi < 256 -> 0 <= lo < 256 -> 0 <= v < 65536 ->
  ToUShort [hi; lo] = hi * 256 + lo
  /\ BuffToUShort [hi; lo] 0 = hi * 256 + lo
  /\ ToShort [hi; lo] = int16_t (hi * 256 + lo)
  /\ BuffToShort [hi; lo] 0 = int16_t (hi * 256 + lo)
  /\ ToUShort [uint8_t (Z.shiftr v 8); uint8_t (Z.land v 0xff)] = v.
Proof.
  intros Hhi Hlo Hv.
  assert (Hjoin : Z.lor (Z.shiftl hi 8) lo = hi * 256 + lo)
    by (apply (lor_shiftl_low hi lo 8); change (2 ^ 8) with 256; lia).
  assert (Hu16 : uint16_t hi = hi)
    by (unfold uint16_t, wrap; apply Z.mod_small; change (2 ^ 16) with 65536; lia).
  split; [apply ToUShort_bytes; assumption |].
  split.
  - unfold BuffToUShort. change (0 + 1) with 1. rewrite idx_0, idx_1, Hu16.
    replace (uint32_t (Z.shiftl hi 8)) with (Z.shiftl hi 8).
    + rewrite Hjoin. unfold uint16_t, wrap. apply Z.mod_small.
      change (2 ^ 16) with 65536. lia.
    + unfold uint32_t, wrap. rewrite Z.shiftl_mul_pow2 by lia.
      symmetry. apply Z.mod_small.
      change (2 ^ 8) with 256. change (2 ^ 32) with 4294967296. lia.
  - split.
    + unfold ToShort. rewrite idx_0, idx_1, Hu16, Hjoin. reflexivity.
    + split.
      * rewrite BuffToShort_bytes; change (0 + 1) with 1;
          rewrite ?idx_0, ?idx_1; try assumption. reflexivity.
      * rewrite low_byte, high_byte by exact Hv.
        rewrite ToUShort_bytes.
        -- pose proof (Z.div_mod v 256). lia.
        -- split; [apply Z.div_pos; lia | apply Z.div_lt_upper_bound; lia].
        -- apply Z.mod_pos_bound. lia.
Qed.

(** ** The mode switches *)

Lemma lor_below_pow2 (a b n : Z) :
  0 <= a < 2 ^ n -> 0 <= b < 2 ^ n -> 0 <= Z.lor a b < 2 ^ n.
Proof.
  intros Ha Hb.
  assert (Hnn : 0 <= Z.lor a b) by (apply Z.lor_nonneg; lia).
  split; [exact Hnn |].
  destruct (Z.eq_dec (Z.lor a b) 0) as [E | E]; [lia |].
  assert (Hn : 0 <= n).
  { destruct (Z.lt_ge_cases n 0) as [Hneg | Hpos]; [| exact Hpos].
    rewrite Z.pow_neg_r in Ha by exact Hneg. lia. }
  assert (Hpos : 0 < n).
  { destruct (Z.eq_dec n 0) as [-> | Hnz]; [| lia].
    change (2 ^ 0) with 1 in *.
    assert (a = 0) by lia. assert (b = 0) by lia. subst a b.
    exfalso. apply E. reflexivity. }
  apply Z.log2_lt_pow2; [lia |].
  rewrite Z.log2_lor by lia.
  apply Z.max_lub_lt.
  - destruct (Z.eq_dec a 0) as [-> | Hnz]; [cbn; lia |].
    apply Z.log2_lt_pow2; lia.
  - destruct (Z.eq_dec b 0) as [-> | Hnz]; [cbn; lia |].
    apply Z.log2_lt_pow2; lia.
Qed.

(** [WriteRegister] on a register of the device: the two bytes land at the
    address and the address after it. *)
Lemma WriteRegister_valid_eq (d : ADIS16470_IMU) (addr v : Z) :
  valid_register addr = true -> 0 <= v < 65536 ->
  WriteRegister addr v d =
    (tt, set_bus
           {| wire := wire (bus d) ++ [Write [128 + addr; v mod 256];
                                       Write [128 + (addr + 1); v / 256]];
              regs := store_reg (addr + 1) (v / 256)
                        (store_reg addr (v mod 256) (regs (bus d)));
              request := request (bus d);
              fifo := fifo (bus d) |} d).
Proof.
  intros Hvalid Hv.
  destruct (valid_register_inv addr Hvalid) as [Ha He].
  address_facts addr Ha. rewrite He in *.
  rewrite WriteRegister_effect by assumption.
  replace (Z.lor 129 addr) with (128 + (addr + 1)) by lia.
  replace (Z.lor 128 addr) with (128 + addr) by lia.
  assert (Ha1 : 0 <= addr + 1 < 128).
  { split; [lia |]. destruct (Z.eq_dec addr 127) as [E | E]; [| lia].
    subst addr. discriminate He. }
  rewrite (spi_Write_store addr) by assumption.
  rewrite (spi_Write_store (addr + 1)) by assumption.
  cbn [wire regs request fifo]. rewrite <- app_assoc. reflexivity.
Qed.

Lemma register16_store (r : Z -> Z) (addr v : Z) :
  0 <= v < 65536 ->
  ToUShort [store_reg (addr + 1) (v / 256) (store_reg addr (v mod 256) r) (addr + 1);
            store_reg (addr + 1) (v / 256) (store_reg addr (v mod 256) r) addr]
  = v.
Proof.
  intros Hv. unfold store_reg. rewrite !Z.eqb_refl.
  replace (addr =? addr + 1) with false by (symmetry; apply Z.eqb_neq; lia).
  rewrite ToUShort_bytes.
  - pose proof (Z.div_mod v 256). lia.
  - split; [apply Z.div_pos; lia | apply Z.div_lt_upper_bound; lia].
  - apply Z.mod_pos_bound. lia.
Qed.

Section ModeSwitches.
Context {H : Header}.

(** [ReadRegister] at a 7-bit address: the request, the read, and the
    16 bits the device holds there. *)
Lemma ReadRegister_eq (d : ADIS16470_IMU) (reg : Z) :
  0 <= reg < 128 ->
  ReadRegister reg d =
    (register16 (bus d) reg,
     set_bus {| wire := wire (bus d) ++ [Write [reg; 0]; Read false 2];
                regs := regs (bus d);
                request := reg;
                fifo := fifo (bus d) |} d).
Proof.
  intros Hreg. address_facts reg Hreg.
  unfold ReadRegister, bind, spi_write, spi_read, modify, ret, spi_Read, register16.
  replace (uint8_t reg) with reg by congruence.
  replace (uint8_t (Z.land reg 127)) with reg by congruence.
  destruct d as [yaw cal freed open irq task b rep dt al tau g].
  unfold set_bus. cbn [bus].
  rewrite (spi_Write_request reg) by assumption.
  unfold logged. cbn [wire regs request fifo bus].
  rewrite <- app_assoc. reflexivity.
Qed.

Ltac run_methods :=
  cbv beta iota zeta delta
    [bind get modify ret spi ReportError negb fst snd
     set_bus set_m_spi set_m_auto_interrupt set_m_freed set_m_acquire_task
     set_reports set_guarded set_m_yaw_axis set_m_calibration_time logged
     m_yaw_axis m_calibration_time m_freed m_spi m_auto_interrupt
     m_acquire_task bus reports m_dt m_alpha m_tau guarded
     wire regs request fifo].

(** [SwitchToStandardSPI], worked out: the object and the bus it leaves,
    for a 7-bit [PROD_ID]. *)
Lemma SwitchToStandardSPI_eq (d : ADIS16470_IMU) :
  0 <= PROD_ID < 128 ->
  SwitchToStandardSPI d =
    (device_found (bus d),
     {| m_yaw_axis := m_yaw_axis d;
        m_calibration_time := m_calibration_time d;
        m_freed := true;
        m_spi := true;
        m_auto_interrupt := m_auto_interrupt d;
        m_acquire_task := if m_freed d then m_acquire_task d else false;
        bus := {| wire := wire (bus d)
                          ++ (if m_spi d then [DeleteSPI] else [])
                          ++ standard_setup;
                  regs := regs (bus d);
                  request := PROD_ID;
                  fifo := fifo (bus d) |};
        reports := if device_found (bus d) then reports d
                   else reports d ++ ["Could not find ADIS16470!"%string];
        m_dt := m_dt d;
        m_alpha := m_alpha d;
        m_tau := m_tau d;
        guarded := guarded d |}).
Proof.
  intros Hid.
  destruct d as [yaw cal freed open irq task b rep dt al tau g].
  destruct b as [w r q f].
  unfold SwitchToStandardSPI, device_found, standard_setup.
  destruct freed, task, open; run_methods;
    rewrite (ReadRegister_eq _ PROD_ID Hid); run_methods;
    rewrite (ReadRegister_eq _ PROD_ID Hid); run_methods;
    unfold register16; run_methods;
    destruct (ToUShort [r (PROD_ID + 1); r PROD_ID] =? 16982),
             (ToUShort [r (PROD_ID + 1); r PROD_ID] =? 16470);
    cbv beta iota delta [andb orb]; run_methods;
    repeat rewrite <- app_assoc; reflexivity.
Qed.

(** [SwitchToAutoSPI] on an open handle. *)
Lemma SwitchToAutoSPI_open (d : ADIS16470_IMU) :
  m_spi d = true -> SwitchToAutoSPI d = (true, streaming d).
Proof.
  intros Hopen.
  unfold SwitchToAutoSPI, Reset, spi, bind, get, modify, ret, streaming, auto_setup.
  rewrite Hopen. cbn [negb].
  destruct d as [yaw cal freed open irq task b rep dt al tau g].
  destruct b as [w r q f]. cbn in Hopen. subst open.
  destruct freed;
    unfold set_bus, set_m_auto_interrupt, set_m_freed, set_m_acquire_task,
      set_guarded, logged;
    cbn; repeat rewrite <- app_assoc; reflexivity.
Qed.

(** [SwitchToAutoSPI] with no handle yet: standard SPI first, and auto SPI
    only if the device is found. *)
Lemma SwitchToAutoSPI_closed (d : ADIS16470_IMU) :
  0 <= PROD_ID < 128 -> m_spi d = false ->
  SwitchToAutoSPI d =
    if device_found (bus d)
    then (true, streaming (snd (SwitchToStandardSPI d)))
    else (false, snd (SwitchToStandardSPI d)).
Proof.
  intros Hid Hclosed.
  pose proof (SwitchToAutoSPI_open (snd (SwitchToStandardSPI d))) as Hopen.
  revert Hopen.
  unfold SwitchToAutoSPI at 2. unfold bind at 1 2. unfold get at 1.
  rewrite Hclosed. cbn [negb].
  rewrite (SwitchToStandardSPI_eq d Hid). cbn [snd].
  destruct (device_found (bus d)); cbn [negb]; intros Hopen.
  - rewrite <- Hopen by reflexivity.
    unfold SwitchToAutoSPI, bind, get, ret. cbn [m_spi negb]. reflexivity.
  - reflexivity.
Qed.

(** X4: [SwitchToStandardSPI] returns true exactly when the device answers
    the read of [PROD_ID] with 16982 or 16470, high byte first; when it
    does not, and only then, "Could not find ADIS16470!" is reported. *)
Theorem SwitchToStandardSPI_verifies_product_id
    (d d' : ADIS16470_IMU) (ok : bool) :
  0 <= PROD_ID < 128 ->
  SwitchToStandardSPI d = (ok, d') ->
  ok = device_found (bus d)
  /\ reports d' = (if ok then reports d
                   else reports d ++ ["Could not find ADIS16470!"%string])
  /\ (0 <= regs (bus d) (PROD_ID + 1) < 256 ->
      0 <= regs (bus d) PROD_ID < 256 ->
      (ok = true <->
       regs (bus d) (PROD_ID + 1) * 256 + regs (bus d) PROD_ID = 16982
       \/ regs (bus d) (PROD_ID + 1) * 256 + regs (bus d) PROD_ID = 16470)).
Proof.
  intros Hid Hrun. rewrite (SwitchToStandardSPI_eq d Hid) in Hrun.
  injection Hrun as <- <-. cbn [reports].
  split; [reflexivity |]. split; [reflexivity |].
  intros Hhi Hlo. unfold device_found, register16.
  rewrite ToUShort_bytes by assumption.
  rewrite orb_true_iff, !Z.eqb_eq. reflexivity.
Qed.

(** X5: [SwitchToStandardSPI] changes no register of the device and makes
    no auto SPI call; it leaves the buffered words, the yaw axis, the
    calibration time and the published readings as they were; and it
    always ends with the handle open, [m_freed] set and, if the thread was
    running under a clear [m_freed], the thread joined. *)
Theorem SwitchToStandardSPI_spares_device_and_data
    (d d' : ADIS16470_IMU) (ok : bool) :
  0 <= PROD_ID < 128 ->
  SwitchToStandardSPI d = (ok, d') ->
  regs (bus d') = regs (bus d)
  /\ fifo (bus d') = fifo (bus d)
  /\ m_yaw_axis d' = m_yaw_axis d
  /\ m_calibration_time d' = m_calibration_time d
  /\ guarded d' = guarded d
  /\ m_freed d' = true
  /\ m_spi d' = true
  /\ (m_freed d = false -> m_acquire_task d' = false)
  /\ (m_freed d = true -> m_acquire_task d' = m_acquire_task d)
  /\ exists calls : list SpiCall,
       wire (bus d') = wire (bus d) ++ calls
       /\ forallb (fun c => negb (is_register_write c) && negb (is_auto_call c))
            calls = true.
Proof.
  intros Hid Hrun. rewrite (SwitchToStandardSPI_eq d Hid) in Hrun.
  injection Hrun as _ <-. cbn [bus regs fifo wire m_yaw_axis m_calibration_time
    guarded m_freed m_spi m_acquire_task].
  repeat match goal with |- _ /\ _ => split end;
    try reflexivity; try (intros ->; reflexivity).
  exists ((if m_spi d then [DeleteSPI] else []) ++ standard_setup).
  split; [reflexivity |].
  address_facts PROD_ID Hid.
  match goal with E : negb (Z.testbit PROD_ID 7) = true |- _ =>
    apply negb_true_iff in E; rename E into Hbit end.
  rewrite forallb_app. apply andb_true_intro. split.
  - destruct (m_spi d); reflexivity.
  - unfold standard_setup.
    cbn [forallb is_register_write is_auto_call negb andb].
    rewrite idx_0, Hbit. reflexivity.
Qed.

(** X6: [SwitchToStandardSPI] deletes [m_auto_interrupt] without setting
    it to null and always leaves a handle open, so a second call in a row
    runs the delete block on the same pointer.  Where that pointer is
    null, on a driver that has not started auto SPI, the second call gives
    the same answer as the first and leaves the thread flags, the pointer,
    the configuration, the readings and the device as the first call left
    them; the handle is deleted and opened again, the same calls are made,
    and a failure is reported once more. *)
Theorem SwitchToStandardSPI_twice
    (d d1 d2 : ADIS16470_IMU) (ok1 ok2 : bool) :
  0 <= PROD_ID < 128 ->
  SwitchToStandardSPI d = (ok1, d1) ->
  SwitchToStandardSPI d1 = (ok2, d2) ->
  (m_auto_interrupt d1 = m_auto_interrupt d /\ m_spi d1 = true)
  /\ (m_auto_interrupt d = false ->
      ok2 = ok1
      /\ m_freed d2 = m_freed d1
      /\ m_spi d2 = m_spi d1
      /\ m_acquire_task d2 = m_acquire_task d1
      /\ m_auto_interrupt d2 = false
      /\ m_yaw_axis d2 = m_yaw_axis d1
      /\ m_calibration_time d2 = m_calibration_time d1
      /\ guarded d2 = guarded d1
      /\ regs (bus d2) = regs (bus d1)
      /\ fifo (bus d2) = fifo (bus d1)
      /\ wire (bus d2) = wire (bus d1) ++ DeleteSPI :: standard_setup
      /\ reports d2 = (if ok1 then reports d1
                       else reports d1 ++ ["Could not find ADIS16470!"%string])).
Proof.
  intros Hid Hrun1 Hrun2.
  rewrite (SwitchToStandardSPI_eq d Hid) in Hrun1. injection Hrun1 as <- <-.
  rewrite (SwitchToStandardSPI_eq _ Hid) in Hrun2. injection Hrun2 as <- <-.
  unfold device_found, register16.
  cbn [bus regs fifo wire reports m_yaw_axis m_calibration_time guarded
       m_freed m_spi m_acquire_task m_auto_interrupt m_dt m_alpha m_tau request].
  split; [split; reflexivity |].
  intros Hnull. rewrite Hnull. repeat split.
Qed.

(** X7: with a handle open, [SwitchToAutoSPI] returns true without asking
    the device for its product ID.  It sets up auto SPI with the packet of
    the current yaw axis, clears [m_freed], starts the acquire thread if
    [m_freed] was set, zeroes the integrated angle, and changes no register
    and no other reading. *)
Theorem SwitchToAutoSPI_on_open_handle
    (d d' : ADIS16470_IMU) (ok : bool) :
  m_spi d = true ->
  SwitchToAutoSPI d = (ok, d') ->
  ok = true
  /\ wire (bus d') = wire (bus d) ++ auto_setup (m_yaw_axis d)
  /\ regs (bus d') = regs (bus d)
  /\ m_freed d' = false
  /\ (m_freed d = true -> m_acquire_task d' = true)
  /\ (m_freed d = false -> m_acquire_task d' = m_acquire_task d)
  /\ GetAngle d' = 0%float
  /\ set_m_integ_angle (m_integ_angle (guarded d)) (guarded d') = guarded d
  /\ GetRate d' = GetRate d
  /\ m_yaw_axis d' = m_yaw_axis d
  /\ m_calibration_time d' = m_calibration_time d.
Proof.
  intros Hopen Hrun. rewrite (SwitchToAutoSPI_open d Hopen) in Hrun.
  injection Hrun as <- <-.
  unfold GetAngle, GetRate, streaming, set_m_integ_angle.
  cbn [bus regs wire m_freed m_acquire_task guarded m_integ_angle
       m_yaw_axis m_calibration_time m_gyro_x m_gyro_y m_gyro_z].
  repeat match goal with |- _ /\ _ => split end;
    try reflexivity; try (intros ->; reflexivity).
  destruct (guarded d); reflexivity.
Qed.

(** X12: with no handle yet, [SwitchToAutoSPI] goes through
    [SwitchToStandardSPI] and succeeds exactly when the device answers with
    its product ID.  On failure it returns false with no auto SPI call
    made, [m_freed] set, the data-ready input and the integrated angle
    untouched and the error reported; on success the auto SPI setup follows
    the standard setup, the thread is started and the angle is zeroed. *)
Theorem SwitchToAutoSPI_without_handle
    (d d' : ADIS16470_IMU) (ok : bool) :
  0 <= PROD_ID < 128 ->
  m_spi d = false ->
  SwitchToAutoSPI d = (ok, d') ->
  ok = device_found (bus d)
  /\ wire (bus d') = wire (bus d) ++ standard_setup
                      ++ (if ok then auto_setup (m_yaw_axis d) else [])
  /\ regs (bus d') = regs (bus d)
  /\ m_freed d' = negb ok
  /\ m_spi d' = true
  /\ (ok = false ->
      GetAngle d' = GetAngle d
      /\ m_auto_interrupt d' = m_auto_interrupt d
      /\ (m_freed d = true -> m_acquire_task d' = m_acquire_task d)
      /\ reports d' = reports d ++ ["Could not find ADIS16470!"%string])
  /\ (ok = true ->
      GetAngle d' = 0%float
      /\ m_auto_interrupt d' = true
      /\ m_acquire_task d' = true
      /\ reports d' = reports d).
Proof.
  intros Hid Hclosed Hrun.
  rewrite (SwitchToAutoSPI_closed d Hid Hclosed) in Hrun.
  rewrite (SwitchToStandardSPI_eq d Hid) in Hrun. cbn [snd] in Hrun.
  rewrite Hclosed in Hrun.
  destruct (device_found (bus d)); injection Hrun as <- <-;
    unfold GetAngle, streaming, set_m_integ_angle;
    cbn [bus regs wire m_freed m_spi m_acquire_task m_auto_interrupt guarded
         m_integ_angle m_yaw_axis reports negb app];
    repeat match goal with |- _ /\ _ => split end;
    try reflexivity; try discriminate;
    try (intros _; repeat match goal with |- _ /\ _ => split end;
         try reflexivity; try (intros ->; reflexivity)).
  rewrite <- !app_assoc. reflexivity.
Qed.

(** The three configuration methods, worked out. *)
Lemma SetYawAxis_eq (d : ADIS16470_IMU) (yaw_axis : IMUAxis) :
  0 <= PROD_ID < 128 ->
  SetYawAxis yaw_axis d =
    if IMUAxis_eqb (m_yaw_axis d) yaw_axis then (1, d)
    else if device_found (bus d)
         then (0, streaming (set_m_yaw_axis yaw_axis (snd (SwitchToStandardSPI d))))
         else (2, snd (SwitchToStandardSPI d)).
Proof.
  intros Hid. unfold SetYawAxis, bind, get, ret, modify.
  destruct (IMUAxis_eqb (m_yaw_axis d) yaw_axis); [reflexivity |].
  rewrite (SwitchToStandardSPI_eq d Hid). cbn [snd].
  destruct (device_found (bus d)); cbn [negb]; [| reflexivity].
  rewrite SwitchToAutoSPI_open by reflexivity. reflexivity.
Qed.

Lemma ConfigCalTime_eq (d : ADIS16470_IMU) (new_cal_time : Z) :
  0 <= PROD_ID < 128 ->
  ConfigCalTime new_cal_time d =
    if m_calibration_time d =? uint16_t new_cal_time then (1, d)
    else if device_found (bus d)
         then (0, streaming
                    (snd (WriteRegister NULL_CNFG
                            (Z.lor (uint16_t new_cal_time) 0x700)
                            (set_m_calibration_time (uint16_t new_cal_time)
                               (snd (SwitchToStandardSPI d))))))
         else (2, snd (SwitchToStandardSPI d)).
Proof.
  intros Hid. unfold ConfigCalTime, bind, get, ret, modify.
  destruct (m_calibration_time d =? uint16_t new_cal_time); [reflexivity |].
  rewrite (SwitchToStandardSPI_eq d Hid). cbn [snd].
  destruct (device_found (bus d)); cbn [negb]; [| reflexivity].
  cbn [set_m_calibration_time m_calibration_time].
  match goal with
  | |- context [WriteRegister ?a ?v ?st] =>
      destruct (WriteRegister a v st) as [[] d1] eqn:Ew
  end.
  cbn [snd].
  assert (Hopen : m_spi d1 = true).
  { unfold WriteRegister, bind, spi_write, modify in Ew.
    injection Ew as <-. reflexivity. }
  rewrite (SwitchToAutoSPI_open d1 Hopen). reflexivity.
Qed.

Lemma Calibrate_eq (d : ADIS16470_IMU) :
  0 <= PROD_ID < 128 ->
  Calibrate d =
    if device_found (bus d)
    then (tt, streaming (snd (WriteRegister GLOB_CMD 0x0001
                                (snd (SwitchToStandardSPI d)))))
    else (tt, snd (SwitchToStandardSPI d)).
Proof.
  intros Hid. unfold Calibrate, bind, get, ret, modify.
  rewrite (SwitchToStandardSPI_eq d Hid). cbn [snd].
  destruct (device_found (bus d)); cbn [negb]; [| reflexivity].
  match goal with
  | |- context [WriteRegister ?a ?v ?st] =>
      destruct (WriteRegister a v st) as [[] d1] eqn:Ew
  end.
  cbn [snd].
  assert (Hopen : m_spi d1 = true).
  { unfold WriteRegister, bind, spi_write, modify in Ew.
    injection Ew as <-. reflexivity. }
  rewrite (SwitchToAutoSPI_open d1 Hopen). reflexivity.
Qed.

(** X8: on a device that answers with its product ID, [SetYawAxis] with
    another axis returns 0 and stores the axis; it reopens the bus in
    standard mode and starts auto SPI with the packet of the new axis; it
    writes no register; and it leaves the acquire thread running on a
    cleared [m_freed] with the integrated angle at 0 and the other readings
    and the calibration time as they were. *)
Theorem SetYawAxis_switches_axis
    (d d' : ADIS16470_IMU) (yaw_axis : IMUAxis) (r : Z) :
  0 <= PROD_ID < 128 ->
  device_found (bus d) = true ->
  yaw_axis <> m_yaw_axis d ->
  SetYawAxis yaw_axis d = (r, d') ->
  r = 0
  /\ GetYawAxis d' = yaw_axis
  /\ wire (bus d') = wire (bus d) ++ (if m_spi d then [DeleteSPI] else [])
                      ++ standard_setup ++ auto_setup yaw_axis
  /\ regs (bus d') = regs (bus d)
  /\ GetAngle d' = 0%float
  /\ set_m_integ_angle (m_integ_angle (guarded d)) (guarded d') = guarded d
  /\ m_freed d' = false
  /\ m_acquire_task d' = true
  /\ m_calibration_time d' = m_calibration_time d.
Proof.
  intros Hid Hfound Hother Hrun.
  rewrite (SetYawAxis_eq d yaw_axis Hid), Hfound in Hrun.
  destruct (IMUAxis_eqb (m_yaw_axis d) yaw_axis) eqn:E.
  { apply IMUAxis_eqb_eq in E. congruence. }
  rewrite (SwitchToStandardSPI_eq d Hid) in Hrun. cbn [snd] in Hrun.
  injection Hrun as <- <-.
  unfold GetYawAxis, GetAngle, streaming, set_m_yaw_axis, set_m_integ_angle.
  cbn [bus regs wire m_freed m_acquire_task guarded m_integ_angle
       m_yaw_axis m_calibration_time].
  repeat match goal with |- _ /\ _ => split end; try reflexivity.
  - rewrite <- !app_assoc. reflexivity.
  - destruct (guarded d); reflexivity.
Qed.

(** X9: on a device that answers with its product ID, [ConfigCalTime] with
    another time returns 0 and stores the code; between the switch to
    standard SPI and the return to auto SPI it writes [code | 0x700] to
    [NULL_CNFG], low byte first, and the device then holds that value
    there and nothing new anywhere else; the yaw axis keeps its packet. *)
Theorem ConfigCalTime_writes_NULL_CNFG
    (d d' : ADIS16470_IMU) (new_cal_time r : Z) :
  0 <= PROD_ID < 128 ->
  valid_register NULL_CNFG = true ->
  device_found (bus d) = true ->
  uint16_t new_cal_time <> m_calibration_time d ->
  ConfigCalTime new_cal_time d = (r, d') ->
  r = 0
  /\ m_calibration_time d' = uint16_t new_cal_time
  /\ register16 (bus d') NULL_CNFG = Z.lor (uint16_t new_cal_time) 0x700
  /\ (forall a, a <> NULL_CNFG -> a <> NULL_CNFG + 1 ->
      regs (bus d') a = regs (bus d) a)
  /\ wire (bus d') =
       wire (bus d) ++ (if m_spi d then [DeleteSPI] else []) ++ standard_setup
       ++ [Write [128 + NULL_CNFG; Z.lor (uint16_t new_cal_time) 0x700 mod 256];
           Write [128 + (NULL_CNFG + 1); Z.lor (uint16_t new_cal_time) 0x700 / 256]]
       ++ auto_setup (m_yaw_axis d)
  /\ GetAngle d' = 0%float
  /\ m_freed d' = false
  /\ m_acquire_task d' = true
  /\ m_yaw_axis d' = m_yaw_axis d.
Proof.
  intros Hid Hvalid Hfound Hother Hrun.
  rewrite (ConfigCalTime_eq d new_cal_time Hid), Hfound in Hrun.
  destruct (m_calibration_time d =? uint16_t new_cal_time) eqn:E.
  { apply Z.eqb_eq in E. congruence. }
  assert (Hv : 0 <= Z.lor (uint16_t new_cal_time) 0x700 < 65536).
  { apply (lor_below_pow2 _ _ 16); [| change (2 ^ 16) with 65536; lia].
    unfold uint16_t, wrap. apply Z.mod_pos_bound. reflexivity. }
  rewrite (WriteRegister_valid_eq _ _ _ Hvalid Hv) in Hrun.
  rewrite (SwitchToStandardSPI_eq d Hid) in Hrun. cbn [snd] in Hrun.
  injection Hrun as <- <-.
  unfold GetAngle, streaming, set_m_calibration_time, set_bus, set_m_integ_angle,
    register16.
  cbn [bus regs wire m_freed m_acquire_task guarded m_integ_angle
       m_yaw_axis m_calibration_time].
  repeat match goal with |- _ /\ _ => split end; try reflexivity.
  - apply register16_store. exact Hv.
  - intros a Ha Ha1. unfold store_reg.
    replace (a =? NULL_CNFG + 1) with false by (symmetry; apply Z.eqb_neq; exact Ha1).
    replace (a =? NULL_CNFG) with false by (symmetry; apply Z.eqb_neq; exact Ha).
    reflexivity.
  - rewrite <- !app_assoc. reflexivity.
Qed.

(** X10: on a device that answers with its product ID, [Calibrate] writes
    0x0001 to [GLOB_CMD] in standard mode, changes no other register, and
    returns to auto SPI with the integrated angle at 0 and the
    configuration as it was. *)
Theorem Calibrate_writes_GLOB_CMD (d d' : ADIS16470_IMU) :
  0 <= PROD_ID < 128 ->
  valid_register GLOB_CMD = true ->
  device_found (bus d) = true ->
  Calibrate d = (tt, d') ->
  register16 (bus d') GLOB_CMD = 1
  /\ (forall a, a <> GLOB_CMD -> a <> GLOB_CMD + 1 ->
      regs (bus d') a = regs (bus d) a)
  /\ wire (bus d') =
       wire (bus d) ++ (if m_spi d then [DeleteSPI] else []) ++ standard_setup
       ++ [Write [128 + GLOB_CMD; 1]; Write [128 + (GLOB_CMD + 1); 0]]
       ++ auto_setup (m_yaw_axis d)
  /\ GetAngle d' = 0%float
  /\ m_freed d' = false
  /\ m_acquire_task d' = true
  /\ m_yaw_axis d' = m_yaw_axis d
  /\ m_calibration_time d' = m_calibration_time d.
Proof.
  intros Hid Hvalid Hfound Hrun.
  rewrite (Calibrate_eq d Hid), Hfound in Hrun.
  assert (Hv : 0 <= 1 < 65536) by lia.
  rewrite (WriteRegister_valid_eq _ _ _ Hvalid Hv) in Hrun.
  rewrite (SwitchToStandardSPI_eq d Hid) in Hrun. cbn [snd] in Hrun.
  injection Hrun as <-.
  unfold GetAngle, streaming, set_bus, set_m_integ_angle, register16.
  cbn [bus regs wire m_freed m_acquire_task guarded m_integ_angle
       m_yaw_axis m_calibration_time].
  repeat match goal with |- _ /\ _ => split end; try reflexivity.
  - apply (register16_store _ _ 1). exact Hv.
  - intros a Ha Ha1. unfold store_reg.
    replace (a =? GLOB_CMD + 1) with false by (symmetry; apply Z.eqb_neq; exact Ha1).
    replace (a =? GLOB_CMD) with false by (symmetry; apply Z.eqb_neq; exact Ha).
    reflexivity.
  - rewrite <- !app_assoc. reflexivity.
Qed.

End ModeSwitches.

Section FailedSwitch.
Context {H : Header} {L : Libm}.

(** X11: when the device does not answer with its product ID, [Calibrate]
    and a [SetYawAxis] or [ConfigCalTime] that asks for a change all stop
    where [SwitchToStandardSPI] stopped: no register written, no auto SPI
    call made, the configuration unchanged, the error reported, [m_freed]
    left set and the thread not restarted.  An acquire loop that looks at
    that object polls nothing and returns. *)
Theorem failed_switch_leaves_acquisition_stopped
    (d : ADIS16470_IMU) (yaw_axis : IMUAxis) (new_cal_time : Z)
    (fuel : nat) (arrivals : list (list Z)) (u : AcquireLocals) :
  0 <= PROD_ID < 128 ->
  device_found (bus d) = false ->
  snd (Calibrate d) = snd (SwitchToStandardSPI d)
  /\ (yaw_axis <> m_yaw_axis d ->
      snd (SetYawAxis yaw_axis d) = snd (SwitchToStandardSPI d))
  /\ (uint16_t new_cal_time <> m_calibration_time d ->
      snd (ConfigCalTime new_cal_time d) = snd (SwitchToStandardSPI d))
  /\ m_freed (snd (SwitchToStandardSPI d)) = true
  /\ (m_freed d = false -> m_acquire_task (snd (SwitchToStandardSPI d)) = false)
  /\ reports (snd (SwitchToStandardSPI d))
     = reports d ++ ["Could not find ADIS16470!"%string]
  /\ Acquire fuel arrivals u (snd (SwitchToStandardSPI d))
     = Ret (Acquire_entry u, snd (SwitchToStandardSPI d), []).
Proof.
  intros Hid Hfound.
  repeat match goal with |- _ /\ _ => split end.
  - rewrite (Calibrate_eq d Hid), Hfound. reflexivity.
  - intros Hother. rewrite (SetYawAxis_eq d yaw_axis Hid), Hfound.
    destruct (IMUAxis_eqb (m_yaw_axis d) yaw_axis) eqn:E; [| reflexivity].
    apply IMUAxis_eqb_eq in E. congruence.
  - intros Hother. rewrite (ConfigCalTime_eq d new_cal_time Hid), Hfound.
    destruct (m_calibration_time d =? uint16_t new_cal_time) eqn:E; [| reflexivity].
    apply Z.eqb_eq in E. congruence.
  - rewrite (SwitchToStandardSPI_eq d Hid). reflexivity.
  - intros Hrunning. rewrite (SwitchToStandardSPI_eq d Hid). cbn [snd m_acquire_task].
    rewrite Hrunning. reflexivity.
  - rewrite (SwitchToStandardSPI_eq d Hid). cbn [snd reports].
    rewrite Hfound. reflexivity.
  - unfold Acquire.
    assert (Hfreed : m_freed (snd (SwitchToStandardSPI d)) = true)
      by (rewrite (SwitchToStandardSPI_eq d Hid); reflexivity).
    destruct arrivals as [| ws rest]; cbn [Acquire_loop]; [reflexivity |].
    rewrite Hfreed. reflexivity.
Qed.

End FailedSwitch.

(** ** More of the acquisition loop *)

Section AcquireMore.
Context {H : Header} {L : Libm}.

Lemma data_to_read_eq (b : SimBus) :
  let N := Z.of_nat (length (fifo b)) in
  data_to_read b = N - N mod 19
  /\ 0 <= N mod 19 < 19
  /\ 0 <= data_to_read b <= N
  /\ data_to_read b = 19 * (N / 19).
Proof.
  intros N. unfold data_to_read. fold N.
  assert (HN : 0 <= N) by (unfold N; lia).
  rewrite Z.rem_mod_nonneg by (unfold dataset_len; lia).
  change (N mod dataset_len) with (N mod 19).
  pose proof (Z.mod_pos_bound N 19 ltac:(lia)) as Hmod.
  pose proof (Z.div_mod N 19 ltac:(lia)) as Hdiv.
  lia.
Qed.

(** The loop over the data sets leaves the buffer and the bus alone. *)
Lemma Acquire_frames_keeps (steps : nat) :
  forall (fuel : nat) (i n : Z) (l l' : AcquireLocals) (d d' : ADIS16470_IMU)
         (decoded decoded' : list Z),
    Acquire_frames steps fuel i n l d decoded = Ret (l', d', decoded') ->
    buffer l' = buffer l /\ bus d' = bus d.
Proof.
  induction steps as [| steps IH]; intros fuel i n l l' d d' decoded decoded';
    cbn [Acquire_frames]; destruct (i <? n); try discriminate.
  - intros Hr. injection Hr as <- <- <-. split; reflexivity.
  - destruct (Acquire_frame fuel i l d) as [[l1 d1] | |] eqn:E; cbn [obind];
      try discriminate.
    intros Hr. apply IH in Hr. apply Acquire_frame_keeps in E.
    destruct Hr as [-> ->]. exact E.
  - intros Hr. injection Hr as <- <- <-. split; reflexivity.
Qed.

(** One poll, worked out: the two calls on the transport, the copy into
    the buffer, and the loop over the data sets. *)
Lemma Acquire_poll_eq (fuel : nat) (l : AcquireLocals) (d : ADIS16470_IMU) :
  Acquire_poll fuel l d =
    obind (store_words (buffer l)
             (firstn (Z.to_nat (data_to_read (bus d))) (fifo (bus d))))
      (fun buffer' =>
         Acquire_frames (Z.to_nat (data_to_read (bus d))) fuel 0
           (data_to_read (bus d))
           {| buffer := buffer';
              previous_timestamp := previous_timestamp l;
              compAngleX := compAngleX l;
              compAngleY := compAngleY l;
              accelAngleX := accelAngleX l;
              accelAngleY := accelAngleY l;
              first_run := first_run l |}
           (set_bus
              {| wire := wire (bus d)
                         ++ [ReadAutoReceivedData 0;
                             ReadAutoReceivedData (data_to_read (bus d))];
                 regs := regs (bus d);
                 request := request (bus d);
                 fifo := skipn (Z.to_nat (data_to_read (bus d))) (fifo (bus d)) |}
              d)
           []).
Proof.
  unfold Acquire_poll, spi_ReadAutoReceivedData, data_to_read.
  cbn [fifo wire regs request Z.to_nat skipn firstn].
  rewrite <- app_assoc. reflexivity.
Qed.

(** X13: a poll writes past the end of its buffer exactly when more than
    [num_buffers] whole data sets are waiting in the transport; with that
    many or fewer, it never does. *)
Theorem Acquire_poll_OutOfBounds_iff
    (fuel : nat) (l : AcquireLocals) (d : ADIS16470_IMU) :
  Acquire_poll fuel l d = OutOfBounds
  <-> dataset_len * num_buffers < data_to_read (bus d).
Proof.
  destruct (data_to_read_eq (bus d)) as (Hn & _).
  split.
  - intros Hout.
    destruct (Z.lt_ge_cases (dataset_len * num_buffers) (data_to_read (bus d)))
      as [Hlt | Hge]; [exact Hlt | exfalso].
    pose proof (Acquire_poll_aligned fuel l d) as Hroom. cbv zeta in Hroom.
    rewrite Hout in Hroom. apply Hroom. lia.
  - intros Hlt. apply Acquire_poll_overrun. cbv zeta. lia.
Qed.

(** X14: a poll that returns has handled the whole data sets that were
    waiting, in order and at most [num_buffers] of them, from the start of
    the buffer; the words of an incomplete data set, fewer than 19, stay
    in the transport for the next poll, and the buffer keeps its old words
    behind the ones copied in.  The transport saw two reads and no write. *)
Theorem Acquire_poll_whole_data_sets
    (fuel : nat) (l l' : AcquireLocals) (d d' : ADIS16470_IMU)
    (decoded : list Z) :
  Acquire_poll fuel l d = Ret (l', d', decoded) ->
  decoded = offsets 0 (Z.to_nat (data_to_read (bus d) / dataset_len))
  /\ (length decoded <= 30)%nat
  /\ fifo (bus d) = firstn (Z.to_nat (data_to_read (bus d))) (buffer l')
                    ++ fifo (bus d')
  /\ Z.of_nat (length (fifo (bus d'))) < dataset_len
  /\ skipn (Z.to_nat (data_to_read (bus d))) (buffer l')
     = skipn (Z.to_nat (data_to_read (bus d))) (buffer l)
  /\ wire (bus d') = wire (bus d)
                     ++ [ReadAutoReceivedData 0;
                         ReadAutoReceivedData (data_to_read (bus d))]
  /\ regs (bus d') = regs (bus d).
Proof.
  intros Hrun.
  destruct (data_to_read_eq (bus d)) as (Hn & Hmod & Hle & Hdiv).
  assert (Hroom : data_to_read (bus d) <= dataset_len * num_buffers).
  { destruct (Z.lt_ge_cases (dataset_len * num_buffers) (data_to_read (bus d)))
      as [Hlt | Hge]; [| lia].
    rewrite (Acquire_poll_overrun fuel l d) in Hrun; [discriminate |].
    cbv zeta. lia. }
  pose proof (Acquire_poll_aligned fuel l d) as Hpoll. cbv zeta in Hpoll.
  rewrite <- Hn, Hrun in Hpoll.
  destruct (Hpoll Hroom) as (Hdec & _ & Hfifo & Hlen & Hfirst).
  rewrite Acquire_poll_eq in Hrun.
  unfold store_words in Hrun.
  assert (Hk : length (firstn (Z.to_nat (data_to_read (bus d))) (fifo (bus d)))
               = Z.to_nat (data_to_read (bus d))).
  { apply firstn_length_le. lia. }
  rewrite Hk in Hrun.
  replace (Z.of_nat (Z.to_nat (data_to_read (bus d))) <=? dataset_len * num_buffers)
    with true in Hrun by (symmetry; apply Z.leb_le; lia).
  cbn [obind] in Hrun.
  apply Acquire_frames_keeps in Hrun. cbn [buffer] in Hrun.
  destruct Hrun as [Hbuf Hbus].
  rewrite Hbus, Hbuf. unfold set_bus. cbn [bus wire regs fifo].
  assert (Hq : data_to_read (bus d) / dataset_len
               = Z.of_nat (length (fifo (bus d))) / 19).
  { unfold dataset_len. rewrite Hdiv, Z.mul_comm, Z.div_mul by lia. reflexivity. }
  split; [| split; [| split; [| split; [| split; [| split]]]]].
  - rewrite Hdec, Hq. reflexivity.
  - rewrite Hdec. unfold offsets. rewrite length_map, length_seq.
    unfold dataset_len, num_buffers in Hroom. lia.
  - rewrite firstn_app, Hk, Nat.sub_diag, firstn_O, app_nil_r.
    rewrite (firstn_all2 (n := Z.to_nat (data_to_read (bus d)))) by (rewrite Hk; lia).
    symmetry. apply firstn_skipn.
  - rewrite length_skipn. unfold dataset_len. lia.
  - rewrite skipn_app, Hk, Nat.sub_diag.
    rewrite (skipn_all2 (n := Z.to_nat (data_to_read (bus d)))) by (rewrite Hk; lia).
    reflexivity.
  - reflexivity.
  - reflexivity.
Qed.

Local Open Scope float_scope.

(** X15: what the accessors return after a frame.  The gyro rates are the
    16-bit words over 10 and the accelerations the words over 800, before
    the conversion to SI units that only the filter sees; [GetRate] is the
    rate of the yaw axis; the four angles are the loop's angles times
    [rad_to_deg].  After every frame but the first the loop's
    complementary angles are not below 0. *)
Theorem readings_after_frame
    (fuel : nat) (i : Z) (l l' : AcquireLocals) (d d' : ADIS16470_IMU) :
  Acquire_frame fuel i l d = Ret (l', d') ->
  GetGyroInstantX d' = double_of_int (BuffToShort (buffer l) (i + 7)) / 10.0
  /\ GetGyroInstantY d' = double_of_int (BuffToShort (buffer l) (i + 9)) / 10.0
  /\ GetGyroInstantZ d' = double_of_int (BuffToShort (buffer l) (i + 11)) / 10.0
  /\ GetAccelInstantX d' = double_of_int (BuffToShort (buffer l) (i + 13)) / 800.0
  /\ GetAccelInstantY d' = double_of_int (BuffToShort (buffer l) (i + 15)) / 800.0
  /\ GetAccelInstantZ d' = double_of_int (BuffToShort (buffer l) (i + 17)) / 800.0
  /\ GetRate d'
     = double_of_int
         (BuffToShort (buffer l)
            (i + match GetYawAxis d with kX => 7 | kY => 9 | kZ => 11 end)%Z)
       / 10.0
  /\ GetYawAxis d' = GetYawAxis d
  /\ GetXComplementaryAngle d' = compAngleX l' * rad_to_deg
  /\ GetYComplementaryAngle d' = compAngleY l' * rad_to_deg
  /\ GetXFilteredAccelAngle d' = accelAngleX l' * rad_to_deg
  /\ GetYFilteredAccelAngle d' = accelAngleY l' * rad_to_deg
  /\ (first_run l = false ->
      (compAngleX l' <? 0.0) = false /\ (compAngleY l' <? 0.0) = false).
Proof.
  intros Hr. apply Acquire_frame_inv in Hr.
  destruct Hr as [_ (ax & ay & cx & cy & Hangles & -> & ->)].
  unfold GetGyroInstantX, GetGyroInstantY, GetGyroInstantZ, GetAccelInstantX,
    GetAccelInstantY, GetAccelInstantZ, GetRate, GetYawAxis,
    GetXComplementaryAngle, GetYComplementaryAngle, GetXFilteredAccelAngle,
    GetYFilteredAccelAngle, timed, set_guarded, set_m_alpha, set_m_dt.
  cbn [guarded m_yaw_axis m_gyro_x m_gyro_y m_gyro_z m_accel_x m_accel_y m_accel_z
       m_compAngleX m_compAngleY m_accelAngleX m_accelAngleY
       compAngleX compAngleY accelAngleX accelAngleY].
  repeat match goal with |- _ /\ _ => split end; try reflexivity.
  - destruct (m_yaw_axis d); reflexivity.
  - intros Hfirst. rewrite Hfirst in Hangles.
    destruct Hangles as (_ & _ & Hx & Hy).
    unfold CompFilterProcess, FormatRange0to2PI in Hx, Hy.
    split.
    + destruct (range_down fuel _) as [z | |] in Hx; cbn [obind] in Hx;
        try discriminate Hx.
      exact (range_up_exit _ _ _ Hx).
    + destruct (range_down fuel _) as [z | |] in Hy; cbn [obind] in Hy;
        try discriminate Hy.
      exact (range_up_exit _ _ _ Hy).
Qed.

(** *** Numbers that are not numbers *)

Lemma not_a_number (x : float) : (x =? x) = false <-> Prim2SF x = S754_nan.
Proof.
  rewrite FloatAxioms.eqb_spec. unfold SFeqb.
  destruct (Prim2SF x) as [s | s | | s m e]; cbn [SFcompare].
  - split; discriminate.
  - destruct s; split; discriminate.
  - split; reflexivity.
  - destruct s; rewrite Z.compare_refl, Pos.compare_cont_refl; split; discriminate.
Qed.

Lemma nan_ltb (x y : float) : Prim2SF x = S754_nan -> (x <? y) = false.
Proof. intros E. rewrite FloatAxioms.ltb_spec, E. reflexivity. Qed.

Lemma nan_geb (x y : float) : Prim2SF x = S754_nan -> (x >=? y) = false.
Proof.
  intros E. unfold geb. rewrite FloatAxioms.leb_spec, E.
  destruct (Prim2SF y) as [| | | ? ? ?]; reflexivity.
Qed.

Lemma nan_add_l (x y : float) : Prim2SF x = S754_nan -> Prim2SF (x + y) = S754_nan.
Proof. intros E. rewrite FloatAxioms.add_spec, E. reflexivity. Qed.

Lemma nan_add_r (x y : float) : Prim2SF y = S754_nan -> Prim2SF (x + y) = S754_nan.
Proof.
  intros E. rewrite FloatAxioms.add_spec, E.
  destruct (Prim2SF x) as [| | | ? ? ?]; reflexivity.
Qed.

Lemma nan_sub_l (x y : float) : Prim2SF x = S754_nan -> Prim2SF (x - y) = S754_nan.
Proof. intros E. rewrite FloatAxioms.sub_spec, E. reflexivity. Qed.

Lemma nan_sub_r (x y : float) : Prim2SF y = S754_nan -> Prim2SF (x - y) = S754_nan.
Proof.
  intros E. rewrite FloatAxioms.sub_spec, E.
  destruct (Prim2SF x) as [| | | ? ? ?]; reflexivity.
Qed.

Lemma nan_mul_l (x y : float) : Prim2SF x = S754_nan -> Prim2SF (x * y) = S754_nan.
Proof. intros E. rewrite FloatAxioms.mul_spec, E. reflexivity. Qed.

Lemma nan_mul_r (x y : float) : Prim2SF y = S754_nan -> Prim2SF (x * y) = S754_nan.
Proof.
  intros E. rewrite FloatAxioms.mul_spec, E.
  destruct (Prim2SF x) as [| | | ? ? ?]; reflexivity.
Qed.

(** Neither loop of [FormatRange0to2PI] is entered on a NaN. *)
Lemma FormatRange0to2PI_nan (fuel : nat) (x : float) :
  Prim2SF x = S754_nan -> FormatRange0to2PI fuel x = Ret x.
Proof.
  intros E. unfold FormatRange0to2PI.
  rewrite range_down_done by (apply nan_geb; exact E). cbn [obind].
  apply range_up_done. apply nan_ltb. exact E.
Qed.

Lemma FormatFastConverge_nan (c a : float) :
  Prim2SF c = S754_nan -> Prim2SF (FormatFastConverge c a) = S754_nan.
Proof.
  intros E. unfold FormatFastConverge.
  destruct (c >? a + M_PI); [apply nan_sub_l; exact E |].
  destruct (a >? c + M_PI); [apply nan_add_l; exact E | exact E].
Qed.

Lemma CompFilterProcess_nan (fuel : nat) (dt alpha c a w : float) :
  Prim2SF c = S754_nan \/ Prim2SF a = S754_nan \/ Prim2SF w = S754_nan
  \/ Prim2SF dt = S754_nan \/ Prim2SF alpha = S754_nan ->
  exists y : float,
    CompFilterProcess fuel dt alpha c a w = Ret y /\ Prim2SF y = S754_nan.
Proof.
  intros Hnan. unfold CompFilterProcess.
  eexists. split; [apply FormatRange0to2PI_nan | ];
    destruct Hnan as [E | [E | [E | [E | E]]]].
  all: first
    [ apply nan_add_l, nan_mul_r, nan_add_l, FormatFastConverge_nan; exact E
    | apply nan_add_r, nan_mul_r; exact E
    | apply nan_add_l, nan_mul_r, nan_add_r, nan_mul_l; exact E
    | apply nan_add_l, nan_mul_r, nan_add_r, nan_mul_r; exact E
    | apply nan_add_l, nan_mul_l; exact E ].
Qed.

(** X16: the filter does not recover from a NaN.  [CompFilterProcess]
    returns a NaN, without entering a loop, as soon as one of its inputs
    is one; so a complementary angle that is a NaN before a frame is one
    after it, and [GetXComplementaryAngle] or [GetYComplementaryAngle]
    returns a NaN from then on. *)
Theorem NaN_is_not_repaired
    (fuel : nat) (dt alpha c a w : float)
    (i : Z) (l l' : AcquireLocals) (d d' : ADIS16470_IMU) :
  ((c =? c) = false \/ (a =? a) = false \/ (w =? w) = false
   \/ (dt =? dt) = false \/ (alpha =? alpha) = false ->
   exists y : float,
     CompFilterProcess fuel dt alpha c a w = Ret y /\ (y =? y) = false)
  /\ (first_run l = false ->
      Acquire_frame fuel i l d = Ret (l', d') ->
      ((compAngleX l =? compAngleX l) = false ->
       (compAngleX l' =? compAngleX l') = false
       /\ (GetXComplementaryAngle d' =? GetXComplementaryAngle d') = false)
      /\ ((compAngleY l =? compAngleY l) = false ->
          (compAngleY l' =? compAngleY l') = false
          /\ (GetYComplementaryAngle d' =? GetYComplementaryAngle d') = false)).
Proof.
  split.
  - rewrite !not_a_number. intros Hnan.
    destruct (CompFilterProcess_nan fuel dt alpha c a w Hnan) as (y & Hy & E).
    exists y. split; [exact Hy | apply not_a_number; exact E].
  - intros Hfirst Hr. apply Acquire_frame_inv in Hr.
    destruct Hr as [_ (ax & ay & cx & cy & Hangles & -> & ->)].
    rewrite Hfirst in Hangles. destruct Hangles as (_ & _ & Hx & Hy).
    unfold GetXComplementaryAngle, GetYComplementaryAngle, set_guarded.
    cbn [guarded m_compAngleX m_compAngleY compAngleX compAngleY].
    rewrite !not_a_number.
    split; intros E.
    + destruct (CompFilterProcess_nan fuel (m_dt (timed l i d))
                  (m_alpha (timed l i d)) (compAngleX l) ax (- gyro_si l i 9)
                  (or_introl E)) as (y & Hrun & Ey).
      rewrite Hrun in Hx. injection Hx as <-.
      split; [exact Ey | apply nan_mul_l; exact Ey].
    + destruct (CompFilterProcess_nan fuel (m_dt (timed l i d))
                  (m_alpha (timed l i d)) (compAngleY l) ay (gyro_si l i 7)
                  (or_introl E)) as (y & Hrun & Ey).
      rewrite Hrun in Hy. injection Hy as <-.
      split; [exact Ey | apply nan_mul_l; exact Ey].
Qed.

(** The second loop, on an input that adding [2 pi] rounds back to. *)
Lemma range_up_stuck (x : float) :
  (x <? 0.0) = true -> x + 2.0 * M_PI = x ->
  forall fuel, range_up fuel x = OutOfFuel.
Proof.
  intros Hlt Hsame fuel.
  induction fuel as [| fuel IH]; cbn [range_up]; rewrite Hlt.
  - reflexivity.
  - rewrite Hsame. exact IH.
Qed.

(** Past [2^56] the loops stand still: on the next double after [2^56],
    and on the one before [-2^56], [FormatRange0to2PI] does not return. *)
Example FormatRange0to2PI_past_2p56 :
  (forall fuel, FormatRange0to2PI fuel (0x1p+56 + 16) = OutOfFuel)
  /\ (forall fuel, FormatRange0to2PI fuel (- 0x1p+56 - 16) = OutOfFuel).
Proof.
  split; intros fuel; unfold FormatRange0to2PI.
  - rewrite range_down_stuck; reflexivity.
  - rewrite range_down_done by reflexivity. cbn [obind].
    apply range_up_stuck; reflexivity.
Qed.

(** X17: [FormatRange0to2PI] does not return on an input at or above
    [2 pi] that subtracting [2 pi] rounds back to, nor on one below 0 that
    adding [2 pi] rounds back to: the infinities and every finite number
    large enough.  [CompFilterProcess] then does not return either. *)
Theorem FormatRange0to2PI_never_returns
    (fuel : nat) (x dt alpha c a w : float) :
  ((x >=? 2 * M_PI) = true /\ x - 2.0 * M_PI = x)
  \/ ((x <? 0.0) = true /\ x + 2.0 * M_PI = x) ->
  FormatRange0to2PI fuel x = OutOfFuel
  /\ (alpha * (FormatFastConverge c a + w * dt) + (1.0 - alpha) * a = x ->
      CompFilterProcess fuel dt alpha c a w = OutOfFuel).
Proof.
  intros Hstuck.
  assert (Hout : FormatRange0to2PI fuel x = OutOfFuel).
  { unfold FormatRange0to2PI. destruct Hstuck as [[Hge Hsame] | [Hlt Hsame]].
    - rewrite (range_down_stuck x Hge Hsame). reflexivity.
    - destruct (x >=? 2 * M_PI) eqn:Hge.
      + (* below 0 and at or above 2 pi at once: no such number *)
        exfalso. revert Hge Hlt. unfold geb.
        rewrite FloatAxioms.leb_spec, FloatAxioms.ltb_spec.
        change (Prim2SF (2 * M_PI)) with (Prim2SF 0x1.921fb54442d18p+2).
        change (Prim2SF 0.0) with (S754_zero false).
        destruct (Prim2SF x) as [s | s | | s m e]; try destruct s;
          cbn; try discriminate.
        all: destruct (e ?= _)%Z; try discriminate;
          destruct (Pos.compare_cont _ _ _); discriminate.
      + rewrite range_down_done by exact Hge. cbn [obind].
        apply range_up_stuck; assumption. }
  split; [exact Hout |].
  intros <-. exact Hout.
Qed.

Local Close Scope float_scope.

End AcquireMore.

(** ** More of the driver, on the sample data *)

Lemma BuffToShort_roundtrip_witness :
  -32768 <= -2 < 32768
  /\ BuffToShort [7; 255; 254] 1 = -2
  /\ ToShort (bytes_of_int16 (-2)) = -2.
Proof.
  split; [lia |].
  apply (BuffToShort_roundtrip [7; 255; 254] 1 (-2)); [lia | reflexivity | reflexivity].
Defined.

Lemma ToInt_roundtrip_witness :
  - 2 ^ 31 <= -3 < 2 ^ 31 /\ ToInt [255; 255; 255; 253] 0 = -3.
Proof.
  split; [lia |].
  apply (ToInt_roundtrip [255; 255; 255; 253] 0 (-3));
    [lia | reflexivity | reflexivity | reflexivity | reflexivity].
Defined.

Lemma sixteen_bit_joins_witness :
  ToUShort [0x40; 0x56] = 16470
  /\ BuffToShort [0xff; 0x38] 0 = -200
  /\ ToUShort [uint8_t (Z.shiftr 0xBEEF 8); uint8_t (Z.land 0xBEEF 0xff)] = 0xBEEF.
Proof.
  destruct (sixteen_bit_joins 0x40 0x56 0xBEEF) as (Hu & _ & _ & _ & Hback);
    [lia | lia | lia |].
  destruct (sixteen_bit_joins 0xff 0x38 0) as (_ & _ & _ & Hs & _);
    [lia | lia | lia |].
  split; [exact Hu |]. split; [exact Hs | exact Hback].
Defined.

Lemma SwitchToStandardSPI_verifies_product_id_witness :
  0 <= PROD_ID < 128
  /\ fst (SwitchToStandardSPI sample_imu) = true
  /\ fst (SwitchToStandardSPI absent_imu) = false
  /\ reports (snd (SwitchToStandardSPI absent_imu))
     = ["Could not find ADIS16470!"%string].
Proof.
  assert (Hid : 0 <= PROD_ID < 128) by (cbn; lia).
  destruct (SwitchToStandardSPI_verifies_product_id sample_imu
              (snd (SwitchToStandardSPI sample_imu))
              (fst (SwitchToStandardSPI sample_imu)) Hid
              (surjective_pairing _)) as (Hfound & _ & _).
  destruct (SwitchToStandardSPI_verifies_product_id absent_imu
              (snd (SwitchToStandardSPI absent_imu))
              (fst (SwitchToStandardSPI absent_imu)) Hid
              (surjective_pairing _)) as (Habsent & Hreports & _).
  split; [exact Hid |].
  split; [rewrite Hfound; reflexivity |].
  split; [rewrite Habsent; reflexivity |].
  rewrite Hreports, Habsent. reflexivity.
Defined.

Lemma SwitchToStandardSPI_spares_device_and_data_witness :
  regs (bus (snd (SwitchToStandardSPI sample_imu))) = sample_regs
  /\ guarded (snd (SwitchToStandardSPI sample_imu)) = sample_readings
  /\ m_freed (snd (SwitchToStandardSPI sample_imu)) = true
  /\ m_acquire_task (snd (SwitchToStandardSPI sample_imu)) = false.
Proof.
  destruct (SwitchToStandardSPI_spares_device_and_data sample_imu
              (snd (SwitchToStandardSPI sample_imu))
              (fst (SwitchToStandardSPI sample_imu)))
    as (Hregs & _ & _ & _ & Hguarded & Hfreed & _ & Hjoined & _);
    [cbn; lia | apply surjective_pairing |].
  split; [exact Hregs |]. split; [exact Hguarded |].
  split; [exact Hfreed | apply Hjoined; reflexivity].
Defined.

Lemma SwitchToStandardSPI_twice_witness :
  m_auto_interrupt unfound_imu = false
  /\ m_auto_interrupt (snd (SwitchToStandardSPI sample_imu)) = true
  /\ fst (SwitchToStandardSPI (snd (SwitchToStandardSPI unfound_imu)))
     = fst (SwitchToStandardSPI unfound_imu)
  /\ reports (snd (SwitchToStandardSPI (snd (SwitchToStandardSPI unfound_imu))))
     = ["Could not find ADIS16470!"%string; "Could not find ADIS16470!"%string].
Proof.
  destruct (SwitchToStandardSPI_twice unfound_imu
              (snd (SwitchToStandardSPI unfound_imu))
              (snd (SwitchToStandardSPI (snd (SwitchToStandardSPI unfound_imu))))
              (fst (SwitchToStandardSPI unfound_imu))
              (fst (SwitchToStandardSPI (snd (SwitchToStandardSPI unfound_imu)))))
    as (_ & Htwice);
    [cbn; lia | apply surjective_pairing | apply surjective_pairing |].
  destruct (Htwice eq_refl)
    as (Hsame & _ & _ & _ & _ & _ & _ & _ & _ & _ & _ & Hreports).
  destruct (SwitchToStandardSPI_twice sample_imu
              (snd (SwitchToStandardSPI sample_imu))
              (snd (SwitchToStandardSPI (snd (SwitchToStandardSPI sample_imu))))
              (fst (SwitchToStandardSPI sample_imu))
              (fst (SwitchToStandardSPI (snd (SwitchToStandardSPI sample_imu)))))
    as ((Hkept & _) & _);
    [cbn; lia | apply surjective_pairing | apply surjective_pairing |].
  split; [reflexivity |].
  split; [rewrite Hkept; reflexivity |].
  split; [exact Hsame |].
  rewrite Hreports. vm_compute. reflexivity.
Defined.

Lemma SwitchToAutoSPI_on_open_handle_witness :
  m_spi absent_imu = true
  /\ fst (SwitchToAutoSPI absent_imu) = true
  /\ wire (bus (snd (SwitchToAutoSPI absent_imu))) = auto_setup kZ
  /\ GetAngle (snd (SwitchToAutoSPI absent_imu)) = 0%float.
Proof.
  destruct (SwitchToAutoSPI_on_open_handle absent_imu
              (snd (SwitchToAutoSPI absent_imu))
              (fst (SwitchToAutoSPI absent_imu)))
    as (Hok & Hwire & _ & _ & _ & _ & Hangle & _);
    [reflexivity | apply surjective_pairing |].
  split; [reflexivity |]. split; [exact Hok |].
  split; [exact Hwire | exact Hangle].
Defined.

Lemma SwitchToAutoSPI_without_handle_witness :
  m_spi closed_imu = false
  /\ fst (SwitchToAutoSPI closed_imu) = false
  /\ wire (bus (snd (SwitchToAutoSPI closed_imu))) = standard_setup
  /\ m_freed (snd (SwitchToAutoSPI closed_imu)) = true
  /\ GetAngle (snd (SwitchToAutoSPI closed_imu)) = 7%float.
Proof.
  destruct (SwitchToAutoSPI_without_handle closed_imu
              (snd (SwitchToAutoSPI closed_imu))
              (fst (SwitchToAutoSPI closed_imu)))
    as (Hok & Hwire & _ & Hfreed & _ & Hfailed & _);
    [cbn; lia | reflexivity | apply surjective_pairing |].
  assert (Hno : fst (SwitchToAutoSPI closed_imu) = false)
    by (rewrite Hok; reflexivity).
  split; [reflexivity |]. split; [exact Hno |].
  split; [rewrite Hwire, Hno; reflexivity |].
  split; [rewrite Hfreed, Hno; reflexivity |].
  destruct (Hfailed Hno) as (Hangle & _). rewrite Hangle. reflexivity.
Defined.

Lemma SetYawAxis_switches_axis_witness :
  device_found (bus sample_imu) = true
  /\ fst (SetYawAxis kX sample_imu) = 0
  /\ GetYawAxis (snd (SetYawAxis kX sample_imu)) = kX
  /\ wire (bus (snd (SetYawAxis kX sample_imu)))
     = DeleteSPI :: standard_setup ++ auto_setup kX.
Proof.
  destruct (SetYawAxis_switches_axis sample_imu (snd (SetYawAxis kX sample_imu))
              kX (fst (SetYawAxis kX sample_imu)))
    as (Hcode & Haxis & Hwire & _);
    [cbn; lia | reflexivity | discriminate | apply surjective_pairing |].
  split; [reflexivity |]. split; [exact Hcode |].
  split; [exact Haxis | exact Hwire].
Defined.

Lemma ConfigCalTime_writes_NULL_CNFG_witness :
  valid_register NULL_CNFG = true
  /\ fst (ConfigCalTime 5 sample_imu) = 0
  /\ m_calibration_time (snd (ConfigCalTime 5 sample_imu)) = 5
  /\ register16 (bus (snd (ConfigCalTime 5 sample_imu))) NULL_CNFG = 0x705.
Proof.
  destruct (ConfigCalTime_writes_NULL_CNFG sample_imu
              (snd (ConfigCalTime 5 sample_imu)) 5
              (fst (ConfigCalTime 5 sample_imu)))
    as (Hcode & Htime & Hreg & _);
    [cbn; lia | reflexivity | reflexivity | discriminate
     | apply surjective_pairing |].
  split; [reflexivity |]. split; [exact Hcode |].
  split; [exact Htime | exact Hreg].
Defined.

Lemma Calibrate_writes_GLOB_CMD_witness :
  valid_register GLOB_CMD = true
  /\ register16 (bus (snd (Calibrate sample_imu))) GLOB_CMD = 1
  /\ regs (bus (snd (Calibrate sample_imu))) PROD_ID = 0x56
  /\ GetAngle (snd (Calibrate sample_imu)) = 0%float.
Proof.
  destruct (Calibrate_writes_GLOB_CMD sample_imu (snd (Calibrate sample_imu)))
    as (Hreg & Hrest & _ & Hangle & _);
    [cbn; lia | reflexivity | reflexivity
     | destruct (Calibrate sample_imu) as [[] d']; reflexivity |].
  split; [reflexivity |]. split; [exact Hreg |].
  split; [| exact Hangle].
  rewrite Hrest; [reflexivity | discriminate | discriminate].
Defined.

Lemma failed_switch_leaves_acquisition_stopped_witness :
  device_found (bus absent_imu) = false
  /\ m_freed (snd (Calibrate absent_imu)) = true
  /\ m_acquire_task (snd (SetYawAxis kX absent_imu)) = false
  /\ Acquire 10 [frame_a] sample_locals (snd (ConfigCalTime 5 absent_imu))
     = Ret (Acquire_entry sample_locals, snd (ConfigCalTime 5 absent_imu), []).
Proof.
  destruct (failed_switch_leaves_acquisition_stopped absent_imu kX 5 10
              [frame_a] sample_locals)
    as (Hcal & Hyaw & Htime & Hfreed & Htask & _ & Hloop);
    [cbn; lia | reflexivity |].
  split; [reflexivity |].
  split; [rewrite Hcal; exact Hfreed |].
  split; [rewrite Hyaw by discriminate; apply Htask; reflexivity |].
  rewrite Htime by discriminate. exact Hloop.
Defined.

Lemma partial_poll_run :
  Acquire_poll 10 (Acquire_entry sample_locals) partial_imu
  = Ret (fst (fst partial_poll), snd (fst partial_poll), snd partial_poll).
Proof. vm_compute. reflexivity. Qed.

Lemma Acquire_poll_whole_data_sets_witness :
  data_to_read (bus partial_imu) = 19
  /\ snd partial_poll = [0]
  /\ fifo (bus (snd (fst partial_poll))) = [1500; 0]
  /\ wire (bus (snd (fst partial_poll)))
     = [ReadAutoReceivedData 0; ReadAutoReceivedData 19].
Proof.
  destruct (Acquire_poll_whole_data_sets 10 (Acquire_entry sample_locals)
              (fst (fst partial_poll)) partial_imu (snd (fst partial_poll))
              (snd partial_poll) partial_poll_run)
    as (Hdecoded & _ & Hfifo & _ & _ & Hwire & _).
  split; [reflexivity |].
  split; [rewrite Hdecoded; reflexivity |].
  split; [| rewrite Hwire; reflexivity].
  vm_compute. reflexivity.
Defined.

Lemma lost2_run :
  Acquire_frame 10 19 (fst lost1) (snd lost1) = Ret (fst lost2, snd lost2).
Proof. vm_compute. reflexivity. Qed.

Local Open Scope float_scope.

Lemma readings_after_frame_witness :
  GetGyroInstantX (snd level2) = 10
  /\ GetGyroInstantY (snd level2) = 5
  /\ GetAccelInstantZ (snd level2) = 1
  /\ GetRate (snd level2) = 0
  /\ (compAngleX (fst level2) <? 0) = false.
Proof.
  destruct (readings_after_frame 10 19 (fst level1) (fst level2)
              (snd level1) (snd level2) level2_run)
    as (Hgx & Hgy & _ & _ & _ & Haz & Hrate & _ & _ & _ & _ & _ & Hpos).
  split; [rewrite Hgx; vm_compute; reflexivity |].
  split; [rewrite Hgy; vm_compute; reflexivity |].
  split; [rewrite Haz; vm_compute; reflexivity |].
  split; [rewrite Hrate; vm_compute; reflexivity |].
  apply Hpos. reflexivity.
Defined.

Lemma NaN_is_not_repaired_witness :
  (exists y : float,
     CompFilterProcess 0 0.25 0.5 nan 0 1 = Ret y /\ (y =? y) = false)
  /\ (compAngleX (fst lost1) =? compAngleX (fst lost1)) = false
  /\ (compAngleX (fst lost2) =? compAngleX (fst lost2)) = false
  /\ (GetXComplementaryAngle (snd lost2) =? GetXComplementaryAngle (snd lost2))
     = false.
Proof.
  destruct (NaN_is_not_repaired 0 0.25 0.5 nan 0 1 19 (fst lost1) (fst lost2)
              (snd lost1) (snd lost2)) as (Hfilter & Hframe).
  destruct (Hframe eq_refl lost2_run) as (Hx & _).
  split; [apply Hfilter; left; reflexivity |].
  split; [reflexivity |].
  apply Hx. reflexivity.
Defined.

Lemma FormatRange0to2PI_never_returns_witness :
  (infinity >=? 2 * M_PI) = true
  /\ infinity - 2.0 * M_PI = infinity
  /\ FormatRange0to2PI 1000 infinity = OutOfFuel
  /\ FormatRange0to2PI 1000 neg_infinity = OutOfFuel
  /\ CompFilterProcess 1000 0.25 0.5 infinity 0 1 = OutOfFuel.
Proof.
  destruct (FormatRange0to2PI_never_returns 1000 infinity 0.25 0.5 infinity 0 1)
    as (Hup & Hfilter); [left; split; reflexivity |].
  destruct (FormatRange0to2PI_never_returns 1000 neg_infinity 0 0 0 0 0)
    as (Hdown & _); [right; split; reflexivity |].
  split; [reflexivity |]. split; [reflexivity |].
  split; [exact Hup |]. split; [exact Hdown |].
  apply Hfilter. reflexivity.
Defined.

Local Close Scope float_scope.

(** ** The polls and the stream of data sets *)

Section AcquireStream.
Context {H : Header} {L : Libm}.

Lemma with_buffer_twice (b b' : list Z) (l : AcquireLocals) :
  with_buffer b (with_buffer b' l) = with_buffer b l.
Proof. reflexivity. Qed.

Lemma with_buffer_same (l : AcquireLocals) : with_buffer (buffer l) l = l.
Proof. destruct l; reflexivity. Qed.

Lemma set_bus_same (d : ADIS16470_IMU) : set_bus (bus d) d = d.
Proof. destruct d; reflexivity. Qed.

Lemma set_bus_twice (b b' : SimBus) (d : ADIS16470_IMU) :
  set_bus b (set_bus b' d) = set_bus b d.
Proof. reflexivity. Qed.

(** The frame body reads its buffer at the 19 words from [i] on and
    nowhere else: the same words at [j] of another buffer give the same
    frame. *)
Lemma Acquire_frame_relocate (fuel : nat) (i j : Z) (l : AcquireLocals)
    (buf : list Z) (d : ADIS16470_IMU) :
  0 <= i -> i + dataset_len <= dataset_len * num_buffers ->
  0 <= j -> j + dataset_len <= dataset_len * num_buffers ->
  (forall k, 0 <= k < dataset_len -> idx buf (j + k) = idx (buffer l) (i + k)) ->
  Acquire_frame fuel j (with_buffer buf l) d
  = omap (fun s => (with_buffer buf (fst s), snd s)) (Acquire_frame fuel i l d).
Proof.
  intros Hi Hi' Hj Hj' Hw. unfold dataset_len in Hw.
  assert (E0 : idx buf j = idx (buffer l) i).
  { rewrite <- (Z.add_0_r j), <- (Z.add_0_r i). apply Hw. lia. }
  assert (EI : ToInt buf (j + 3) = ToInt (buffer l) (i + 3)).
  { unfold ToInt. rewrite <- !Z.add_assoc. rewrite !Hw by lia. reflexivity. }
  assert (ES : forall k, 0 <= k < 18 ->
                 BuffToShort buf (j + k) = BuffToShort (buffer l) (i + k)).
  { intros k Hk. unfold BuffToShort. rewrite <- !Z.add_assoc.
    rewrite !Hw by lia. reflexivity. }
  unfold Acquire_frame.
  replace ((0 <=? j) && (j + dataset_len <=? dataset_len * num_buffers))
    with true
    by (symmetry; apply andb_true_intro; split; apply Z.leb_le; assumption).
  replace ((0 <=? i) && (i + dataset_len <=? dataset_len * num_buffers))
    with true
    by (symmetry; apply andb_true_intro; split; apply Z.leb_le; assumption).
  cbn [negb buffer with_buffer previous_timestamp compAngleX compAngleY
       accelAngleX accelAngleY first_run].
  rewrite E0, EI, !ES by lia.
  destruct (first_run l); cbn [obind omap fst snd]; [reflexivity |].
  repeat match goal with
  | |- context [CompFilterProcess ?f ?dt ?al ?c ?a ?w] =>
      destruct (CompFilterProcess f dt al c a w) as [? | |];
      cbn [obind omap fst snd]
  end; reflexivity.
Qed.

(** The frame body does not look at the bus. *)
Lemma Acquire_frame_set_bus (fuel : nat) (i : Z) (l : AcquireLocals)
    (b : SimBus) (d : ADIS16470_IMU) :
  Acquire_frame fuel i l (set_bus b d)
  = omap (fun s => (fst s, set_bus b (snd s))) (Acquire_frame fuel i l d).
Proof.
  unfold Acquire_frame.
  destruct (negb ((0 <=? i) && (i + dataset_len <=? dataset_len * num_buffers)));
    [reflexivity |].
  destruct d as [yaw cal freed open irq task b0 rep dt al tau g].
  unfold set_bus, set_m_dt, set_m_alpha, set_guarded.
  cbn [m_yaw_axis m_calibration_time m_freed m_spi m_auto_interrupt
       m_acquire_task bus reports m_dt m_alpha m_tau guarded].
  destruct (first_run l); cbn [obind omap fst snd]; [reflexivity |].
  repeat match goal with
  | |- context [CompFilterProcess ?f ?dt ?al ?c ?a ?w] =>
      destruct (CompFilterProcess f dt al c a w) as [? | |];
      cbn [obind omap fst snd]
  end; reflexivity.
Qed.

(** The frame body leaves the thread flag alone. *)
Lemma Acquire_frame_m_freed (fuel : nat) (i : Z) (l l' : AcquireLocals)
    (d d' : ADIS16470_IMU) :
  Acquire_frame fuel i l d = Ret (l', d') -> m_freed d' = m_freed d.
Proof.
  intros Hr. apply Acquire_frame_inv in Hr.
  destruct Hr as [_ (ax & ay & cx & cy & _ & _ & ->)]. reflexivity.
Qed.

Lemma Acquire_stream_with_buffer (fuel n : nat) (words b : list Z)
    (l : AcquireLocals) (d : ADIS16470_IMU) :
  Acquire_stream fuel n words (with_buffer b l) d = Acquire_stream fuel n words l d.
Proof. destruct n; reflexivity. Qed.

Lemma Acquire_stream_set_bus (fuel n : nat) :
  forall (words : list Z) (l : AcquireLocals) (b : SimBus) (d : ADIS16470_IMU),
    Acquire_stream fuel n words l (set_bus b d)
    = omap (fun s => (fst s, set_bus b (snd s))) (Acquire_stream fuel n words l d).
Proof.
  induction n as [| n IH]; intros words l b d; cbn [Acquire_stream].
  - reflexivity.
  - rewrite Acquire_frame_set_bus.
    destruct (Acquire_frame fuel 0 (with_buffer (firstn 19 words) l) d)
      as [[l1 d1] | |]; cbn [omap obind fst snd]; [apply IH | reflexivity ..].
Qed.

Lemma Acquire_stream_m_freed (fuel n : nat) :
  forall (words : list Z) (l l' : AcquireLocals) (d d' : ADIS16470_IMU),
    Acquire_stream fuel n words l d = Ret (l', d') ->
    m_freed d' = m_freed d /\ bus d' = bus d.
Proof.
  induction n as [| n IH]; intros words l l' d d'; cbn [Acquire_stream].
  - intros Hr. injection Hr as _ <-. split; reflexivity.
  - destruct (Acquire_frame fuel 0 (with_buffer (firstn 19 words) l) d)
      as [[l1 d1] | |] eqn:E; cbn [obind]; try discriminate.
    intros Hr. apply IH in Hr. destruct Hr as [-> ->].
    split; [exact (Acquire_frame_m_freed _ _ _ _ _ _ E) |].
    apply Acquire_frame_keeps in E. apply E.
Qed.

(** The stream reads its first [19 * n] words only. *)
Lemma Acquire_stream_ext (fuel n : nat) :
  forall (w1 w2 : list Z) (l : AcquireLocals) (d : ADIS16470_IMU),
    firstn (19 * n) w1 = firstn (19 * n) w2 ->
    Acquire_stream fuel n w1 l d = Acquire_stream fuel n w2 l d.
Proof.
  induction n as [| n IH]; intros w1 w2 l d Hw; cbn [Acquire_stream].
  - reflexivity.
  - assert (H19 : firstn 19 w1 = firstn 19 w2).
    { apply (f_equal (firstn 19)) in Hw. rewrite !firstn_firstn in Hw.
      replace (Nat.min 19 (19 * S n)) with 19%nat in Hw by lia. exact Hw. }
    assert (Hrest : firstn (19 * n) (skipn 19 w1) = firstn (19 * n) (skipn 19 w2)).
    { apply (f_equal (skipn 19)) in Hw. rewrite !skipn_firstn_comm in Hw.
      replace (19 * S n - 19)%nat with (19 * n)%nat in Hw by lia. exact Hw. }
    rewrite H19.
    destruct (Acquire_frame fuel 0 (with_buffer (firstn 19 w2) l) d)
      as [[l1 d1] | |]; cbn [obind]; [apply IH; exact Hrest | reflexivity ..].
Qed.

(** [n + m] data sets are [n] data sets and then [m] more. *)
Lemma Acquire_stream_app (fuel n m : nat) :
  forall (words : list Z) (l : AcquireLocals) (d : ADIS16470_IMU),
    Acquire_stream fuel (n + m) words l d
    = obind (Acquire_stream fuel n words l d)
        (fun s => Acquire_stream fuel m (skipn (19 * n) words) (fst s) (snd s)).
Proof.
  induction n as [| n IH]; intros words l d.
  - cbn [Nat.add Acquire_stream obind fst snd Nat.mul skipn].
    symmetry. apply Acquire_stream_with_buffer.
  - cbn [Nat.add Acquire_stream].
    destruct (Acquire_frame fuel 0 (with_buffer (firstn 19 words) l) d)
      as [[l1 d1] | |]; cbn [obind]; [| reflexivity ..].
    rewrite IH, skipn_skipn.
    replace (19 * n + 19)%nat with (19 * S n)%nat by lia. reflexivity.
Qed.

Lemma idx_firstn_skipn (buf : list Z) (i k : Z) :
  0 <= i -> 0 <= k < 19 ->
  idx (firstn 19 (skipn (Z.to_nat i) buf)) (0 + k) = idx buf (i + k).
Proof.
  intros Hi Hk. unfold idx. rewrite Z.add_0_l.
  rewrite nth_firstn.
  replace (Z.to_nat k <? 19)%nat with true by (symmetry; apply Nat.ltb_lt; lia).
  rewrite nth_skipn. f_equal. lia.
Qed.

(** The loop over the data sets of a buffer is the stream of its words. *)
Lemma Acquire_frames_stream (fuel k : nat) :
  forall (steps : nat) (i : Z) (l : AcquireLocals) (d : ADIS16470_IMU)
         (decoded : list Z),
    0 <= i -> i + dataset_len * Z.of_nat k <= dataset_len * num_buffers ->
    (k <= steps)%nat ->
    Acquire_frames steps fuel i (i + dataset_len * Z.of_nat k) l d decoded
    = omap (fun s => (with_buffer (buffer l) (fst s), snd s, decoded ++ offsets i k))
        (Acquire_stream fuel k (skipn (Z.to_nat i) (buffer l)) l d).
Proof.
  induction k as [| k IH]; intros steps i l d decoded Hi Hfit Hsteps.
  - cbn [Acquire_stream omap fst snd].
    rewrite with_buffer_twice, with_buffer_same.
    unfold offsets. cbn [seq map]. rewrite app_nil_r.
    destruct steps; cbn [Acquire_frames];
      (replace (i <? i + dataset_len * Z.of_nat 0) with false
         by (symmetry; apply Z.ltb_ge; lia)); reflexivity.
  - destruct steps as [| steps]; [lia |]. cbn [Acquire_frames Acquire_stream].
    replace (i <? i + dataset_len * Z.of_nat (S k)) with true
      by (symmetry; apply Z.ltb_lt; unfold dataset_len; lia).
    rewrite (Acquire_frame_relocate fuel i 0 l
               (firstn 19 (skipn (Z.to_nat i) (buffer l))) d);
      [| lia | unfold dataset_len, num_buffers in *; lia | lia
       | unfold dataset_len, num_buffers; lia
       | intros m Hm; apply idx_firstn_skipn; [lia | exact Hm]].
    destruct (Acquire_frame fuel i l d) as [[l1 d1] | |] eqn:Ef;
      cbn [obind omap fst snd]; [| reflexivity ..].
    rewrite Acquire_stream_with_buffer.
    apply Acquire_frame_keeps in Ef. destruct Ef as [Hbuf _].
    replace (i + dataset_len * Z.of_nat (S k))
      with (i + dataset_len + dataset_len * Z.of_nat k)
      by (unfold dataset_len; lia).
    rewrite IH by (unfold dataset_len, num_buffers in *; lia).
    rewrite Hbuf, skipn_skipn.
    replace (19 + Z.to_nat i)%nat with (Z.to_nat (i + dataset_len))
      by (unfold dataset_len; lia).
    rewrite offsets_S, <- app_assoc. reflexivity.
Qed.

Lemma Acquire_stream_result (fuel n : nat) :
  forall (words : list Z) (l l' : AcquireLocals) (d d' : ADIS16470_IMU),
    Acquire_stream fuel n words l d = Ret (l', d') ->
    with_buffer [] l' = l' /\ set_bus (bus d) d' = d'.
Proof.
  induction n as [| n IH]; intros words l l' d d'; cbn [Acquire_stream].
  - intros Hr. injection Hr as <- <-. split; [reflexivity | apply set_bus_same].
  - destruct (Acquire_frame fuel 0 (with_buffer (firstn 19 words) l) d)
      as [[l1 d1] | |] eqn:E; cbn [obind]; try discriminate.
    intros Hr. apply IH in Hr. apply Acquire_frame_keeps in E.
    destruct E as [_ <-]. exact Hr.
Qed.

(** The whole data sets among [n] words. *)
Lemma sets_add (n1 r : Z) :
  0 <= n1 -> 0 <= r ->
  Z.to_nat ((19 * n1 + r) / 19) = (Z.to_nat n1 + Z.to_nat (r / 19))%nat.
Proof.
  intros Hn Hr.
  replace (19 * n1 + r) with (r + n1 * 19) by lia.
  rewrite Z.div_add by lia.
  pose proof (Z.div_pos r 19 Hr ltac:(lia)). lia.
Qed.

(** One poll is the stream of the words it finds, up to the last whole
    data set; what follows those words does not matter. *)
Lemma Acquire_poll_stream (fuel : nat) (l l1 : AcquireLocals)
    (d d1 : ADIS16470_IMU) (decoded more : list Z) :
  Acquire_poll fuel l d = Ret (l1, d1, decoded) ->
  Acquire_stream fuel (Z.to_nat (Z.of_nat (length (fifo (bus d))) / 19))
    (fifo (bus d) ++ more) l d
  = Ret (with_buffer [] l1, set_bus (bus d) d1)
  /\ fifo (bus d) = firstn (19 * Z.to_nat (Z.of_nat (length (fifo (bus d))) / 19))
                      (fifo (bus d)) ++ fifo (bus d1)
  /\ (19 * Z.to_nat (Z.of_nat (length (fifo (bus d))) / 19)
      <= length (fifo (bus d)))%nat
  /\ m_freed d1 = m_freed d
  /\ length decoded = Z.to_nat (Z.of_nat (length (fifo (bus d))) / 19).
Proof.
  intros Hrun.
  destruct (data_to_read_eq (bus d)) as (Hn & Hmod & Hle & Hdiv).
  set (N := Z.of_nat (length (fifo (bus d)))) in *.
  set (n := Z.to_nat (N / 19)).
  assert (HN : 0 <= N / 19) by (apply Z.div_pos; unfold N; lia).
  assert (Hdn : Z.to_nat (data_to_read (bus d)) = (19 * n)%nat) by (unfold n; lia).
  assert (Hroom : data_to_read (bus d) <= dataset_len * num_buffers).
  { destruct (Z.lt_ge_cases (dataset_len * num_buffers) (data_to_read (bus d)))
      as [Hlt | Hge]; [| lia].
    rewrite (Acquire_poll_overrun fuel l d) in Hrun; [discriminate |].
    cbv zeta. fold N. lia. }
  rewrite Acquire_poll_eq in Hrun. unfold store_words in Hrun.
  assert (Hk : length (firstn (Z.to_nat (data_to_read (bus d))) (fifo (bus d)))
               = Z.to_nat (data_to_read (bus d))).
  { apply firstn_length_le. unfold N in *. lia. }
  rewrite Hk in Hrun.
  replace (Z.of_nat (Z.to_nat (data_to_read (bus d))) <=? dataset_len * num_buffers)
    with true in Hrun by (symmetry; apply Z.leb_le; lia).
  cbn [obind] in Hrun.
  match type of Hrun with
  | Acquire_frames ?s _ _ _ ?l0 ?d0 _ = _ =>
      pose proof (Acquire_frames_stream fuel n s 0 l0 d0 []) as Hfs
  end.
  replace (0 + dataset_len * Z.of_nat n) with (data_to_read (bus d)) in Hfs
    by (unfold dataset_len, n; lia).
  rewrite Hfs in Hrun by (unfold dataset_len, num_buffers, n in *; lia).
  clear Hfs. cbn [buffer Z.to_nat skipn] in Hrun.
  match type of Hrun with
  | context [Acquire_stream fuel n ?b ?l0 ?d0] =>
      change l0 with (with_buffer b l) in Hrun;
      rewrite Acquire_stream_with_buffer, Acquire_stream_set_bus in Hrun;
      rewrite (Acquire_stream_ext fuel n b (fifo (bus d) ++ more)) in Hrun
  end.
  2:{ rewrite Hdn in *. rewrite firstn_app, Hk, Nat.sub_diag, firstn_O, app_nil_r.
      rewrite firstn_firstn, Nat.min_id.
      rewrite firstn_app.
      replace (19 * n - length (fifo (bus d)))%nat with 0%nat by (unfold N in *; lia).
      rewrite firstn_O, app_nil_r. reflexivity. }
  destruct (Acquire_stream fuel n (fifo (bus d) ++ more) l d)
    as [[ls ds] | |] eqn:Es; cbn [omap fst snd] in Hrun; try discriminate.
  injection Hrun as <- <- <-.
  destruct (Acquire_stream_result _ _ _ _ _ _ _ Es) as [Hls Hds].
  destruct (Acquire_stream_m_freed _ _ _ _ _ _ _ Es) as [Hfreed _].
  rewrite with_buffer_twice, set_bus_twice, Hls, Hds.
  unfold set_bus. cbn [bus fifo m_freed].
  split; [reflexivity |].
  split; [rewrite Hdn; symmetry; apply firstn_skipn |].
  split; [unfold N in *; lia |].
  split; [exact Hfreed |].
  cbn [app]. unfold offsets. rewrite length_map, length_seq. reflexivity.
Qed.

(** The two components of [Ret (a, b) = Ret (a', b')], as they stand. *)
Ltac ret_pair Hs Hl Hd :=
  match type of Hs with
  | Ret (?a, ?b) = Ret (_, _) =>
      pose proof (f_equal (fun o => fst (ret_or (a, b) o)) Hs) as Hl;
      pose proof (f_equal (fun o => snd (ret_or (a, b) o)) Hs) as Hd;
      cbn [ret_or fst snd] in Hl, Hd; clear Hs
  end.

Lemma Acquire_loop_cons (fuel : nat) (a : list Z) (rest : list (list Z))
    (l : AcquireLocals) (d : ADIS16470_IMU) :
  Acquire_loop fuel (a :: rest) l d
  = if m_freed d then Ret (l, d, [])
    else obind (Acquire_poll fuel l (set_bus (arrive a (bus d)) d))
           (fun r => obind (Acquire_loop fuel rest (fst (fst r)) (snd (fst r)))
                       (fun r' => Ret (fst (fst r'), snd (fst r'), snd r :: snd r'))).
Proof.
  cbn [Acquire_loop]. destruct (m_freed d); [reflexivity |].
  destruct (Acquire_poll fuel l (set_bus (arrive a (bus d)) d))
    as [[[l1 d1] dec1] | |]; cbn [obind fst snd]; [| reflexivity ..].
  destruct (Acquire_loop fuel rest l1 d1) as [[[l2 d2] dec2] | |];
    reflexivity.
Qed.

(** The polls of a thread that is not stopped, one after the other, are
    the stream of all the words they find. *)
Lemma Acquire_loop_stream (fuel : nat) (rest : list (list Z)) :
  forall (a : list Z) (l l' : AcquireLocals) (d d' : ADIS16470_IMU)
         (decoded : list (list Z)),
    m_freed d = false ->
    Acquire_loop fuel (a :: rest) l d = Ret (l', d', decoded) ->
    Acquire_stream fuel
      (Z.to_nat (Z.of_nat (length (fifo (bus d) ++ a ++ concat rest)) / 19))
      (fifo (bus d) ++ a ++ concat rest) l d
    = Ret (with_buffer [] l', set_bus (bus d) d')
    /\ fifo (bus d')
       = skipn (19 * Z.to_nat (Z.of_nat (length (fifo (bus d) ++ a ++ concat rest)) / 19))
           (fifo (bus d) ++ a ++ concat rest)
    /\ length (concat decoded)
       = Z.to_nat (Z.of_nat (length (fifo (bus d) ++ a ++ concat rest)) / 19).
Proof.
  induction rest as [| a2 rest IH]; intros a l l' d d' decoded Hfreed;
    rewrite Acquire_loop_cons, Hfreed;
    destruct (Acquire_poll fuel l (set_bus (arrive a (bus d)) d))
      as [[[l1 d1] dec1] | |] eqn:Ep; cbn [obind fst snd]; try discriminate.
  - cbn [Acquire_loop obind fst snd]. intros Hr. injection Hr as <- <- <-.
    destruct (Acquire_poll_stream _ _ _ _ _ _ [] Ep)
      as (Hs & Hfifo & Hle & _ & Hlen).
    change (fifo (bus (set_bus (arrive a (bus d)) d)))
      with (fifo (bus d) ++ a) in Hs, Hfifo, Hle, Hlen.
    change (bus (set_bus (arrive a (bus d)) d)) with (arrive a (bus d)) in Hs.
    cbn [concat]. rewrite !app_nil_r in *.
    rewrite Acquire_stream_set_bus in Hs.
    destruct (Acquire_stream fuel _ (fifo (bus d) ++ a) l d)
      as [[ls ds] | |] eqn:Es; cbn [omap fst snd] in Hs; try discriminate.
    ret_pair Hs Hl Hd.
    destruct (Acquire_stream_result _ _ _ _ _ _ _ Es) as [_ Hds].
    apply (f_equal (set_bus (bus d))) in Hd. rewrite !set_bus_twice, Hds in Hd.
    split; [rewrite Hl, Hd; reflexivity |].
    split.
    + rewrite Hfifo at 2. rewrite skipn_app, firstn_length_le by exact Hle.
      rewrite Nat.sub_diag, skipn_all2 by (rewrite firstn_length_le by exact Hle; lia).
      reflexivity.
    + exact Hlen.
  - destruct (Acquire_loop fuel (a2 :: rest) l1 d1)
      as [[[l2 d2] dec2] | |] eqn:El; cbn [obind fst snd]; try discriminate.
    intros Hr. injection Hr as <- <- <-.
    destruct (Acquire_poll_stream _ _ _ _ _ _ (concat (a2 :: rest)) Ep)
      as (Hs & Hfifo & Hle & Hfreed1 & Hlen).
    change (fifo (bus (set_bus (arrive a (bus d)) d)))
      with (fifo (bus d) ++ a) in Hs, Hfifo, Hle, Hlen.
    change (bus (set_bus (arrive a (bus d)) d)) with (arrive a (bus d)) in Hs.
    change (m_freed (set_bus (arrive a (bus d)) d)) with (m_freed d) in Hfreed1.
    rewrite Acquire_stream_set_bus in Hs.
    set (W1 := fifo (bus d) ++ a) in *.
    set (n1 := Z.to_nat (Z.of_nat (length W1) / 19)) in *.
    destruct (Acquire_stream fuel n1 (W1 ++ concat (a2 :: rest)) l d)
      as [[ls ds] | |] eqn:Es; cbn [omap fst snd] in Hs; try discriminate.
    ret_pair Hs Hl Hd.
    destruct (Acquire_stream_result _ _ _ _ _ _ _ Es) as [_ Hds].
    apply (f_equal (set_bus (bus d))) in Hd. rewrite !set_bus_twice, Hds in Hd.
    subst ls ds.
    destruct (IH a2 l1 l2 d1 d2 dec2 (eq_trans Hfreed1 Hfreed) El)
      as (Hs2 & Hfifo2 & Hlen2).
    set (W2 := fifo (bus d1) ++ a2 ++ concat rest) in *.
    set (n2 := Z.to_nat (Z.of_nat (length W2) / 19)) in *.
    assert (HW : fifo (bus d) ++ a ++ concat (a2 :: rest)
                 = firstn (19 * n1) W1 ++ W2).
    { unfold W2. cbn [concat]. rewrite app_assoc. fold W1.
      rewrite Hfifo at 1. rewrite <- app_assoc. reflexivity. }
    assert (Hlen1 : length (firstn (19 * n1) W1) = (19 * n1)%nat)
      by (apply firstn_length_le; exact Hle).
    assert (Hn : Z.to_nat (Z.of_nat (length (firstn (19 * n1) W1 ++ W2)) / 19)
                 = (n1 + n2)%nat).
    { rewrite length_app, Hlen1.
      replace (Z.of_nat (19 * n1 + length W2))
        with (19 * Z.of_nat n1 + Z.of_nat (length W2)) by lia.
      rewrite sets_add by lia. unfold n2. lia. }
    assert (Hskip : skipn (19 * n1) (firstn (19 * n1) W1 ++ W2) = W2).
    { rewrite skipn_app, Hlen1, Nat.sub_diag.
      rewrite skipn_all2 by (rewrite Hlen1; lia). reflexivity. }
    rewrite HW, Hn.
    split; [| split].
    + rewrite Acquire_stream_app.
      replace (firstn (19 * n1) W1 ++ W2) with (W1 ++ concat (a2 :: rest)) at 1
        by (rewrite <- HW; unfold W1; rewrite <- app_assoc; reflexivity).
      rewrite Es. cbn [obind fst snd].
      rewrite Acquire_stream_with_buffer, Acquire_stream_set_bus, Hskip, Hs2.
      cbn [omap fst snd]. rewrite set_bus_twice. reflexivity.
    + rewrite Hfifo2.
      replace (19 * (n1 + n2))%nat with (19 * n2 + 19 * n1)%nat by lia.
      rewrite <- skipn_skipn, Hskip. reflexivity.
    + cbn [concat]. rewrite length_app, Hlen, Hlen2. reflexivity.
Qed.

(** X18: the readings do not depend on how the polls happen to group the
    words.  Two runs of the acquire loop from the same start, over the
    same stream of words cut into polls in two ways, leave the same locals
    but for the buffer, the same object but for the bus, the same words of
    an incomplete data set waiting in the transport, and have handled the
    same number of data sets. *)
Theorem Acquire_regrouped
    (fuel : nat) (A B : list (list Z)) (u : AcquireLocals) (d : ADIS16470_IMU)
    (lA lB : AcquireLocals) (dA dB : ADIS16470_IMU) (decA decB : list (list Z)) :
  A <> [] -> B <> [] -> concat A = concat B ->
  Acquire fuel A u d = Ret (lA, dA, decA) ->
  Acquire fuel B u d = Ret (lB, dB, decB) ->
  with_buffer [] lA = with_buffer [] lB
  /\ set_bus (bus d) dA = set_bus (bus d) dB
  /\ guarded dA = guarded dB
  /\ GetAngle dA = GetAngle dB
  /\ fifo (bus dA) = fifo (bus dB)
  /\ length (concat decA) = length (concat decB).
Proof.
  intros HA HB Hwords. unfold Acquire.
  destruct A as [| a restA]; [congruence |].
  destruct B as [| b restB]; [congruence |].
  cbn [concat] in Hwords.
  destruct (m_freed d) eqn:Hfreed.
  - cbn [Acquire_loop]. rewrite Hfreed.
    intros HrA HrB. injection HrA as <- <- <-. injection HrB as <- <- <-.
    repeat split.
  - intros HrA HrB.
    destruct (Acquire_loop_stream _ _ _ _ _ _ _ _ Hfreed HrA) as (HsA & HfA & HnA).
    destruct (Acquire_loop_stream _ _ _ _ _ _ _ _ Hfreed HrB) as (HsB & HfB & HnB).
    rewrite Hwords in HsA, HfA, HnA.
    rewrite HsA in HsB. ret_pair HsB Hl Hd.
    assert (Hg : guarded dA = guarded dB)
      by exact (f_equal guarded Hd).
    split; [exact Hl |]. split; [exact Hd |]. split; [exact Hg |].
    split; [unfold GetAngle; rewrite Hg; reflexivity |].
    split; [rewrite HfA, HfB; reflexivity |].
    rewrite HnA, HnB. reflexivity.
Qed.

End AcquireStream.

Lemma split_polls_run :
  Acquire 10 [frame_a ++ firstn 2 frame_b; skipn 2 frame_b] sample_locals sample_imu
  = Ret (fst (fst split_polls), snd (fst split_polls), snd split_polls).
Proof. vm_compute. reflexivity. Qed.

Lemma Acquire_regrouped_witness :
  concat [frame_a ++ firstn 2 frame_b; skipn 2 frame_b] = concat [frame_a ++ frame_b]
  /\ snd split_polls = [[0]; [0]]
  /\ snd level_poll = [[0; 19]]
  /\ GetAngle (snd (fst split_polls)) = GetAngle (snd (fst level_poll))
  /\ guarded (snd (fst split_polls)) = guarded (snd (fst level_poll))
  /\ compAngleX (fst (fst split_polls)) = compAngleX (fst (fst level_poll)).
Proof.
  assert (Hwords : concat [frame_a ++ firstn 2 frame_b; skipn 2 frame_b]
                   = concat [frame_a ++ frame_b]) by reflexivity.
  destruct (Acquire_regrouped 10
              [frame_a ++ firstn 2 frame_b; skipn 2 frame_b] [frame_a ++ frame_b]
              sample_locals sample_imu
              (fst (fst split_polls)) (fst (fst level_poll))
              (snd (fst split_polls)) (snd (fst level_poll))
              (snd split_polls) (snd level_poll))
    as (Hlocals & _ & Hguarded & Hangle & _);
    [discriminate | discriminate | exact Hwords
     | exact split_polls_run | exact level_poll_run |].
  split; [exact Hwords |].
  split; [vm_compute; reflexivity |].
  split; [vm_compute; reflexivity |].
  split; [exact Hangle |].
  split; [exact Hguarded |].
  exact (f_equal compAngleX Hlocals).
Defined.

(** ** Reading a register *)

Lemma read_address (reg : Z) :
  uint8_t (Z.land (uint8_t reg) 0x7f) = reg mod 128.
Proof.
  unfold uint8_t, wrap.
  change 0x7f with (Z.ones 7). rewrite Z.land_ones by lia.
  change (2 ^ 8) with 256. change (2 ^ 7) with 128.
  rewrite (Z.mod_mod_divide reg 256 128) by (exists 2; reflexivity).
  pose proof (Z.mod_pos_bound reg 128 ltac:(lia)).
  apply Z.mod_small. lia.
Qed.

Lemma ReadRegister_mod (reg : Z) (d : ADIS16470_IMU) :
  ReadRegister reg d = ReadRegister (reg mod 128) d.
Proof.
  unfold ReadRegister. cbv zeta. rewrite !read_address.
  rewrite Z.mod_mod by lia. reflexivity.
Qed.

(** X19: [ReadRegister] is read-only, at every address.  It masks the
    write bit, so it changes no register of the device and an address and
    that address with bit 7 set read the same register; it returns the 16
    bits the device holds at the masked address, high byte first; it
    leaves the buffered words alone; and reading again gives the same
    value. *)
Theorem ReadRegister_is_read_only (reg : Z) (d : ADIS16470_IMU) :
  regs (bus (snd (ReadRegister reg d))) = regs (bus d)
  /\ fifo (bus (snd (ReadRegister reg d))) = fifo (bus d)
  /\ wire (bus (snd (ReadRegister reg d)))
     = wire (bus d) ++ [Write [reg mod 128; 0]; Read false 2]
  /\ is_register_write (Write [reg mod 128; 0]) = false
  /\ fst (ReadRegister reg d) = register16 (bus d) (reg mod 128)
  /\ ReadRegister (reg + 128) d = ReadRegister reg d
  /\ fst (ReadRegister reg (snd (ReadRegister reg d))) = fst (ReadRegister reg d).
Proof.
  pose proof (Z.mod_pos_bound reg 128 ltac:(lia)) as Hreg.
  assert (Hbit : Z.testbit (reg mod 128) 7 = false).
  { change 128 with (2 ^ 7). apply Z.mod_pow2_bits_high. lia. }
  rewrite (ReadRegister_mod (reg + 128)), (ReadRegister_mod reg).
  replace ((reg + 128) mod 128) with (reg mod 128)
    by (rewrite <- (Z.mul_1_l 128) at 2; rewrite Z.mod_add by lia; reflexivity).
  rewrite (ReadRegister_mod reg (snd _)).
  rewrite !(ReadRegister_eq _ (reg mod 128) Hreg).
  cbn [fst snd]. unfold set_bus. cbn [bus regs fifo wire].
  repeat match goal with |- _ /\ _ => split end; try reflexivity.
  cbn [is_register_write]. rewrite idx_0. exact Hbit.
Qed.
